(** * hs2sffree: HubSpot to Salesforce translator

    A shallow embedding of the translator's core (address parser, field
    mapping tables, company store, join passes) and the properties its
    specification states about them. *)

From Stdlib Require Import ZArith NArith List String Ascii Bool Lia DecimalString.
From stdpp Require Import base option list gmap sets countable.

Local Open Scope N_scope.

(** ** Python values *)

(** A Python [str] is a sequence of Unicode code points. *)
Abbreviation pystr := (list N).

(** A literal of the source text, one code point per character (the
    literals of the program are ASCII). *)
Definition ustr (s : string) : pystr :=
  map N_of_ascii (list_ascii_of_string s).

(** The JSON-shaped values that flow through the translator. Objects are
    kept as key/value lists in insertion order, as Python dicts are. *)
#[local] Unset Elimination Schemes.
Inductive pyval :=
  | VNone
  | VBool (b : bool)
  | VInt (z : Z)
  | VStr (s : pystr)
  | VList (l : list pyval)
  | VDict (kvs : list (pystr * pyval)).
#[local] Set Elimination Schemes.

(** Python truthiness: [bool(v)]. *)
Definition truthy (v : pyval) : bool :=
  match v with
  | VNone => false
  | VBool b => b
  | VInt z => negb (Z.eqb z 0)
  | VStr s => match s with [] => false | _ => true end
  | VList l => match l with [] => false | _ => true end
  | VDict kvs => match kvs with [] => false | _ => true end
  end.

(** A text-or-null cell (a HubSpot property, a parquet string column, a
    SQL text column) seen as a Python value, and back. *)
Definition of_text (t : option pystr) : pyval :=
  match t with Some s => VStr s | None => VNone end.

Definition as_text (v : pyval) : option pystr :=
  match v with VStr s => Some s | _ => None end.

(** ** Exceptions *)

Inductive exn :=
  | ValueError (msg : pystr)
  | TypeError
  | AttributeError
  | KeyError (key : pystr)
  | IntegrityError
  | ZeroDivisionError
  | ArrowInvalid
  | DatabaseError
  | FileNotFoundError (name : pystr)
  | CsvExtraFields (keys : list pystr).

Inductive result (A : Type) :=
  | Ok (a : A)
  | Raise (e : exn).
Arguments Ok {A} a.
Arguments Raise {A} e.

Global Instance result_ret : MRet result := fun A a => Ok a.
Global Instance result_bind : MBind result := fun A B f m =>
  match m with Ok a => f a | Raise e => Raise e end.
Global Instance result_fmap : FMap result := fun A B f m =>
  match m with Ok a => Ok (f a) | Raise e => Raise e end.

Definition is_ok {A} (r : result A) : bool :=
  match r with Ok _ => true | Raise _ => false end.

(** ** The interpreter's environment

    What a run reads besides its arguments: the wall clock
    ([datetime.now()]) and the Unicode character database behind
    [str.isalpha] for code points above ASCII. *)

Record datetime := {
  year : nat; month : nat; day : nat;
  hour : nat; minute : nat; second : nat; microsecond : nat }.

Record runtime := {
  now : datetime;
  unicode_isalpha : N -> bool }.

(** ** String operations *)

(** [Py_UNICODE_ISSPACE]: the class behind [\s] in a str pattern and behind
    [str.strip()]. *)
Definition isspace (c : N) : bool :=
  ((9 <=? c) && (c <=? 13)) || ((28 <=? c) && (c <=? 32))
  || (c =? 133) || (c =? 160) || (c =? 5760)
  || ((8192 <=? c) && (c <=? 8202))
  || (c =? 8232) || (c =? 8233) || (c =? 8239) || (c =? 8287) || (c =? 12288).

Definition is_cr_lf (c : N) : bool := (c =? 13) || (c =? 10).

Definition isalpha_char (rt : runtime) (c : N) : bool :=
  if c <? 128
  then ((65 <=? c) && (c <=? 90)) || ((97 <=? c) && (c <=? 122))
  else unicode_isalpha rt c.

(** [str.isalpha()]: at least one character, all alphabetic. *)
Definition isalpha (rt : runtime) (s : pystr) : bool :=
  match s with
  | [] => false
  | _ => forallb (isalpha_char rt) s
  end.

(** [re.sub(r"C+", repl, s)] for a character class [C]: every maximal run
    of class characters is replaced by [repl]. *)
Fixpoint sub_runs (cls : N -> bool) (repl : pystr) (in_run : bool) (s : pystr) : pystr :=
  match s with
  | [] => []
  | c :: s' =>
      if cls c
      then (if in_run then [] else repl) ++ sub_runs cls repl true s'
      else c :: sub_runs cls repl false s'
  end.

Definition re_sub_plus (cls : N -> bool) (repl : pystr) (s : pystr) : pystr :=
  sub_runs cls repl false s.

Fixpoint lstrip (s : pystr) : pystr :=
  match s with
  | [] => []
  | c :: s' => if isspace c then lstrip s' else s
  end.

(** [s.strip()] *)
Definition strip (s : pystr) : pystr := rev (lstrip (rev (lstrip s))).

(** [s.split(sep)] for a one-character separator. *)
Fixpoint split_on (sep : N) (s : pystr) : list pystr :=
  match s with
  | [] => [[]]
  | c :: s' =>
      if c =? sep then [] :: split_on sep s'
      else match split_on sep s' with
           | seg :: segs => (c :: seg) :: segs
           | [] => [[c]]
           end
  end.

(** [sep.join(parts)] *)
Fixpoint join (sep : pystr) (parts : list pystr) : pystr :=
  match parts with
  | [] => []
  | [p] => p
  | p :: ps => p ++ sep ++ join sep ps
  end.

(** [s.replace(old, new)]: non-overlapping occurrences, left to right.
    [old] is non-empty at every call site. *)
Fixpoint strip_prefix (p s : pystr) : option pystr :=
  match p, s with
  | [], _ => Some s
  | a :: p', b :: s' => if a =? b then strip_prefix p' s' else None
  | _ :: _, [] => None
  end.

Fixpoint replace_from (old new : pystr) (skip : nat) (s : pystr) : pystr :=
  match s with
  | [] => []
  | c :: s' =>
      match skip with
      | S k => replace_from old new k s'
      | O =>
          match strip_prefix old s with
          | Some _ => new ++ replace_from old new (Nat.pred (length old)) s'
          | None => c :: replace_from old new O s'
          end
      end
  end.

Definition replace (old new s : pystr) : pystr := replace_from old new O s.

(** [needle in hay] *)
Fixpoint str_contains (needle hay : pystr) : bool :=
  match strip_prefix needle hay with
  | Some _ => true
  | None => match hay with [] => false | _ :: hay' => str_contains needle hay' end
  end.

(** ** infra/address_parser.py *)

Module AddressParser.

Definition address3 : Type := option pystr * option pystr * option pystr.

Definition failed : address3 := (None, None, None).

(** [parts.pop(-1)]: the list without its last element, and that element. *)
Fixpoint pop_last (parts : list pystr) : option (list pystr * pystr) :=
  match parts with
  | [] => None
  | [p] => Some ([], p)
  | p :: ps =>
      match pop_last ps with
      | Some (init, l) => Some (p :: init, l)
      | None => None
      end
  end.

(** The loop over the middle parts: alphanumeric or numeric parts extend
    the zip until the first letters-only part, which with the rest goes
    to the city. *)
Fixpoint collect_middle (rt : runtime) (parts zip_parts city_parts : list pystr)
  : list pystr * list pystr :=
  match parts with
  | [] => (zip_parts, city_parts)
  | part :: rest =>
      if isalpha rt part
      then (zip_parts, parts ++ city_parts)
      else collect_middle rt rest (zip_parts ++ [part]) city_parts
  end.

Definition parse_address (rt : runtime) (address : pystr) : address3 :=
  match address with
  | [] => failed
  | _ =>
      let s := re_sub_plus is_cr_lf (ustr ",") address in
      let s := re_sub_plus isspace (ustr " ") s in
      let s := strip s in
      match s with
      | [] => failed
      | _ =>
          match split_on 44 s with
          | [street; zip_city] =>
              let parts := split_on 32 (strip zip_city) in
              if (length parts <? 2)%nat then failed
              else
                match parts with
                | first :: parts =>
                    match pop_last parts with
                    | Some (parts, final) =>
                        let '(zip_parts, city_parts) :=
                          collect_middle rt parts [first] [final] in
                        (Some (join (ustr " ") city_parts),
                         Some street,
                         Some (join (ustr " ") zip_parts))
                    | None => failed
                    end
                | [] => failed
                end
          | _ => failed
          end
      end
  end.

(** The parser as the specification words it. *)
Definition normalize (address : pystr) : pystr :=
  strip (re_sub_plus isspace (ustr " ") (re_sub_plus is_cr_lf (ustr ",") address)).

Fixpoint before_first_alpha (rt : runtime) (tokens : list pystr) : list pystr :=
  match tokens with
  | [] => []
  | t :: ts => if isalpha rt t then [] else t :: before_first_alpha rt ts
  end.

Fixpoint from_first_alpha (rt : runtime) (tokens : list pystr) : list pystr :=
  match tokens with
  | [] => []
  | t :: ts => if isalpha rt t then tokens else from_first_alpha rt ts
  end.

Definition parse_spec (rt : runtime) (address : pystr) : address3 :=
  match split_on 44 (normalize address) with
  | [street; zip_city] =>
      match split_on 32 (strip zip_city) with
      | first :: second :: rest =>
          let interior := removelast (second :: rest) in
          let final := List.last (second :: rest) [] in
          (Some (join (ustr " ") (from_first_alpha rt interior ++ [final])),
           Some street,
           Some (join (ustr " ") (first :: before_first_alpha rt interior)))
      | _ => failed
      end
  | _ => failed
  end.

End AddressParser.

(** ** Dictionaries *)

(** [d.get(key)] on a JSON object. *)
Fixpoint assoc_get (key : pystr) (kvs : list (pystr * pyval)) : pyval :=
  match kvs with
  | [] => VNone
  | (k, v) :: kvs' => if decide (k = key) then v else assoc_get key kvs'
  end.

(** [d.get(key)] *)
Definition dict_get (d : gmap pystr pyval) (key : pystr) : pyval :=
  default VNone (d !! key).

(** [d[key]] *)
Definition dict_getitem (d : gmap pystr pyval) (key : pystr) : result pyval :=
  match d !! key with
  | Some v => Ok v
  | None => Raise (KeyError key)
  end.

(** ** models/field_map.py and field_mapping.py *)

Module FieldMapping.
Import AddressParser.

Abbreviation Context := (gmap pystr pyval).

(** What a transform returns: a plain value, or a (value, context) tuple. *)
Inductive transformed :=
  | Plain (value : pyval)
  | WithContext (value : pyval) (new_ctx : Context).

Definition TransformFun : Type := runtime -> pyval -> Context -> result transformed.

Record FieldMap := {
  src_field : pystr;
  transform_fun : option TransformFun;
  required : bool }.

Definition ACCOUNTS_NAME_COLUMN : pystr := ustr "Account Name".
Definition COMPANY_ID_COLUMN : pystr := ustr "company_id".

Definition DEALTYPE_MAP : list (pystr * pystr) :=
  [ (ustr "newbusiness", ustr "New Business");
    (ustr "existingbusiness", ustr "Existing Business") ].

Definition DEALSTAGE_MAP : list (pystr * pystr) :=
  [ (ustr "qualifiedtobuy", ustr "Qualify");
    (ustr "presentationscheduled", ustr "Meet & Present");
    (ustr "appointmentscheduled", ustr "Propose");
    (ustr "decisionmakerboughtin", ustr "Negotiate");
    (ustr "closedwon", ustr "Closed Won");
    (ustr "closedlost", ustr "Closed Lost") ].

(** [TABLE.get(val)] on a str-keyed constant table: unhashable keys raise,
    keys of another type are simply absent. *)
Definition table_get (table : list (pystr * pystr)) (val : pyval) : result pyval :=
  match val with
  | VStr s => Ok (of_text (snd <$> List.find (fun kv => bool_decide (fst kv = s)) table))
  | VList _ | VDict _ => Raise TypeError
  | _ => Ok VNone
  end.

(** The call [parse_address(address)] on whatever the record holds: falsy
    values take the early return, a str is parsed, anything else reaches
    [re.sub] and raises. *)
Definition call_parse_address (rt : runtime) (address : pyval) : result address3 :=
  match address with
  | VStr s => Ok (parse_address rt s)
  | v => if truthy v then Raise TypeError else Ok failed
  end.

Definition _split_street_from_city_zip_code : TransformFun :=
  fun rt address _ctx =>
    '(city, street, zip_code) ← call_parse_address rt address;
    Ok (WithContext (of_text street)
          (<[ustr "city" := of_text city]>
             (<[ustr "zip_code" := of_text zip_code]> ∅))).

Definition ctx_item (key : pystr) : TransformFun :=
  fun _ _ ctx =>
    match ctx !! key with
    | Some v => Ok (Plain v)
    | None => Raise (KeyError key)
    end.

Definition account_website : TransformFun :=
  fun _ domain _ =>
    match domain with
    | VStr d => Ok (Plain (VStr (ustr "https://" ++ d)))
    | _ => Raise TypeError
    end.

Definition ACCOUNT_FIELDS_MAP : list (pystr * FieldMap) :=
  [ (ACCOUNTS_NAME_COLUMN,
      {| src_field := ustr "name"; transform_fun := None; required := true |});
    (ustr "Account Website",
      {| src_field := ustr "domain"; transform_fun := Some account_website;
         required := false |});
    (ustr "Account Billing Street",
      {| src_field := ustr "address";
         transform_fun := Some _split_street_from_city_zip_code; required := false |});
    (ustr "Account Billing City",
      {| src_field := ustr "address"; transform_fun := Some (ctx_item (ustr "city"));
         required := false |});
    (ustr "Account Billing Zip/Postal Code",
      {| src_field := ustr "address"; transform_fun := Some (ctx_item (ustr "zip_code"));
         required := false |});
    (ustr "Account Billing Country",
      {| src_field := ustr "country"; transform_fun := None; required := false |}) ].

Definition _get_company_id_from_assoc : TransformFun :=
  fun _ associations_companies_results _ctx =>
    if truthy associations_companies_results then
      match associations_companies_results with
      | VList (VDict first :: _) => Ok (Plain (assoc_get (ustr "id") first))
      | VList _ | VStr _ => Raise AttributeError
      | VDict _ => Raise (KeyError (ustr "0"))
      | _ => Raise TypeError
      end
    else Ok (Plain VNone).

Definition CONTACT_FIELDS_MAP : list (pystr * FieldMap) :=
  [ (COMPANY_ID_COLUMN,
      {| src_field := ustr "associations_companies_results";
         transform_fun := Some _get_company_id_from_assoc; required := true |});
    (ustr "Contact First Name",
      {| src_field := ustr "firstname"; transform_fun := None; required := true |});
    (ustr "Contact Last Name",
      {| src_field := ustr "lastname"; transform_fun := None; required := true |});
    (ustr "Contact Phone",
      {| src_field := ustr "phone"; transform_fun := None; required := false |});
    (ustr "Contact Email",
      {| src_field := ustr "email"; transform_fun := None; required := false |});
    (ustr "Contact Title",
      {| src_field := ustr "jobtitle"; transform_fun := None; required := false |});
    (ustr "Contact Mailing Street",
      {| src_field := ustr "address";
         transform_fun := Some _split_street_from_city_zip_code; required := false |});
    (ustr "Contact Mailing City",
      {| src_field := ustr "address"; transform_fun := Some (ctx_item (ustr "city"));
         required := false |});
    (ustr "Contact Mailing Zip/Postal Code",
      {| src_field := ustr "address"; transform_fun := Some (ctx_item (ustr "zip_code"));
         required := false |});
    (ustr "Contact Mailing Country",
      {| src_field := ustr "country"; transform_fun := None; required := false |}) ].

(** Zero-padded decimal, as [%m], [%d], [%H] ... print a field ([%Y] to
    four digits). *)
Definition zero_pad (width : nat) (n : nat) : pystr :=
  let digits := ustr (NilEmpty.string_of_uint (Nat.to_uint n)) in
  repeat 48 (width - length digits)%nat ++ digits.

(** [dt.strftime("%Y-%m-%d %H:%M:%S")] *)
Definition strftime (dt : datetime) : pystr :=
  zero_pad 4 (year dt) ++ ustr "-" ++ zero_pad 2 (month dt) ++ ustr "-"
  ++ zero_pad 2 (day dt) ++ ustr " " ++ zero_pad 2 (hour dt) ++ ustr ":"
  ++ zero_pad 2 (minute dt) ++ ustr ":" ++ zero_pad 2 (second dt).

(** [dt.replace(hour=0, minute=0, second=0, microsecond=0)] *)
Definition midnight (dt : datetime) : datetime :=
  {| year := year dt; month := month dt; day := day dt;
     hour := 0; minute := 0; second := 0; microsecond := 0 |}.

Definition _get_closedate : TransformFun :=
  fun rt closedate _ctx =>
    if truthy closedate then
      match closedate with
      | VStr s => Ok (Plain (VStr (replace (ustr "Z") (ustr "") (replace (ustr "T") (ustr " ") s))))
      | _ => Raise AttributeError
      end
    else Ok (Plain (VStr (strftime (midnight (now rt))))).

Definition DEAL_FIELDS_MAP : list (pystr * FieldMap) :=
  [ (COMPANY_ID_COLUMN,
      {| src_field := ustr "associations_companies_results";
         transform_fun := Some _get_company_id_from_assoc; required := true |});
    (ustr "Name",
      {| src_field := ustr "dealname"; transform_fun := None; required := true |});
    (ustr "Type",
      {| src_field := ustr "dealtype";
         transform_fun := Some (fun _ val _ => Plain <$> table_get DEALTYPE_MAP val);
         required := false |});
    (ustr "Stage",
      {| src_field := ustr "dealstage";
         transform_fun := Some (fun _ val _ => Plain <$> table_get DEALSTAGE_MAP val);
         required := true |});
    (ustr "Amount",
      {| src_field := ustr "amount"; transform_fun := None; required := false |});
    (ustr "Close Date",
      {| src_field := ustr "closedate"; transform_fun := Some _get_closedate;
         required := true |}) ].

(** The loop of [build_attrs], with its two accumulators. *)
Fixpoint build_attrs_from (rt : runtime) (fields_map : list (pystr * FieldMap))
    (hs_record : gmap pystr pyval) (attrs : gmap pystr pyval) (ctx : Context)
  : result (gmap pystr pyval) :=
  match fields_map with
  | [] => Ok attrs
  | (sf_label, field) :: rest =>
      match transform_fun field with
      | Some f =>
          r ← f rt (dict_get hs_record (src_field field)) ctx;
          match r with
          | WithContext value new_ctx =>
              build_attrs_from rt rest hs_record (<[sf_label := value]> attrs) (new_ctx ∪ ctx)
          | Plain value =>
              build_attrs_from rt rest hs_record (<[sf_label := value]> attrs) ctx
          end
      | None =>
          let value := dict_get hs_record (src_field field) in
          build_attrs_from rt rest hs_record (<[sf_label := value]> attrs) ctx
      end
  end.

Definition build_attrs (rt : runtime) (fields_map : list (pystr * FieldMap))
    (hs_record : gmap pystr pyval) : result (gmap pystr pyval) :=
  build_attrs_from rt fields_map hs_record ∅ ∅.

Fixpoint first_missing_field (fields_map : list (pystr * FieldMap))
    (attrs : gmap pystr pyval) : option (pystr * pystr) :=
  match fields_map with
  | [] => None
  | (sf_label, field) :: rest =>
      if required field && negb (truthy (dict_get attrs sf_label))
      then Some (src_field field, sf_label)
      else first_missing_field rest attrs
  end.

End FieldMapping.

(** ** infra/companies_db.py *)

Module CompaniesDb.

(** A row of the [companies] table: [id] is the text primary key, [attrs]
    the JSON blob, [name] a nullable text column. *)
Record company := {
  co_id : pystr;
  co_attrs : gmap pystr pyval;
  co_name : option pystr;
  co_duplicate : bool }.

(** The open database: the table's rows, in insertion order. *)
Abbreviation DatabaseEngine := (list company).

Definition entry : Type := option pystr * gmap pystr pyval * option pystr * bool.

(** How an f-string prints a str-or-None. *)
Definition fmt_text (t : option pystr) : pystr :=
  match t with Some s => s | None => ustr "None" end.

(** [bool(x)] of a str-or-None. *)
Definition text_truthy (t : option pystr) : bool :=
  match t with Some (_ :: _) => true | _ => false end.

(** The first loop of [add_companies]. *)
Fixpoint check_attrs (id_attrs_list : list entry) : result unit :=
  match id_attrs_list with
  | [] => Ok tt
  | (comp_id, attrs, _, _) :: rest =>
      if bool_decide (attrs = ∅)
      then Raise (ValueError (ustr "No attrs provided for company with id " ++ fmt_text comp_id))
      else check_attrs rest
  end.

(** The INSERT of all records in one transaction: the primary key is
    NOT NULL and UNIQUE. *)
Fixpoint insert_records (table : DatabaseEngine) (records : list entry)
  : result DatabaseEngine :=
  match records with
  | [] => Ok table
  | (Some comp_id, attrs, name, duplicate) :: rest =>
      if bool_decide (comp_id ∈ co_id <$> table) then Raise IntegrityError
      else insert_records
             (table ++ [{| co_id := comp_id; co_attrs := attrs;
                           co_name := name; co_duplicate := duplicate |}]) rest
  | (None, _, _, _) :: _ => Raise IntegrityError
  end.

(** Returns the database after the insert (the list of inserted keys the
    source returns is not used by the translator). *)
Definition add_companies (db_engine : DatabaseEngine) (id_attrs_list : list entry)
  : result DatabaseEngine :=
  match id_attrs_list with
  | [] => Raise (ValueError (ustr "No companies provided"))
  | _ =>
      _ ← check_attrs id_attrs_list;
      insert_records db_engine id_attrs_list
  end.

Record found_company := {
  attrs : gmap pystr pyval;
  duplicate : bool }.

Definition get_company (db_engine : DatabaseEngine) (id : option pystr)
  : result found_company :=
  if text_truthy id then
    match List.find (fun c => bool_decide (Some (co_id c) = id)) db_engine with
    | Some c => Ok {| attrs := co_attrs c; duplicate := co_duplicate c |}
    | None => Raise (ValueError (ustr "Company not found"))
    end
  else Raise (ValueError (ustr "No id provided")).

(** The check that no name is listed twice. *)
Fixpoint check_names (seen : gset (option pystr)) (name_list : list (option pystr))
  : result unit :=
  match name_list with
  | [] => Ok tt
  | name :: rest =>
      if bool_decide (name ∈ seen)
      then Raise (ValueError (ustr "Duplicate names in list: " ++ [34] ++ fmt_text name ++ [34]))
      else check_names ({[name]} ∪ seen) rest
  end.

(** SQL [name IN (...)]: a NULL on either side never matches. *)
Definition sql_in (x : option pystr) (values : list (option pystr)) : bool :=
  match x with
  | Some s => bool_decide (Some s ∈ values)
  | None => false
  end.

(** The SELECT: rows whose name is in the list and that are not flagged. *)
Definition select_by_name (db_engine : DatabaseEngine) (name_list : list (option pystr))
  : list company :=
  List.filter (fun c => sql_in (co_name c) name_list && negb (co_duplicate c)) db_engine.

(** The map from name to id built from the fetched rows (a later row
    overwrites an earlier one of the same name). *)
Definition name_to_id_from (m0 : gmap (option pystr) pystr) (found_companies : list company)
  : gmap (option pystr) pystr :=
  foldl (fun m row => <[co_name row := co_id row]> m) m0 found_companies.

Definition find_companies_by_name (db_engine : DatabaseEngine)
    (name_list : option (list (option pystr))) : result (list (option pystr)) :=
  match name_list with
  | None | Some [] => Raise (ValueError (ustr "No names list provided"))
  | Some name_list =>
      _ ← check_names ∅ name_list;
      let found_companies := select_by_name db_engine name_list in
      let name_to_id := name_to_id_from ∅ found_companies in
      Ok ((fun n => name_to_id !! n) <$> name_list)
  end.

End CompaniesDb.

(** ** settings.py *)

Module Settings.
Definition hubspot_api_companies_path : pystr := ustr "/crm/objects/v3/companies".
Definition hubspot_api_contacts_path : pystr := ustr "/crm/objects/v3/contacts".
Definition hubspot_api_deals_path : pystr := ustr "/crm/objects/v3/deals".
Definition contacts_filename : pystr := ustr "contacts.parquet".
Definition deals_filename : pystr := ustr "deals.parquet".
Definition companies_filename : pystr := ustr "companies.sqlite".
Definition csv_accounts_contacts_filename : pystr := ustr "accounts_contacts.csv".
Definition csv_errors_accounts_contacts_filename : pystr := ustr "errors_accounts_contacts.csv".
Definition csv_opportunities_filename : pystr := ustr "opportunities.csv".
Definition csv_errors_opportunities_filename : pystr := ustr "errors_opportunities.csv".
End Settings.

(** ** translator.py *)

Module Translator.
Import FieldMapping CompaniesDb.

Definition OPPORTUNITIES_ACCOUNT_NAME_COLUMN : pystr := ustr "Next Step".
Definition ERROR_COLUMN : pystr := ustr "Error".

(** [ErrorCode] *)
Definition DUPLICATE_COMPANY : pystr := ustr "Duplicate company name (Account Name)".
Definition MISSING_VALUE : pystr := ustr "Missing value $url_path$ $hs_name$ ($sf_label$)".

(** *** Download phase: persisting a page of companies *)

(** One element of a page's [results]: HubSpot sends the id and every
    property value as text or null. *)
Record hs_object := {
  obj_id : option pystr;
  obj_properties : gmap pystr (option pystr) }.

Definition id_attrs : Type := option pystr * gmap pystr pyval * option pystr.

(** The first loop of [_persist_company]. The name column of the store is
    text, so the name is carried as text-or-null from here on. *)
Definition company_row (rt : runtime) (res : hs_object) : result id_attrs :=
  let company_id := obj_id res in
  let properties := of_text <$> obj_properties res in
  attrs ← build_attrs rt ACCOUNT_FIELDS_MAP properties;
  name ← dict_getitem attrs ACCOUNTS_NAME_COLUMN;
  Ok (company_id, attrs, as_text name).

(** The second loop: the flag of each row, with the names added so far. *)
Fixpoint flag_rows (name_to_duplicate_db : gmap (option pystr) bool)
    (added_names : gset (option pystr)) (id_attrs_list : list id_attrs) : list entry :=
  match id_attrs_list with
  | [] => []
  | (cid, attrs, name) :: rest =>
      let duplicate :=
        default false (name_to_duplicate_db !! name) || bool_decide (name ∈ added_names) in
      (cid, attrs, name, duplicate) :: flag_rows name_to_duplicate_db ({[name]} ∪ added_names) rest
  end.

(** [[row[1][column] for row in id_attrs_list]] *)
Fixpoint row_names (column : pystr) (id_attrs_list : list id_attrs)
  : result (list (option pystr)) :=
  match id_attrs_list with
  | [] => Ok []
  | row :: rest =>
      name ← dict_getitem row.1.2 column;
      names ← row_names column rest;
      Ok (as_text name :: names)
  end.

Definition _persist_company (rt : runtime) (engine : DatabaseEngine)
    (results : list hs_object) : result DatabaseEngine :=
  let columns := fst <$> ACCOUNT_FIELDS_MAP in
  id_attrs_list ← mapM (company_row rt) results;
  names ← row_names (List.hd [] columns) id_attrs_list;
  let uniq_names := elements (list_to_set names : gset (option pystr)) in
  ids_seen_before ← find_companies_by_name engine (Some uniq_names);
  let name_to_duplicate_db : gmap (option pystr) bool :=
    list_to_map (zip uniq_names (text_truthy <$> ids_seen_before)) in
  add_companies engine (flag_rows name_to_duplicate_db ∅ id_attrs_list).

(** *** Join phase *)

Definition _build_missing_field_error (missing_field : pystr * pystr) (path : pystr) : pystr :=
  let '(src_field, sf_label) := missing_field in
  replace (ustr "$sf_label$") sf_label
    (replace (ustr "$hs_name$") src_field
       (replace (ustr "$url_path$") path MISSING_VALUE)).

Definition _normalize_csv_empty_values (row : gmap pystr pyval) : gmap pystr pyval :=
  (fun v => match v with VNone => VStr [] | _ => v end) <$> row.

(** A row as read back from an intermediate parquet file, whose columns
    are all of type string. *)
Abbreviation parquet_row := (gmap pystr (option pystr)).

Inductive file :=
  | EmptyFile
  | ParquetFile (batches : list (list parquet_row))
  | SqliteFile (companies : DatabaseEngine)
  | CsvFile (header : list pystr) (rows : list (list pyval)).

(** The working directory: file name to content. *)
Abbreviation directory := (gmap pystr file).

(** [l.remove(x)] *)
Fixpoint list_remove_first (x : pystr) (l : list pystr) : list pystr :=
  match l with
  | [] => []
  | y :: l' => if decide (y = x) then l' else y :: list_remove_first x l'
  end.

(** [csv.DictWriter.writerow]: keys outside the field names are refused,
    missing ones are written empty. *)
Definition append_row (cells : list pyval) (f : file) : file :=
  match f with
  | CsvFile header rows => CsvFile header (rows ++ [cells])
  | _ => f
  end.

(** The cells of a row, in the order of the field names. *)
Definition cells_of (fieldnames : list pystr) (row : gmap pystr pyval) : list pyval :=
  (fun k => default (VStr []) (row !! k)) <$> fieldnames.

Definition writerow (path : pystr) (fieldnames : list pystr) (row : gmap pystr pyval)
    (dir : directory) : result directory :=
  match List.filter (fun k => negb (bool_decide (k ∈ fieldnames))) (fst <$> map_to_list row) with
  | [] => Ok (alter (append_row (cells_of fieldnames row)) path dir)
  | extras => Raise (CsvExtraFields extras)
  end.

Record stats := {
  total_rows : nat;
  error_rows : nat }.

Record pass_state := {
  files : directory;
  counters : stats }.

(** What the body of the row loop computes before routing: the
    diagnostic, if any, and the row to write. *)
Definition classified : Type := option pystr * gmap pystr pyval.

(** The company-side checks, run only when no diagnostic is staged. *)
Definition company_checks (error_str : option pystr) (company : found_company)
  : option pystr :=
  if text_truthy error_str then error_str
  else
    match first_missing_field ACCOUNT_FIELDS_MAP (attrs company) with
    | Some missing_company_field =>
        Some (_build_missing_field_error missing_company_field
                Settings.hubspot_api_companies_path)
    | None => if duplicate company then Some DUPLICATE_COMPANY else error_str
    end.

Definition staged_error (fields_map : list (pystr * FieldMap)) (path : pystr)
    (row : gmap pystr pyval) : option pystr :=
  match first_missing_field fields_map row with
  | Some missing_field => Some (_build_missing_field_error missing_field path)
  | None => None
  end.

(** The loop body of [_build_accounts_contacts], up to the routing. *)
Definition contact_row (engine : DatabaseEngine) (row : parquet_row) : result classified :=
  let error_str :=
    staged_error CONTACT_FIELDS_MAP Settings.hubspot_api_contacts_path (of_text <$> row) in
  match row !! COMPANY_ID_COLUMN with
  | None => Raise (KeyError COMPANY_ID_COLUMN)
  | Some company_id =>
      let row : gmap pystr pyval := of_text <$> delete COMPANY_ID_COLUMN row in
      if text_truthy company_id then
        company ← get_company engine company_id;
        let company_attrs := attrs company in
        let row := row ∪ company_attrs in
        Ok (company_checks error_str company, _normalize_csv_empty_values row)
      else Ok (error_str, _normalize_csv_empty_values row)
  end.

(** The loop body of [_build_opportunities], up to the routing. *)
Definition deal_row (engine : DatabaseEngine) (row : parquet_row) : result classified :=
  let error_str :=
    staged_error DEAL_FIELDS_MAP Settings.hubspot_api_deals_path (of_text <$> row) in
  match row !! COMPANY_ID_COLUMN with
  | None => Raise (KeyError COMPANY_ID_COLUMN)
  | Some company_id =>
      let row : gmap pystr pyval := of_text <$> delete COMPANY_ID_COLUMN row in
      if text_truthy company_id then
        company ← get_company engine company_id;
        let company_attrs := attrs company in
        company_name ← dict_getitem company_attrs ACCOUNTS_NAME_COLUMN;
        let row := <[OPPORTUNITIES_ACCOUNT_NAME_COLUMN := company_name]> row in
        Ok (company_checks error_str company, _normalize_csv_empty_values row)
      else Ok (error_str, _normalize_csv_empty_values row)
  end.

(** The routing of one classified row, and the counters. *)
Definition route (output_csv_path errors_csv_path : pystr)
    (field_names error_field_names : list pystr)
    (st : pass_state) (c : classified) : result pass_state :=
  let '(error_str, row) := c in
  if text_truthy error_str then
    let row := <[ERROR_COLUMN := of_text error_str]> row in
    dir ← writerow errors_csv_path error_field_names row (files st);
    Ok {| files := dir;
          counters := {| total_rows := S (total_rows (counters st));
                         error_rows := S (error_rows (counters st)) |} |}
  else
    dir ← writerow output_csv_path field_names row (files st);
    Ok {| files := dir;
          counters := {| total_rows := S (total_rows (counters st));
                         error_rows := error_rows (counters st) |} |}.

(** The inner loop over the rows of one batch. When a row raises, the
    state reached so far is what is left behind. *)
Fixpoint stream_rows (body : parquet_row -> result classified)
    (output_csv_path errors_csv_path : pystr) (field_names error_field_names : list pystr)
    (rows : list parquet_row) (st : pass_state) : pass_state * result unit :=
  match rows with
  | [] => (st, Ok tt)
  | row :: rest =>
      match body row ≫= route output_csv_path errors_csv_path field_names error_field_names st with
      | Ok st' =>
          stream_rows body output_csv_path errors_csv_path field_names error_field_names rest st'
      | Raise e => (st, Raise e)
      end
  end.

(** The outer loop over the batches; after each batch the progress
    callback receives [total_rows / rows_count_in_file]. *)
Fixpoint stream_batches (body : parquet_row -> result classified)
    (output_csv_path errors_csv_path : pystr) (field_names error_field_names : list pystr)
    (rows_count_in_file : nat) (batches : list (list parquet_row)) (st : pass_state)
  : pass_state * result unit :=
  match batches with
  | [] => (st, Ok tt)
  | record_batch :: rest =>
      match stream_rows body output_csv_path errors_csv_path field_names error_field_names
              record_batch st with
      | (st', Ok _) =>
          if Nat.eqb rows_count_in_file 0 then (st', Raise ZeroDivisionError)
          else stream_batches body output_csv_path errors_csv_path field_names
                 error_field_names rows_count_in_file rest st'
      | (st', Raise e) => (st', Raise e)
      end
  end.

(** What both passes do once their columns and loop body are fixed: read
    the parquet file, create both CSV files with their headers, stream,
    and unlink the error file when it received no row. *)
Definition run_pass (body : parquet_row -> result classified)
    (parquet_path output_csv_path errors_csv_path : pystr)
    (field_names error_field_names : list pystr) (dir : directory)
  : directory * result stats :=
  match dir !! parquet_path with
  | None => (dir, Raise (FileNotFoundError parquet_path))
  | Some (ParquetFile batches) =>
      let rows_count_in_file := length (concat batches) in
      let dir := <[output_csv_path := CsvFile field_names []]> dir in
      let dir := <[errors_csv_path := CsvFile error_field_names []]> dir in
      let st := {| files := dir; counters := {| total_rows := 0; error_rows := 0 |} |} in
      match stream_batches body output_csv_path errors_csv_path field_names
              error_field_names rows_count_in_file batches st with
      | (st, Ok _) =>
          if Nat.eqb 0 (error_rows (counters st))
          then (delete errors_csv_path (files st), Ok (counters st))
          else (files st, Ok (counters st))
      | (st, Raise e) => (files st, Raise e)
      end
  | Some _ => (dir, Raise ArrowInvalid)
  end.

(** The columns of accounts_contacts.csv: [field_names] in
    [_build_accounts_contacts]. *)
Definition accounts_contacts_field_names : list pystr :=
  let account_filed_names := fst <$> ACCOUNT_FIELDS_MAP in
  let contact_field_names := list_remove_first COMPANY_ID_COLUMN (fst <$> CONTACT_FIELDS_MAP) in
  account_filed_names ++ contact_field_names.

Definition _build_accounts_contacts (engine : DatabaseEngine)
    (contacts_path output_csv_path errors_csv_path : pystr) (dir : directory)
  : directory * result stats :=
  let field_names := accounts_contacts_field_names in
  let error_filed_names := [ERROR_COLUMN] ++ field_names in
  run_pass (contact_row engine) contacts_path output_csv_path errors_csv_path
    field_names error_filed_names dir.

(** The columns of opportunities.csv. *)
Definition opportunities_field_names : list pystr :=
  list_remove_first COMPANY_ID_COLUMN (fst <$> DEAL_FIELDS_MAP)
  ++ [OPPORTUNITIES_ACCOUNT_NAME_COLUMN].

Definition _build_opportunities (engine : DatabaseEngine)
    (deals_path output_csv_path errors_csv_path : pystr) (dir : directory)
  : directory * result stats :=
  let error_filed_names := [ERROR_COLUMN] ++ opportunities_field_names in
  run_pass (deal_row engine) deals_path output_csv_path errors_csv_path
    opportunities_field_names error_filed_names dir.

(** The loop that opens [build_sf_csvs]. *)
Fixpoint check_files (check_filenames : list pystr) (dir : directory) : result unit :=
  match check_filenames with
  | [] => Ok tt
  | filename :: rest =>
      match dir !! filename with
      | None => Raise (ValueError (ustr "No " ++ filename ++ ustr " file found"))
      | Some _ => check_files rest dir
      end
  end.

(** [initialize_db] on the companies file: an existing database is opened
    as it is, an empty file becomes a database with an empty table. *)
Definition initialize_db (path : pystr) (dir : directory) : directory * result DatabaseEngine :=
  match dir !! path with
  | Some (SqliteFile companies) => (dir, Ok companies)
  | Some EmptyFile | None => (<[path := SqliteFile []]> dir, Ok [])
  | Some _ => (dir, Raise DatabaseError)
  end.

Record aggregated_stats := {
  accounts_contacts_total_rows : nat;
  accounts_contacts_valid_rows : nat;
  accounts_contacts_error_rows : nat;
  opportunities_total_rows : nat;
  opportunities_valid_rows : nat;
  opportunities_error_rows : nat }.

Definition build_sf_csvs (dir : directory) : directory * result aggregated_stats :=
  let check_filenames :=
    [Settings.contacts_filename; Settings.deals_filename; Settings.companies_filename] in
  match check_files check_filenames dir with
  | Raise e => (dir, Raise e)
  | Ok _ =>
      match initialize_db Settings.companies_filename dir with
      | (dir, Raise e) => (dir, Raise e)
      | (dir, Ok engine) =>
          match _build_accounts_contacts engine Settings.contacts_filename
                  Settings.csv_accounts_contacts_filename
                  Settings.csv_errors_accounts_contacts_filename dir with
          | (dir, Raise e) => (dir, Raise e)
          | (dir, Ok accounts_contacts_stats) =>
              match _build_opportunities engine Settings.deals_filename
                      Settings.csv_opportunities_filename
                      Settings.csv_errors_opportunities_filename dir with
              | (dir, Raise e) => (dir, Raise e)
              | (dir, Ok opportunities_stats) =>
                  (dir,
                   Ok {| accounts_contacts_total_rows := total_rows accounts_contacts_stats;
                         accounts_contacts_valid_rows :=
                           total_rows accounts_contacts_stats - error_rows accounts_contacts_stats;
                         accounts_contacts_error_rows := error_rows accounts_contacts_stats;
                         opportunities_total_rows := total_rows opportunities_stats;
                         opportunities_valid_rows :=
                           total_rows opportunities_stats - error_rows opportunities_stats;
                         opportunities_error_rows := error_rows opportunities_stats |})
              end
          end
      end
  end.

End Translator.

(** ** Runtimes for worked examples

    A clock reading on the given date, and a character table that is
    CPython's up to U+00FF (the letters of Latin-1) and empty above. *)

Definition latin1_isalpha (c : N) : bool :=
  (c =? 170) || (c =? 181) || (c =? 186)
  || ((192 <=? c) && (c <=? 214)) || ((216 <=? c) && (c <=? 246))
  || ((248 <=? c) && (c <=? 255)).

Definition runtime_on (y m d : nat) : runtime :=
  {| now := {| year := y; month := m; day := d;
               hour := 9; minute := 30; second := 15; microsecond := 0 |};
     unicode_isalpha := latin1_isalpha |}.


(** ** The join phase as the specification words it *)

Module JoinSpec.
Import FieldMapping CompaniesDb Translator.

(** The parent a child row resolves to, if it names one that the store
    holds. *)
Definition parent_of (engine : DatabaseEngine) (row : parquet_row) : option found_company :=
  match row !! COMPANY_ID_COLUMN with
  | Some company_id =>
      if text_truthy company_id then
        match get_company engine company_id with
        | Ok company => Some company
        | Raise _ => None
        end
      else None
  | None => None
  end.

(** The first problem in the order child field, company field, duplicate
    company. *)
Definition diagnostic_by_precedence (child_map : list (pystr * FieldMap)) (child_path : pystr)
    (row : parquet_row) (parent : option found_company) : option pystr :=
  match first_missing_field child_map (of_text <$> row) with
  | Some missing_field => Some (_build_missing_field_error missing_field child_path)
  | None =>
      match parent with
      | Some company =>
          match first_missing_field ACCOUNT_FIELDS_MAP (attrs company) with
          | Some missing_field =>
              Some (_build_missing_field_error missing_field
                      Settings.hubspot_api_companies_path)
          | None => if duplicate company then Some DUPLICATE_COMPANY else None
          end
      | None => None
      end
  end.

(** The MISSING_VALUE template, filled in. *)
Definition missing_value_message (path : pystr) (missing_field : pystr * pystr) : pystr :=
  ustr "Missing value " ++ path ++ ustr " " ++ missing_field.1
  ++ ustr " (" ++ missing_field.2 ++ ustr ")".

(** A row received a diagnostic. *)
Definition has_diagnostic (r : result classified) : bool :=
  match r with
  | Ok (error_str, _) => text_truthy error_str
  | Raise _ => false
  end.

(** A row is classified and written without an exception. *)
Definition row_passes (body : parquet_row -> result classified)
    (field_names error_field_names : list pystr) (row : parquet_row) : bool :=
  match body row with
  | Ok (error_str, out) =>
      if text_truthy error_str
      then is_ok (writerow [] error_field_names (<[ERROR_COLUMN := of_text error_str]> out) ∅)
      else is_ok (writerow [] field_names out ∅)
  | Raise _ => false
  end.

(** Between two rows of a pass both CSV files are open under their
    headers, and the error file holds as many rows as were counted. *)
Definition pass_invariant (output_csv_path errors_csv_path : pystr)
    (field_names error_field_names : list pystr) (st : pass_state) : Prop :=
  (exists rows, files st !! output_csv_path = Some (CsvFile field_names rows))
  /\ (exists rows, files st !! errors_csv_path = Some (CsvFile error_field_names rows)
                   /\ length rows = error_rows (counters st)).

(** The rows of a batch list that received a diagnostic. *)
Definition diagnosed (body : parquet_row -> result classified) (rows : list parquet_row)
  : list parquet_row :=
  List.filter (fun row => has_diagnostic (body row)) rows.

End JoinSpec.


(** ** Sample data

    A store with one company, another whose name is taken and whose own
    name field is empty, and child rows as the download phase leaves them
    in the parquet files. *)

Module Samples.
Import CompaniesDb Translator.

Definition account (name : option pystr) : gmap pystr pyval :=
  <[ustr "Account Name" := of_text name]>
    (<[ustr "Account Website" := VStr (ustr "https://acme.example")]>
       (<[ustr "Account Billing Street" := VStr (ustr "Main Street 42")]>
          (<[ustr "Account Billing City" := VStr (ustr "Berlin")]>
             (<[ustr "Account Billing Zip/Postal Code" := VStr (ustr "10115")]>
                (<[ustr "Account Billing Country" := VStr (ustr "Germany")]> ∅))))).

Definition acme : company :=
  {| co_id := ustr "c1"; co_attrs := account (Some (ustr "Acme"));
     co_name := Some (ustr "Acme"); co_duplicate := false |}.

(** A company with both problems: no name, and flagged. *)
Definition nameless : company :=
  {| co_id := ustr "c2"; co_attrs := account None;
     co_name := None; co_duplicate := true |}.

(** A second company called Acme, flagged when it arrived. *)
Definition acme_again : company :=
  {| co_id := ustr "c3"; co_attrs := account (Some (ustr "Acme"));
     co_name := Some (ustr "Acme"); co_duplicate := true |}.

Definition store : DatabaseEngine := [acme; nameless; acme_again].

Definition contact (company_id first last : option pystr) : parquet_row :=
  <[ustr "company_id" := company_id]>
    (<[ustr "Contact First Name" := first]>
       (<[ustr "Contact Last Name" := last]>
          (<[ustr "Contact Phone" := None]>
             (<[ustr "Contact Email" := None]>
                (<[ustr "Contact Title" := None]>
                   (<[ustr "Contact Mailing Street" := None]>
                      (<[ustr "Contact Mailing City" := None]>
                         (<[ustr "Contact Mailing Zip/Postal Code" := None]>
                            (<[ustr "Contact Mailing Country" := None]> ∅))))))))).

Definition deal (company_id name : option pystr) : parquet_row :=
  <[ustr "company_id" := company_id]>
    (<[ustr "Name" := name]>
       (<[ustr "Type" := Some (ustr "New Business")]>
          (<[ustr "Stage" := Some (ustr "Qualify")]>
             (<[ustr "Amount" := Some (ustr "100")]>
                (<[ustr "Close Date" := Some (ustr "2025-12-20 00:00:00")]> ∅))))).

(** One parent, two contacts (the second without a last name) and two
    deals (the second without a name). *)
Definition workdir : directory :=
  <[Settings.contacts_filename :=
      ParquetFile [[contact (Some (ustr "c1")) (Some (ustr "Ann")) (Some (ustr "Lee"));
                    contact (Some (ustr "c1")) (Some (ustr "Bob")) None]]]>
    (<[Settings.deals_filename :=
         ParquetFile [[deal (Some (ustr "c1")) (Some (ustr "Renewal"));
                       deal (Some (ustr "c1")) None]]]>
       (<[Settings.companies_filename := SqliteFile [acme]]> ∅)).

(** A company as HubSpot sends it; only the id and the name vary. *)
Definition hs_company (id name : option pystr) : hs_object :=
  {| obj_id := id;
     obj_properties :=
       <[ustr "name" := name]>
         (<[ustr "domain" := Some (ustr "acme.example")]>
            (<[ustr "address" := None]> (<[ustr "country" := None]> ∅))) |}.

(** A stored company with the given key, name and flag. *)
Definition stored (id : pystr) (name : option pystr) (duplicate : bool) : company :=
  {| co_id := id; co_attrs := account name; co_name := name; co_duplicate := duplicate |}.

End Samples.


(** ** The download phase as the specification words it *)

Module PersistSpec.
Import Translator.

(** The name a HubSpot company carries, if any. *)
Definition company_name (res : hs_object) : option pystr :=
  default None (obj_properties res !! ustr "name").

(** The duplicate flags of a store, row by row. *)
Definition flags_of (engine : CompaniesDb.DatabaseEngine) : list bool :=
  CompaniesDb.co_duplicate <$> engine.

End PersistSpec.


(** ** infra/dict.py *)

Module DictTools.

(** What a call leaves behind: the value it returns together with the
    caller's key path, which [keypath.pop(0)] has consumed from the front;
    or the IndexError of a pop from an empty list. *)
Inductive nested :=
  | Nested (value : pyval) (keypath_left : list pystr)
  | NestedIndexError.

Fixpoint get_nested (json : pyval) (keypath : list pystr) {struct keypath} : nested :=
  match json with
  | VDict kvs =>
      match keypath with
      | [] => NestedIndexError
      | key :: keypath =>
          let value := assoc_get key kvs in
          match keypath with
          | [] => Nested value []
          | _ => get_nested value keypath
          end
      end
  | _ => Nested VNone keypath
  end.

End DictTools.

(** ** translator.py: the rows of a page of contacts or deals *)

Module Download.
Import FieldMapping DictTools.

(** The loop body of [_persist_contact] and of [_persist_deal] (they differ
    in the table): the associated companies are copied into the properties,
    which are then mapped. [res] and its properties are JSON objects; a
    key/value list stands for a dict, the first binding of a key being the
    one that counts. The key path has three keys, so the pop from an empty
    list is never reached; its branch is there for the match only. *)
Definition child_attrs (rt : runtime) (fields_map : list (pystr * FieldMap))
    (res : list (pystr * pyval)) : result (gmap pystr pyval) :=
  let properties := assoc_get (ustr "properties") res in
  match get_nested (VDict res) [ustr "associations"; ustr "companies"; ustr "results"] with
  | Nested companies_resutls _ =>
      match properties with
      | VDict kvs =>
          let properties : gmap pystr pyval :=
            <[ustr "associations_companies_results" := companies_resutls]> (list_to_map kvs) in
          build_attrs rt fields_map properties
      | _ => Raise TypeError
      end
  | NestedIndexError => Raise TypeError
  end.

(** The rows [_persist_contact] hands to the parquet writer. *)
Definition _persist_contact_rows (rt : runtime) (results : list (list (pystr * pyval)))
  : result (list (gmap pystr pyval)) :=
  mapM (child_attrs rt CONTACT_FIELDS_MAP) results.

(** The rows [_persist_deal] hands to the parquet writer. *)
Definition _persist_deal_rows (rt : runtime) (results : list (list (pystr * pyval)))
  : result (list (gmap pystr pyval)) :=
  mapM (child_attrs rt DEAL_FIELDS_MAP) results.

End Download.

(** ** infra/companies_db.py: the single insert *)

Module CompaniesDbSingle.
Import CompaniesDb.

Definition add_company (db_engine : DatabaseEngine) (id : option pystr)
    (attrs : gmap pystr pyval) (name : option pystr) (duplicate : bool)
  : result DatabaseEngine :=
  if bool_decide (attrs = ∅) then Raise (ValueError (ustr "No attrs provided"))
  else insert_records db_engine [(id, attrs, name, duplicate)].

End CompaniesDbSingle.

(** ** translator.py: cleanup *)

Module Cleanup.
Import Translator.

(** [Path.unlink()] *)
Definition unlink (path : pystr) (dir : directory) : result directory :=
  match dir !! path with
  | Some _ => Ok (delete path dir)
  | None => Raise (FileNotFoundError path)
  end.

(** Three unlinks in a row; the directory returned is the one left behind,
    also when one of them raises. *)
Definition cleanup (dir : directory) : directory * result unit :=
  match unlink Settings.companies_filename dir with
  | Raise e => (dir, Raise e)
  | Ok dir =>
      match unlink Settings.contacts_filename dir with
      | Raise e => (dir, Raise e)
      | Ok dir =>
          match unlink Settings.deals_filename dir with
          | Raise e => (dir, Raise e)
          | Ok dir => (dir, Ok tt)
          end
      end
  end.

End Cleanup.

(** ** Shapes and invariants used in the statements below *)

Module Shapes.
Import FieldMapping CompaniesDb Translator.

(** Values [_get_company_id_from_assoc] accepts: anything falsy, or a list
    that starts with an object. *)
Definition assoc_shape (v : pyval) : bool :=
  match v with
  | VList (VDict _ :: _) => true
  | _ => negb (truthy v)
  end.

(** A str, or anything falsy. *)
Definition str_or_falsy (v : pyval) : bool :=
  match v with
  | VStr _ => true
  | _ => negb (truthy v)
  end.

Definition is_str (v : pyval) : bool :=
  match v with VStr _ => true | _ => false end.

(** Values that can be looked up in a dict. *)
Definition hashable (v : pyval) : bool :=
  match v with VList _ | VDict _ => false | _ => true end.

(** In a store kept by first arrival, a named company is flagged exactly
    when an earlier row carries its name. *)
Definition first_wins (engine : DatabaseEngine) : Prop :=
  forall i c, engine !! i = Some c -> is_Some (co_name c) ->
    (co_duplicate c = true <->
     exists j c', (j < i)%nat /\ engine !! j = Some c' /\ co_name c' = co_name c).

(** The cells of a CSV file, [] for any other file. *)
Definition csv_rows (f : option file) : list (list pyval) :=
  match f with
  | Some (CsvFile _ rows) => rows
  | _ => []
  end.

(** A character other than the given one. *)
Definition other_than (c : N) (x : N) : bool := negb (x =? c).

End Shapes.


(** ** What the download phase stores for a child, in the words of its tables *)

Module DownloadSpec.
Import DictTools.

(** The id of the first company a HubSpot object is associated with. *)
Definition first_association_id (res : list (pystr * pyval)) : pyval :=
  match get_nested (VDict res) [ustr "associations"; ustr "companies"; ustr "results"] with
  | Nested (VList (VDict first :: _)) _ => assoc_get (ustr "id") first
  | _ => VNone
  end.

(** A contact as HubSpot sends it, with the companies it is linked to. *)
Definition hs_contact (first last : pyval) (companies : list pyval) : list (pystr * pyval) :=
  [ (ustr "id", VStr (ustr "501"));
    (ustr "properties",
      VDict [ (ustr "firstname", first); (ustr "lastname", last);
              (ustr "address", VStr (ustr "Main Street 42, 10115 Berlin")) ]);
    (ustr "associations",
      VDict [ (ustr "companies", VDict [ (ustr "results", VList companies) ]) ]) ].

Definition company_ref (id : pystr) : pyval :=
  VDict [ (ustr "id", VStr id); (ustr "type", VStr (ustr "contact_to_company")) ].

End DownloadSpec.


(** ** The store between two pages of the download *)

Module StoreSpec.
Import CompaniesDb.

(** The row an INSERT stores for a record, if its key is not null. *)
Definition row_of (r : entry) : option company :=
  match r with
  | (Some comp_id, attrs, name, duplicate) =>
      Some {| co_id := comp_id; co_attrs := attrs; co_name := name; co_duplicate := duplicate |}
  | (None, _, _, _) => None
  end.

(** What the download phase keeps true of the store from page to page. *)
Definition store_ok (engine : DatabaseEngine) : Prop :=
  (forall c, c ∈ engine -> co_id c <> [])
  /\ NoDup (co_id <$> engine)
  /\ Shapes.first_wins engine.

(** The first company of a name, in the order of arrival. *)
Definition first_of_name (engine : DatabaseEngine) (name : option pystr) : option company :=
  List.find (fun c => bool_decide (co_name c = name)) engine.

End StoreSpec.


(** ** The lines a pass writes, row by row *)

Module PassSpec.
Import FieldMapping CompaniesDb Translator.

(** The line a row leaves in the valid file, if it goes there. *)
Definition valid_line (body : parquet_row -> result classified) (field_names : list pystr)
    (row : parquet_row) : option (list pyval) :=
  match body row with
  | Ok (error_str, out) =>
      if text_truthy error_str then None else Some (cells_of field_names out)
  | Raise _ => None
  end.

(** The line a row leaves in the error file, if it goes there. *)
Definition error_line (body : parquet_row -> result classified)
    (error_field_names : list pystr) (row : parquet_row) : option (list pyval) :=
  match body row with
  | Ok (error_str, out) =>
      if text_truthy error_str
      then Some (cells_of error_field_names (<[ERROR_COLUMN := of_text error_str]> out))
      else None
  | Raise _ => None
  end.

Definition valid_lines (body : parquet_row -> result classified) (field_names : list pystr)
    (rows : list parquet_row) : list (list pyval) :=
  omap (valid_line body field_names) rows.

Definition error_lines (body : parquet_row -> result classified)
    (error_field_names : list pystr) (rows : list parquet_row) : list (list pyval) :=
  omap (error_line body error_field_names) rows.

(** A line with one cell per column and no null in it. *)
Definition clean_line (header : list pystr) (line : list pyval) : Prop :=
  length line = length header /\ VNone ∉ line.

(** The file is a CSV file under the given header. *)
Definition csv_under (header : list pystr) (f : option file) : Prop :=
  exists rows, f = Some (CsvFile header rows).

(** A child row that the join can take: it has the parent-id column, the
    parent it names is in the store, and it has no column beyond those of
    the child table. *)
Definition joinable (child_map : list (pystr * FieldMap)) (engine : DatabaseEngine)
    (row : parquet_row) : Prop :=
  (exists company_id,
      row !! COMPANY_ID_COLUMN = Some company_id
      /\ (text_truthy company_id = true -> is_ok (get_company engine company_id) = true))
  /\ forall key, is_Some (row !! key) -> key ∈ child_map.*1.

(** Every stored company has the columns of the account table and no
    other, as [build_attrs] leaves them. *)
Definition account_columns (engine : DatabaseEngine) : Prop :=
  forall c key, c ∈ engine ->
    (is_Some (co_attrs c !! key) <-> key ∈ ACCOUNT_FIELDS_MAP.*1).

End PassSpec.


(** ** main.py: the build step followed by the cleanup step *)

Module Main.
Import Translator.

(** What [main] does once the download is over: [build_sf_csvs], then
    [cleanup]; an exception at either step ends the run there. The
    statistics are printed afterwards. *)
Definition build_then_cleanup (dir : directory) : directory * result aggregated_stats :=
  match build_sf_csvs dir with
  | (dir, Raise e) => (dir, Raise e)
  | (dir, Ok stats) =>
      match Cleanup.cleanup dir with
      | (dir, Raise e) => (dir, Raise e)
      | (dir, Ok _) => (dir, Ok stats)
      end
  end.

End Main.


(** * Properties *)

(** ** The address parser *)

Section AddressParserFacts.
Import AddressParser.

Lemma pop_last_spec (parts : list pystr) p :
  pop_last (p :: parts) = Some (removelast (p :: parts), List.last (p :: parts) []).
Proof.
  revert p. induction parts as [|q parts IH]; intros p; [done|].
  change (pop_last (p :: q :: parts)) with
    (match pop_last (q :: parts) with
     | Some (init, l) => Some (p :: init, l) | None => None end).
  by rewrite IH.
Qed.

Lemma collect_middle_spec rt parts zip_parts city_parts :
  collect_middle rt parts zip_parts city_parts =
  (zip_parts ++ before_first_alpha rt parts, from_first_alpha rt parts ++ city_parts).
Proof.
  revert zip_parts. induction parts as [|part rest IH]; intros zip_parts; simpl.
  - by rewrite app_nil_r.
  - destruct (isalpha rt part); [by rewrite app_nil_r|].
    rewrite IH. by rewrite <- app_assoc.
Qed.

Lemma parse_address_tokens rt street (first second : pystr) rest :
  match pop_last (second :: rest) with
  | Some (parts, final) =>
      let '(zip_parts, city_parts) := collect_middle rt parts [first] [final] in
      (Some (join (ustr " ") city_parts), Some street, Some (join (ustr " ") zip_parts))
  | None => failed
  end =
  (Some (join (ustr " ")
           (from_first_alpha rt (removelast (second :: rest))
            ++ [List.last (second :: rest) []])),
   Some street,
   Some (join (ustr " ") (first :: before_first_alpha rt (removelast (second :: rest))))).
Proof. rewrite pop_last_spec, collect_middle_spec. done. Qed.

Lemma parse_address_refines rt (address : pystr) :
  parse_address rt address = parse_spec rt address.
Proof.
  unfold parse_address, parse_spec, normalize.
  destruct address as [|c address]; [done|].
  set (s := strip _).
  assert (Hempty : s = [] -> split_on 44 s = [[]]) by (by intros ->).
  destruct s as [|c' s'] eqn:Hs; [by rewrite Hempty|]. clear Hempty.
  destruct (split_on 44 (c' :: s')) as [|street [|zip_city [|? ?]]]; try done.
  destruct (split_on 32 (strip zip_city)) as [|first [|second rest]]; try done.
  change ((length (first :: second :: rest) <? 2)%nat) with false. cbv iota.
  apply parse_address_tokens.
Qed.

Lemma first_alpha_partition rt (tokens : list pystr) :
  before_first_alpha rt tokens ++ from_first_alpha rt tokens = tokens
  /\ Forall (fun t => isalpha rt t = false) (before_first_alpha rt tokens)
  /\ match from_first_alpha rt tokens with
     | t :: _ => isalpha rt t = true
     | [] => True
     end.
Proof.
  induction tokens as [|t tokens (IHapp & IHbefore & IHfrom)]; simpl; [by repeat split|].
  destruct (isalpha rt t) eqn:Ht; simpl.
  - by repeat split.
  - rewrite IHapp. repeat split; [by constructor|done].
Qed.

End AddressParserFacts.

(** C5. [parse_address] is the parser the specification describes: after
    normalization the address must split on the comma into exactly two
    segments, the second with at least two space-separated tokens; the
    first token opens the postal code, the last closes the city, and the
    interior tokens before the first purely alphabetic one extend the
    postal code while that token and all after it lead the city. The four
    sample addresses parse as stated. *)
Theorem parse_address_correct :
  (forall rt address,
      AddressParser.parse_address rt address = AddressParser.parse_spec rt address)
  /\ (forall rt interior,
         AddressParser.before_first_alpha rt interior
         ++ AddressParser.from_first_alpha rt interior = interior
         /\ Forall (fun t => isalpha rt t = false) (AddressParser.before_first_alpha rt interior)
         /\ match AddressParser.from_first_alpha rt interior with
            | t :: _ => isalpha rt t = true
            | [] => True
            end)
  /\ (forall rt,
         AddressParser.parse_address rt (ustr "Main Street 42, 10115 Berlin")
         = (Some (ustr "Berlin"), Some (ustr "Main Street 42"), Some (ustr "10115")))
  /\ (forall rt,
         AddressParser.parse_address rt (ustr "Baker Street 10, SW1A 1AA London")
         = (Some (ustr "London"), Some (ustr "Baker Street 10"), Some (ustr "SW1A 1AA")))
  /\ (forall rt,
         AddressParser.parse_address rt
           (ustr "Hauptstra" ++ [223] ++ ustr "e 5 80331 M" ++ [252] ++ ustr "nchen")
         = (None, None, None))
  /\ (forall rt, AddressParser.parse_address rt (ustr "") = (None, None, None)).
Proof.
  split; [exact parse_address_refines|].
  split; [exact first_alpha_partition|].
  repeat split; intros rt; vm_compute; reflexivity.
Qed.


(** ** The field mapping tables *)

Section FieldMappingFacts.
Import FieldMapping.

Lemma first_missing_field_some fields_map attrs src lbl :
  first_missing_field fields_map attrs = Some (src, lbl) <->
  exists before field after,
    fields_map = before ++ (lbl, field) :: after
    /\ src = src_field field
    /\ (required field = true /\ truthy (dict_get attrs lbl) = false)
    /\ Forall (fun lf => ~ (required lf.2 = true /\ truthy (dict_get attrs lf.1) = false))
         before.
Proof.
  induction fields_map as [|[l f] rest IH]; simpl.
  - split; [done|]. intros (before & ? & ? & Heq & _). by destruct before.
  - destruct (required f && negb (truthy (dict_get attrs l))) eqn:Hm.
    + apply andb_true_iff in Hm as [Hreq Htr]. apply negb_true_iff in Htr.
      split.
      * intros [= <- <-]. exists [], f, rest. repeat split; done.
      * intros (before & field & after & Heq & -> & _ & Hb).
        destruct before as [|lf before]; simplify_eq/=; [done|].
        inversion_clear Hb as [|? ? Hlf _]. by destruct Hlf.
    + assert (Hnot : ~ (required f = true /\ truthy (dict_get attrs l) = false)).
      { intros [Hreq Htr]. by rewrite Hreq, Htr in Hm. }
      rewrite IH. split.
      * intros (before & field & after & -> & -> & Hf & Hb).
        exists ((l, f) :: before), field, after. repeat split; try apply Hf.
        by constructor.
      * intros (before & field & after & Heq & -> & Hf & Hb).
        destruct before as [|lf before]; simplify_eq/=; [done|].
        inversion_clear Hb as [|? ? _ Hb'].
        exists before, field, after. repeat split; try apply Hf; done.
Qed.

Lemma first_missing_field_none fields_map attrs :
  first_missing_field fields_map attrs = None <->
  Forall (fun lf => required lf.2 = true -> truthy (dict_get attrs lf.1) = true) fields_map.
Proof.
  induction fields_map as [|[l f] rest IH]; simpl; [by split|].
  destruct (required f) eqn:Hreq, (truthy (dict_get attrs l)) eqn:Htr; simpl.
  all: split; [try discriminate; rewrite IH; intros Hrest; constructor; simpl; congruence|].
  all: intros Hall; inversion_clear Hall as [|? ? Hhead Hrest]; simpl in Hhead.
  all: try (by apply IH).
  rewrite Hreq, Htr in Hhead. by specialize (Hhead eq_refl).
Qed.

End FieldMappingFacts.

(** C6. [first_missing_field] returns the source field and target label of
    the earliest declared mapping that is required and whose attribute
    value is falsy (null, the empty string, zero, false, an empty list or
    object, or an absent key), and returns nothing exactly when every
    required mapping has a truthy value. *)
Theorem first_missing_field_correct :
  (forall fields_map attrs src lbl,
      FieldMapping.first_missing_field fields_map attrs = Some (src, lbl) <->
      exists before field after,
        fields_map = before ++ (lbl, field) :: after
        /\ src = FieldMapping.src_field field
        /\ (FieldMapping.required field = true /\ truthy (dict_get attrs lbl) = false)
        /\ Forall (fun lf => ~ (FieldMapping.required lf.2 = true
                                /\ truthy (dict_get attrs lf.1) = false)) before)
  /\ (forall fields_map attrs,
         FieldMapping.first_missing_field fields_map attrs = None <->
         Forall (fun lf => FieldMapping.required lf.2 = true ->
                           truthy (dict_get attrs lf.1) = true) fields_map)
  /\ (truthy VNone = false /\ truthy (VStr []) = false /\ truthy (VInt 0) = false
      /\ truthy (VBool false) = false /\ truthy (VList []) = false
      /\ truthy (VDict []) = false)
  /\ (forall (attrs : gmap pystr pyval) lbl,
         attrs !! lbl = None -> truthy (dict_get attrs lbl) = false).
Proof.
  split; [exact first_missing_field_some|].
  split; [exact first_missing_field_none|].
  split; [by repeat split|].
  intros attrs lbl Hnone. unfold dict_get. by rewrite Hnone.
Qed.

Section BuildAttrsFacts.
Import FieldMapping.

Lemma dict_get_str (d : gmap pystr pyval) key s :
  dict_get d key = VStr s -> d !! key = Some (VStr s).
Proof. unfold dict_get. destruct (d !! key); simpl; congruence. Qed.

Lemma build_attrs_account_domain rt hs_record :
  build_attrs rt ACCOUNT_FIELDS_MAP hs_record =
  match dict_get hs_record (ustr "domain") with
  | VStr d =>
      build_attrs_from rt (drop 2 ACCOUNT_FIELDS_MAP) hs_record
        (<[ustr "Account Website" := VStr (ustr "https://" ++ d)]>
           (<[ACCOUNTS_NAME_COLUMN := dict_get hs_record (ustr "name")]> ∅)) ∅
  | _ => Raise TypeError
  end.
Proof.
  unfold build_attrs, ACCOUNT_FIELDS_MAP.
  cbn [build_attrs_from transform_fun src_field account_website drop].
  by destruct (dict_get hs_record (ustr "domain")).
Qed.

End BuildAttrsFacts.

(** C10. With the account table, [build_attrs] succeeds only on records
    whose [domain] is a string: for a null or absent [domain] the
    "Account Website" transform adds a str to null and the call raises a
    TypeError, whereas the other optional fields of the table come out as
    null attributes when their source is absent. *)
Theorem build_attrs_account_needs_domain :
  (forall rt hs_record attrs,
      FieldMapping.build_attrs rt FieldMapping.ACCOUNT_FIELDS_MAP hs_record = Ok attrs ->
      exists d, hs_record !! ustr "domain" = Some (VStr d))
  /\ (forall rt (hs_record : gmap pystr pyval),
         hs_record !! ustr "domain" = None \/ hs_record !! ustr "domain" = Some VNone ->
         FieldMapping.build_attrs rt FieldMapping.ACCOUNT_FIELDS_MAP hs_record
         = Raise TypeError)
  /\ (forall rt name d,
         (fun attrs : gmap pystr pyval =>
            (fun label => attrs !! label) <$> (fst <$> FieldMapping.ACCOUNT_FIELDS_MAP))
           <$> FieldMapping.build_attrs rt FieldMapping.ACCOUNT_FIELDS_MAP
                 (<[ustr "name" := VStr name]> (<[ustr "domain" := VStr d]> ∅))
         = Ok [Some (VStr name); Some (VStr (ustr "https://" ++ d));
               Some VNone; Some VNone; Some VNone; Some VNone]).
Proof.
  split; [|split].
  - intros rt hs_record attrs. rewrite build_attrs_account_domain.
    destruct (dict_get hs_record (ustr "domain")) eqn:Hd; try discriminate.
    intros _. eexists. by apply dict_get_str.
  - intros rt hs_record Hd. rewrite build_attrs_account_domain.
    unfold dict_get. by destruct Hd as [-> | ->].
  - intros rt name d. vm_compute. reflexivity.
Qed.

(** ** Which part of the runtime a transform reads *)

Section PurityFacts.
Import AddressParser FieldMapping.

Variables rt1 rt2 : runtime.
Hypothesis same_tables : forall c, unicode_isalpha rt1 c = unicode_isalpha rt2 c.

Lemma isalpha_same_tables s : isalpha rt1 s = isalpha rt2 s.
Proof.
  unfold isalpha. destruct s as [|c s]; [done|].
  generalize (c :: s). intros l. induction l as [|x l IH]; [done|].
  simpl. rewrite IH. f_equal. unfold isalpha_char. by rewrite same_tables.
Qed.

Lemma collect_middle_same_tables parts zip_parts city_parts :
  collect_middle rt1 parts zip_parts city_parts
  = collect_middle rt2 parts zip_parts city_parts.
Proof.
  revert zip_parts. induction parts as [|p parts IH]; intros zip_parts; [done|].
  simpl. rewrite isalpha_same_tables. by rewrite IH.
Qed.

Lemma parse_address_same_tables address :
  parse_address rt1 address = parse_address rt2 address.
Proof.
  unfold parse_address. destruct address as [|c address]; [done|].
  destruct (strip _) as [|? ?]; [done|].
  destruct (split_on 44 _) as [|street [|zip_city [|? ?]]]; try done.
  destruct (_ <? _)%nat; [done|].
  destruct (split_on 32 _) as [|first parts]; [done|].
  destruct (pop_last parts) as [[mid final]|]; [|done].
  by rewrite collect_middle_same_tables.
Qed.

(** Two runs of the loop agree as soon as every transform of the table
    agrees on the value it is given. *)
Lemma build_attrs_from_agree fields_map hs_record :
  Forall (fun lf : pystr * FieldMap =>
            forall f ctx, transform_fun lf.2 = Some f ->
              f rt1 (dict_get hs_record (src_field lf.2)) ctx
              = f rt2 (dict_get hs_record (src_field lf.2)) ctx) fields_map ->
  forall attrs ctx,
    build_attrs_from rt1 fields_map hs_record attrs ctx
    = build_attrs_from rt2 fields_map hs_record attrs ctx.
Proof.
  induction 1 as [|[l fld] rest Hhead _ IH]; intros attrs ctx; [done|].
  simpl in *. destruct (transform_fun fld) as [f|]; [|apply IH].
  rewrite (Hhead f ctx eq_refl).
  destruct (f rt2 _ ctx) as [[v|v new_ctx]|e]; simpl; [apply IH..|done].
Qed.

Lemma split_street_same_tables v ctx :
  _split_street_from_city_zip_code rt1 v ctx = _split_street_from_city_zip_code rt2 v ctx.
Proof.
  unfold _split_street_from_city_zip_code, call_parse_address.
  destruct v; try done. by rewrite parse_address_same_tables.
Qed.

Lemma build_attrs_account_pure hs_record :
  build_attrs rt1 ACCOUNT_FIELDS_MAP hs_record = build_attrs rt2 ACCOUNT_FIELDS_MAP hs_record.
Proof.
  apply build_attrs_from_agree. unfold ACCOUNT_FIELDS_MAP.
  repeat constructor; simpl; intros f ctx [= <-]; try done.
  apply split_street_same_tables.
Qed.

Lemma build_attrs_contact_pure hs_record :
  build_attrs rt1 CONTACT_FIELDS_MAP hs_record = build_attrs rt2 CONTACT_FIELDS_MAP hs_record.
Proof.
  apply build_attrs_from_agree. unfold CONTACT_FIELDS_MAP.
  repeat constructor; simpl; intros f ctx [= <-]; try done.
  apply split_street_same_tables.
Qed.

Lemma build_attrs_deal_pure hs_record :
  truthy (dict_get hs_record (ustr "closedate")) = true
  \/ midnight (now rt1) = midnight (now rt2) ->
  build_attrs rt1 DEAL_FIELDS_MAP hs_record = build_attrs rt2 DEAL_FIELDS_MAP hs_record.
Proof.
  intros Hclose. apply build_attrs_from_agree. unfold DEAL_FIELDS_MAP.
  repeat constructor; simpl; intros f ctx [= <-]; try done.
  unfold _get_closedate.
  destruct Hclose as [-> | ->]; [done|].
  by destruct (truthy _).
Qed.

End PurityFacts.

(** C2, as the code has it. Two runs under the same interpreter agree on
    every input for [parse_address] and for [build_attrs] with the account
    and the contact table, whatever the clock reads; with the deal table
    they agree when the record has a truthy [closedate], or when both runs
    fall on the same day (an empty [closedate] is filled with today's
    midnight). *)
Theorem transforms_pure_except_close_date (rt1 rt2 : runtime) :
  (forall c, unicode_isalpha rt1 c = unicode_isalpha rt2 c) ->
  (forall address,
      AddressParser.parse_address rt1 address = AddressParser.parse_address rt2 address)
  /\ (forall hs_record,
         FieldMapping.build_attrs rt1 FieldMapping.ACCOUNT_FIELDS_MAP hs_record
         = FieldMapping.build_attrs rt2 FieldMapping.ACCOUNT_FIELDS_MAP hs_record)
  /\ (forall hs_record,
         FieldMapping.build_attrs rt1 FieldMapping.CONTACT_FIELDS_MAP hs_record
         = FieldMapping.build_attrs rt2 FieldMapping.CONTACT_FIELDS_MAP hs_record)
  /\ (forall hs_record,
         truthy (dict_get hs_record (ustr "closedate")) = true
         \/ FieldMapping.midnight (now rt1) = FieldMapping.midnight (now rt2) ->
         FieldMapping.build_attrs rt1 FieldMapping.DEAL_FIELDS_MAP hs_record
         = FieldMapping.build_attrs rt2 FieldMapping.DEAL_FIELDS_MAP hs_record).
Proof.
  intros Htables. split; [|split; [|split]].
  - intros address. by apply parse_address_same_tables.
  - intros hs_record. by apply build_attrs_account_pure.
  - intros hs_record. by apply build_attrs_contact_pure.
  - intros hs_record Hclose. by apply build_attrs_deal_pure.
Qed.

(** Two runs a day apart, on every account record. *)
Lemma transforms_pure_except_close_date_witness :
  (forall c, unicode_isalpha (runtime_on 2025 12 20) c
             = unicode_isalpha (runtime_on 2025 12 21) c)
  /\ (forall hs_record,
         FieldMapping.build_attrs (runtime_on 2025 12 20)
           FieldMapping.ACCOUNT_FIELDS_MAP hs_record
         = FieldMapping.build_attrs (runtime_on 2025 12 21)
             FieldMapping.ACCOUNT_FIELDS_MAP hs_record).
Proof.
  split; [reflexivity|].
  apply (transforms_pure_except_close_date (runtime_on 2025 12 20) (runtime_on 2025 12 21)).
  reflexivity.
Defined.

(** C2, as stated, fails on the deal table: a deal without [closedate],
    mapped on two consecutive days, gets two different "Close Date"
    attributes. *)
Lemma build_attrs_deal_reads_clock :
  (attrs ← FieldMapping.build_attrs (runtime_on 2025 12 20) FieldMapping.DEAL_FIELDS_MAP ∅;
   Ok (attrs !! ustr "Close Date"))
  = Ok (Some (VStr (ustr "2025-12-20 00:00:00")))
  /\ (attrs ← FieldMapping.build_attrs (runtime_on 2025 12 21) FieldMapping.DEAL_FIELDS_MAP ∅;
      Ok (attrs !! ustr "Close Date"))
     = Ok (Some (VStr (ustr "2025-12-21 00:00:00")))
  /\ FieldMapping.build_attrs (runtime_on 2025 12 20) FieldMapping.DEAL_FIELDS_MAP ∅
     <> FieldMapping.build_attrs (runtime_on 2025 12 21) FieldMapping.DEAL_FIELDS_MAP ∅.
Proof.
  split; [vm_compute; reflexivity|].
  split; [vm_compute; reflexivity|].
  intros Heq.
  assert (H : (attrs ← FieldMapping.build_attrs (runtime_on 2025 12 20)
                         FieldMapping.DEAL_FIELDS_MAP ∅;
               Ok (attrs !! ustr "Close Date"))
              = (attrs ← FieldMapping.build_attrs (runtime_on 2025 12 21)
                           FieldMapping.DEAL_FIELDS_MAP ∅;
                 Ok (attrs !! ustr "Close Date"))) by (by rewrite Heq).
  vm_compute in H. discriminate H.
Qed.

(** ** The company store *)

Section CompaniesDbFacts.
Import CompaniesDb.

Lemma check_names_ok seen names :
  check_names seen names = Ok tt <->
  NoDup names /\ forall n, n ∈ names -> n ∉ seen.
Proof.
  revert seen. induction names as [|n names IH]; intros seen; simpl.
  - split; [|done]. intros _. split; [constructor|]. intros n Hn. by apply elem_of_nil in Hn.
  - case_bool_decide as Hseen.
    + split; [done|]. intros [_ Hfresh]. destruct (Hfresh n); [left|done].
    + split.
      * intros Hok. apply IH in Hok as [Hnodup Hfresh]. split.
        -- constructor; [|done]. intros Hin. apply (Hfresh n Hin).
           apply elem_of_union. left. by apply elem_of_singleton.
        -- intros m [->|Hm]%elem_of_cons; [done|].
           intros Hs. apply (Hfresh m Hm). apply elem_of_union. by right.
      * intros [Hnodup Hfresh]. apply IH.
        inversion_clear Hnodup as [|? ? Hnotin Hnodup']. split; [done|].
        intros m Hm. specialize (Hfresh m (proj2 (elem_of_cons _ _ _) (or_intror Hm))).
        intros [Hs%elem_of_singleton|Hs]%elem_of_union; [by subst m|done].
Qed.

Lemma check_names_raises seen names :
  check_names seen names = Ok tt \/ exists msg, check_names seen names = Raise (ValueError msg).
Proof.
  revert seen. induction names as [|n names IH]; intros seen; simpl; [by left|].
  case_bool_decide; [right; eauto | apply IH].
Qed.

Lemma elem_of_select_by_name engine names c :
  c ∈ select_by_name engine names <->
  c ∈ engine /\ sql_in (co_name c) names = true /\ co_duplicate c = false.
Proof.
  unfold select_by_name. rewrite !list_elem_of_In, filter_In, andb_true_iff, negb_true_iff.
  tauto.
Qed.

Lemma name_to_id_lookup (found : list company) (m0 : gmap (option pystr) pystr) n :
  match name_to_id_from m0 found !! n with
  | Some i => (exists c, c ∈ found /\ co_name c = n /\ co_id c = i)
              \/ ((forall c, c ∈ found -> co_name c <> n) /\ m0 !! n = Some i)
  | None => (forall c, c ∈ found -> co_name c <> n) /\ m0 !! n = None
  end.
Proof.
  unfold name_to_id_from.
  revert m0. induction found as [|c found IH]; intros m0; simpl.
  - destruct (m0 !! n) eqn:Hm0.
    + right. split; [|done]. intros c Hc. by apply elem_of_nil in Hc.
    + split; [|done]. intros c Hc. by apply elem_of_nil in Hc.
  - specialize (IH (<[co_name c := co_id c]> m0)).
    destruct (foldl _ _ found !! n) as [i|].
    + destruct IH as [(c' & Hc' & Hname & Hid) | [Hnone Hm0]].
      * left. exists c'. split; [by right|done].
      * destruct (decide (co_name c = n)) as [Heq|Hne].
        -- rewrite Heq, lookup_insert_eq in Hm0. injection Hm0 as <-.
           left. exists c. split; [by left|done].
        -- rewrite lookup_insert_ne in Hm0 by done. right. split; [|done].
           intros c' [->|Hc']%elem_of_cons; [done|by apply Hnone].
    + destruct IH as [Hnone Hm0].
      destruct (decide (co_name c = n)) as [Heq|Hne].
      * by rewrite Heq, lookup_insert_eq in Hm0.
      * rewrite lookup_insert_ne in Hm0 by done. split; [|done].
        intros c' [->|Hc']%elem_of_cons; [done|by apply Hnone].
Qed.

Lemma find_companies_by_name_ok engine (names : list (option pystr)) :
  names <> [] -> NoDup names ->
  find_companies_by_name engine (Some names)
  = Ok ((fun n => name_to_id_from ∅ (select_by_name engine names) !! n) <$> names).
Proof.
  intros Hne Hnodup. unfold find_companies_by_name.
  destruct names as [|n names]; [done|].
  assert (Hcheck : check_names ∅ (n :: names) = Ok tt).
  { apply check_names_ok. split; [done|]. intros m _. apply not_elem_of_empty. }
  by rewrite Hcheck.
Qed.

Lemma find_companies_by_name_position engine (names : list (option pystr)) n :
  n ∈ names ->
  match name_to_id_from ∅ (select_by_name engine names) !! n with
  | Some i => exists c, c ∈ engine /\ co_name c = n /\ is_Some n
                        /\ co_duplicate c = false /\ co_id c = i
  | None => forall c, c ∈ engine -> co_name c = n -> is_Some n -> co_duplicate c = true
  end.
Proof.
  intros Hn.
  pose proof (name_to_id_lookup (select_by_name engine names) ∅ n) as Hlookup.
  destruct (name_to_id_from _ _ !! n) as [i|].
  - destruct Hlookup as [(c & Hc & Hname & Hid) | [_ Hempty]]; [|by rewrite lookup_empty in Hempty].
    apply elem_of_select_by_name in Hc as (Hc & Hin & Hdup).
    exists c. repeat split; try done.
    unfold sql_in in Hin. destruct (co_name c) eqn:Hcn; [|done]. by subst n.
  - destruct Hlookup as [Hnone _]. intros c Hc Hname [s Hs].
    destruct (co_duplicate c) eqn:Hdup; [done|]. exfalso.
    apply (Hnone c); [|done]. apply elem_of_select_by_name. repeat split; try done.
    unfold sql_in. rewrite Hname, Hs. apply bool_decide_eq_true. by rewrite <- Hs.
Qed.

End CompaniesDbFacts.

(** C7. [find_companies_by_name] raises for a null or empty list and for a
    list that holds a name twice. On any other list it returns one entry
    per name, in the order of the list: the id of some company of that
    name whose duplicate flag is off, or null when every company of that
    name is flagged (or there is none). A null entry of the list matches
    no row, as in SQL. *)
Theorem find_companies_by_name_correct :
  (forall engine,
      CompaniesDb.find_companies_by_name engine None
      = Raise (ValueError (ustr "No names list provided"))
      /\ CompaniesDb.find_companies_by_name engine (Some [])
         = Raise (ValueError (ustr "No names list provided")))
  /\ (forall engine names,
         ~ NoDup names ->
         exists msg, CompaniesDb.find_companies_by_name engine (Some names)
                     = Raise (ValueError msg))
  /\ (forall engine names,
         names <> [] -> NoDup names ->
         exists ids,
           CompaniesDb.find_companies_by_name engine (Some names) = Ok ids
           /\ length ids = length names
           /\ forall i n, names !! i = Some n ->
                match ids !! i with
                | Some (Some cid) =>
                    exists c, c ∈ engine /\ CompaniesDb.co_id c = cid
                              /\ CompaniesDb.co_name c = n /\ is_Some n
                              /\ CompaniesDb.co_duplicate c = false
                | Some None =>
                    forall c, c ∈ engine -> CompaniesDb.co_name c = n -> is_Some n ->
                              CompaniesDb.co_duplicate c = true
                | None => False
                end)
  /\ CompaniesDb.find_companies_by_name
       [ {| CompaniesDb.co_id := ustr "id1";
            CompaniesDb.co_attrs := {[ ustr "param1" := VStr (ustr "value1") ]};
            CompaniesDb.co_name := Some (ustr "Test Company");
            CompaniesDb.co_duplicate := false |};
         {| CompaniesDb.co_id := ustr "id2";
            CompaniesDb.co_attrs := {[ ustr "param1" := VStr (ustr "value1") ]};
            CompaniesDb.co_name := Some (ustr "Test Company");
            CompaniesDb.co_duplicate := true |} ]
       (Some [Some (ustr "nonexisting company"); Some (ustr "Test Company"); None])
     = Ok [None; Some (ustr "id1"); None].
Proof.
  split; [done|]. split; [|split].
  - intros engine names Hdup. unfold CompaniesDb.find_companies_by_name.
    destruct names as [|n names]; [destruct Hdup; constructor|].
    destruct (check_names_raises ∅ (n :: names)) as [Hok | [msg Hmsg]].
    + apply check_names_ok in Hok as [Hnodup _]. done.
    + exists msg. by rewrite Hmsg.
  - intros engine names Hne Hnodup. eexists. split; [by apply find_companies_by_name_ok|].
    split; [by rewrite length_fmap|].
    intros i n Hi. rewrite list_lookup_fmap, Hi. simpl.
    pose proof (find_companies_by_name_position engine names n
                  (proj2 (list_elem_of_lookup _ _) (ex_intro _ i Hi))) as Hpos.
    destruct (CompaniesDb.name_to_id_from _ _ !! n) as [cid|]; [|done].
    destruct Hpos as (c & ? & ? & ? & ? & ?). by exists c.
  - vm_compute. reflexivity.
Qed.

(** ** The join phase *)

Section JoinFacts.
Import FieldMapping CompaniesDb Translator JoinSpec.

(** *** The diagnostics *)

Lemma replace_head (o : N) (old new : pystr) (a : N) (s : pystr) :
  a <> o -> replace (o :: old) new (a :: s) = a :: replace (o :: old) new s.
Proof.
  intros Hne. unfold replace. simpl.
  destruct (N.eqb_spec o a) as [->|_]; done.
Qed.

Lemma missing_field_error_head missing_field path :
  exists tl, _build_missing_field_error missing_field path = 77 :: tl.
Proof.
  destruct missing_field as [src lbl]. unfold _build_missing_field_error.
  change MISSING_VALUE with (77 :: List.tl MISSING_VALUE).
  change (ustr "$url_path$") with (36 :: List.tl (ustr "$url_path$")).
  change (ustr "$hs_name$") with (36 :: List.tl (ustr "$hs_name$")).
  change (ustr "$sf_label$") with (36 :: List.tl (ustr "$sf_label$")).
  rewrite !replace_head by done. eauto.
Qed.

Lemma staged_error_truthy fields_map path row :
  text_truthy (staged_error fields_map path row)
  = bool_decide (is_Some (first_missing_field fields_map row)).
Proof.
  unfold staged_error. destruct (first_missing_field fields_map row) as [mf|]; [|done].
  by destruct (missing_field_error_head mf path) as [tl ->].
Qed.

Lemma company_checks_spec child_map child_path row company :
  company_checks (staged_error child_map child_path (of_text <$> row)) company
  = diagnostic_by_precedence child_map child_path row (Some company).
Proof.
  unfold company_checks, diagnostic_by_precedence.
  rewrite staged_error_truthy. unfold staged_error.
  destruct (first_missing_field child_map _) as [mf|]; simpl; [done|].
  by destruct (first_missing_field ACCOUNT_FIELDS_MAP (attrs company)), (duplicate company).
Qed.

Lemma staged_error_spec child_map child_path row :
  staged_error child_map child_path (of_text <$> row)
  = diagnostic_by_precedence child_map child_path row None.
Proof.
  unfold staged_error, diagnostic_by_precedence.
  by destruct (first_missing_field child_map _).
Qed.

Lemma contact_row_diagnostic engine row error_str out :
  contact_row engine row = Ok (error_str, out) ->
  error_str = diagnostic_by_precedence CONTACT_FIELDS_MAP
                Settings.hubspot_api_contacts_path row (parent_of engine row).
Proof.
  unfold contact_row, parent_of.
  destruct (row !! COMPANY_ID_COLUMN) as [company_id|]; [|done].
  destruct (text_truthy company_id).
  - destruct (get_company engine company_id) as [company|e]; [|done].
    simpl. rewrite company_checks_spec. by intros [= <- _].
  - rewrite staged_error_spec. by intros [= <- _].
Qed.

Lemma deal_row_diagnostic engine row error_str out :
  deal_row engine row = Ok (error_str, out) ->
  error_str = diagnostic_by_precedence DEAL_FIELDS_MAP
                Settings.hubspot_api_deals_path row (parent_of engine row).
Proof.
  unfold deal_row, parent_of.
  destruct (row !! COMPANY_ID_COLUMN) as [company_id|]; [|done].
  destruct (text_truthy company_id).
  - destruct (get_company engine company_id) as [company|e]; [|done].
    simpl. destruct (dict_getitem _ _) as [company_name|e]; [|done].
    simpl. rewrite company_checks_spec. by intros [= <- _].
  - rewrite staged_error_spec. by intros [= <- _].
Qed.

Lemma missing_value_contact attrs missing_field :
  first_missing_field CONTACT_FIELDS_MAP attrs = Some missing_field ->
  _build_missing_field_error missing_field Settings.hubspot_api_contacts_path
  = missing_value_message Settings.hubspot_api_contacts_path missing_field.
Proof.
  unfold CONTACT_FIELDS_MAP. cbn [first_missing_field required src_field andb].
  repeat (destruct (negb _); [intros [= <-]; vm_compute; reflexivity|]). done.
Qed.

Lemma missing_value_deal attrs missing_field :
  first_missing_field DEAL_FIELDS_MAP attrs = Some missing_field ->
  _build_missing_field_error missing_field Settings.hubspot_api_deals_path
  = missing_value_message Settings.hubspot_api_deals_path missing_field.
Proof.
  unfold DEAL_FIELDS_MAP. cbn [first_missing_field required src_field andb].
  repeat (destruct (negb _); [intros [= <-]; vm_compute; reflexivity|]). done.
Qed.

Lemma missing_value_account attrs missing_field :
  first_missing_field ACCOUNT_FIELDS_MAP attrs = Some missing_field ->
  _build_missing_field_error missing_field Settings.hubspot_api_companies_path
  = missing_value_message Settings.hubspot_api_companies_path missing_field.
Proof.
  unfold ACCOUNT_FIELDS_MAP. cbn [first_missing_field required src_field andb].
  repeat (destruct (negb _); [intros [= <-]; vm_compute; reflexivity|]). done.
Qed.

Lemma company_checks_staged fields_map path row missing_field company :
  first_missing_field fields_map row = Some missing_field ->
  company_checks (staged_error fields_map path row) company
  = Some (_build_missing_field_error missing_field path).
Proof.
  intros Hmissing. unfold company_checks. rewrite staged_error_truthy.
  unfold staged_error. rewrite Hmissing. by rewrite bool_decide_eq_true_2.
Qed.

Lemma contact_row_child_missing engine row missing_field company_id :
  first_missing_field CONTACT_FIELDS_MAP (of_text <$> row) = Some missing_field ->
  row !! COMPANY_ID_COLUMN = Some company_id ->
  text_truthy company_id = false \/ is_ok (get_company engine company_id) = true ->
  exists out,
    contact_row engine row
    = Ok (Some (_build_missing_field_error missing_field Settings.hubspot_api_contacts_path),
          out).
Proof.
  intros Hmissing Hid Hparent. unfold contact_row. rewrite Hid.
  destruct (text_truthy company_id).
  - destruct Hparent as [|Hfound]; [done|].
    destruct (get_company engine company_id) as [company|]; [|done]. simpl.
    rewrite (company_checks_staged _ _ _ missing_field) by done. eauto.
  - unfold staged_error. rewrite Hmissing. eauto.
Qed.

Lemma deal_row_child_missing engine row missing_field company_id :
  first_missing_field DEAL_FIELDS_MAP (of_text <$> row) = Some missing_field ->
  row !! COMPANY_ID_COLUMN = Some company_id ->
  text_truthy company_id = false
  \/ (exists company, get_company engine company_id = Ok company
                      /\ is_Some (attrs company !! ACCOUNTS_NAME_COLUMN)) ->
  exists out,
    deal_row engine row
    = Ok (Some (_build_missing_field_error missing_field Settings.hubspot_api_deals_path),
          out).
Proof.
  intros Hmissing Hid Hparent. unfold deal_row. rewrite Hid.
  destruct (text_truthy company_id).
  - destruct Hparent as [|(company & -> & [company_name Hname])]; [done|]. simpl.
    unfold dict_getitem. rewrite Hname. simpl.
    rewrite (company_checks_staged _ _ _ missing_field) by done. eauto.
  - unfold staged_error. rewrite Hmissing. eauto.
Qed.

(** *** Writing and routing *)

Lemma writerow_ok (path : pystr) (fieldnames : list pystr) (row : gmap pystr pyval)
    (dir dir' : directory) :
  writerow path fieldnames row dir = Ok dir' ->
  dir' = alter (append_row (cells_of fieldnames row)) path dir.
Proof. unfold writerow. destruct (List.filter _ _); [by intros [= <-]|done]. Qed.

Lemma writerow_is_ok (path path' : pystr) (fieldnames : list pystr)
    (row : gmap pystr pyval) (dir dir' : directory) :
  is_ok (writerow path fieldnames row dir) = is_ok (writerow path' fieldnames row dir').
Proof. unfold writerow. by destruct (List.filter _ _). Qed.

Lemma route_ok output_csv_path errors_csv_path field_names error_field_names st c st' :
  route output_csv_path errors_csv_path field_names error_field_names st c = Ok st' ->
  total_rows (counters st') = S (total_rows (counters st))
  /\ if text_truthy c.1
     then error_rows (counters st') = S (error_rows (counters st))
          /\ writerow errors_csv_path error_field_names
               (<[ERROR_COLUMN := of_text c.1]> c.2) (files st) = Ok (files st')
     else error_rows (counters st') = error_rows (counters st)
          /\ writerow output_csv_path field_names c.2 (files st) = Ok (files st').
Proof.
  destruct c as [error_str row]. unfold route. simpl.
  destruct (text_truthy error_str).
  - destruct (writerow errors_csv_path _ _ _) as [dir|]; [|done]. simpl. by intros [= <-].
  - destruct (writerow output_csv_path _ _ _) as [dir|]; [|done]. simpl. by intros [= <-].
Qed.

Lemma route_passes body field_names error_field_names output_csv_path errors_csv_path st row :
  row_passes body field_names error_field_names row = true ->
  exists st', body row ≫= route output_csv_path errors_csv_path field_names
                             error_field_names st = Ok st'.
Proof.
  unfold row_passes. destruct (body row) as [[error_str out]|]; [|done]. simpl.
  unfold route. destruct (text_truthy error_str).
  - rewrite (writerow_is_ok [] errors_csv_path _ _ ∅ (files st)).
    destruct (writerow errors_csv_path _ _ _); [|done]. simpl. eauto.
  - rewrite (writerow_is_ok [] output_csv_path _ _ ∅ (files st)).
    destruct (writerow output_csv_path _ _ _); [|done]. simpl. eauto.
Qed.

(** *** The streaming loops *)

Section Streaming.
Variable body : parquet_row -> result classified.
Variables output_csv_path errors_csv_path : pystr.
Variables field_names error_field_names : list pystr.
Hypothesis paths_differ : output_csv_path <> errors_csv_path.

Local Abbreviation stream :=
  (stream_rows body output_csv_path errors_csv_path field_names error_field_names).
Local Abbreviation inv :=
  (pass_invariant output_csv_path errors_csv_path field_names error_field_names).

Lemma route_invariant st c st' :
  inv st ->
  route output_csv_path errors_csv_path field_names error_field_names st c = Ok st' ->
  inv st'.
Proof.
  intros [[ro Hout] (re & Herr & Hlen)] Hroute.
  apply route_ok in Hroute as [_ Hroute].
  destruct (text_truthy c.1); destruct Hroute as [Hcount Hwrite];
    apply writerow_ok in Hwrite; unfold pass_invariant; rewrite Hwrite, Hcount.
  - rewrite lookup_alter_ne by done. rewrite lookup_alter_eq, Herr, Hout. simpl.
    split; [eauto|]. eexists. split; [done|]. rewrite length_app. simpl. lia.
  - rewrite lookup_alter_eq, lookup_alter_ne by done. rewrite Herr, Hout. simpl.
    split; eauto.
Qed.

Lemma stream_rows_app rows1 rows2 st :
  stream (rows1 ++ rows2) st
  = match stream rows1 st with
    | (st', Ok _) => stream rows2 st'
    | (st', Raise e) => (st', Raise e)
    end.
Proof.
  revert st. induction rows1 as [|row rows1 IH]; intros st; simpl; [done|].
  destruct (body row ≫= _) as [st'|e]; [apply IH|done].
Qed.

Lemma stream_rows_invariant rows st st' r :
  inv st -> stream rows st = (st', r) ->
  inv st'
  /\ (is_ok r = true ->
      error_rows (counters st')
      = (error_rows (counters st) + length (diagnosed body rows))%nat
      /\ total_rows (counters st') = (total_rows (counters st) + length rows)%nat).
Proof.
  revert st. induction rows as [|row rows IH]; intros st Hinv; simpl.
  - intros [= <- <-]. split; [done|]. intros _. lia.
  - destruct (body row) as [c|e] eqn:Hbody; simpl.
    + destruct (route _ _ _ _ st c) as [st1|e] eqn:Hroute.
      * intros Hrest. pose proof (route_invariant _ _ _ Hinv Hroute) as Hinv1.
        destruct (IH st1 Hinv1 Hrest) as [Hinv' Hcount]. split; [done|].
        intros Hok. destruct (Hcount Hok) as [Herr Htotal].
        apply route_ok in Hroute as [Htot1 Hroute].
        unfold diagnosed in *. cbn [List.filter].
        destruct c as [error_str out]. cbn [fst] in *.
        destruct (text_truthy error_str); destruct Hroute as [Herr1 _]; simpl; lia.
      * intros [= <- <-]. split; [done|]. done.
    + intros [= <- <-]. split; [done|]. done.
Qed.

Lemma stream_batches_invariant rows_count batches st st' r :
  inv st ->
  stream_batches body output_csv_path errors_csv_path field_names error_field_names
    rows_count batches st = (st', r) ->
  inv st'
  /\ (is_ok r = true ->
      error_rows (counters st')
      = (error_rows (counters st) + length (diagnosed body (concat batches)))%nat
      /\ total_rows (counters st') = (total_rows (counters st) + length (concat batches))%nat).
Proof.
  revert st. induction batches as [|batch batches IH]; intros st Hinv; simpl.
  - intros [= <- <-]. split; [done|]. intros _. unfold diagnosed. simpl. lia.
  - destruct (stream_rows _ _ _ _ _ batch st) as [st1 r1] eqn:Hbatch.
    destruct (stream_rows_invariant _ _ _ _ Hinv Hbatch) as [Hinv1 Hcount1].
    destruct r1 as [[]|e]; [|by intros [= <- <-]].
    destruct (Nat.eqb rows_count 0); [by intros [= <- <-]|].
    intros Hrest. destruct (IH st1 Hinv1 Hrest) as [Hinv' Hcount]. split; [done|].
    intros Hok. destruct (Hcount Hok) as [Herr Htotal].
    destruct (Hcount1 eq_refl) as [Herr1 Htotal1].
    unfold diagnosed in *. rewrite filter_app, !length_app. lia.
Qed.

Lemma stream_batches_concat rows_count batches st :
  rows_count <> 0%nat ->
  stream_batches body output_csv_path errors_csv_path field_names error_field_names
    rows_count batches st
  = stream (concat batches) st.
Proof.
  intros Hcount. revert st. induction batches as [|batch batches IH]; intros st; simpl; [done|].
  rewrite stream_rows_app.
  destruct (stream batch st) as [st1 [[]|e]]; [|done].
  destruct (Nat.eqb_spec rows_count 0); [done|]. apply IH.
Qed.

Lemma stream_rows_first_raise before row after e st :
  Forall (fun r => row_passes body field_names error_field_names r = true) before ->
  body row = Raise e ->
  exists st', stream (before ++ row :: after) st = (st', Raise e).
Proof.
  intros Hbefore Hrow. revert st.
  induction Hbefore as [|r before Hr _ IH]; intros st; simpl.
  - rewrite Hrow. simpl. eauto.
  - destruct (route_passes _ _ _ output_csv_path errors_csv_path st _ Hr) as [st1 ->].
    apply IH.
Qed.

End Streaming.

Lemma diagnosed_nonempty body rows :
  diagnosed body rows <> [] <->
  exists row, row ∈ rows /\ has_diagnostic (body row) = true.
Proof.
  unfold diagnosed. split.
  - destruct (List.filter _ rows) as [|row found] eqn:Hfound; [done|]. intros _.
    assert (Hin : In row (List.filter (fun row => has_diagnostic (body row)) rows))
      by (rewrite Hfound; by left).
    apply filter_In in Hin as [Hin Hdiag]. exists row. by rewrite list_elem_of_In.
  - intros (row & Hin & Hdiag) Hnil.
    assert (Hfound : In row (List.filter (fun row => has_diagnostic (body row)) rows)).
    { apply filter_In. by rewrite <- list_elem_of_In. }
    by rewrite Hnil in Hfound.
Qed.

(** A pass that reaches its end. *)
Lemma run_pass_closed (body : parquet_row -> result classified)
    (parquet_path output_csv_path errors_csv_path : pystr)
    (field_names error_field_names : list pystr) (dir : directory)
    (batches : list (list parquet_row)) :
  output_csv_path <> errors_csv_path ->
  dir !! parquet_path = Some (ParquetFile batches) ->
  is_ok (run_pass body parquet_path output_csv_path errors_csv_path
           field_names error_field_names dir).2 = true ->
  (run_pass body parquet_path output_csv_path errors_csv_path
     field_names error_field_names dir).2
  = Ok {| total_rows := length (concat batches);
          error_rows := length (diagnosed body (concat batches)) |}
  /\ (exists rows,
        (run_pass body parquet_path output_csv_path errors_csv_path
           field_names error_field_names dir).1 !! output_csv_path
        = Some (CsvFile field_names rows))
  /\ match (run_pass body parquet_path output_csv_path errors_csv_path
              field_names error_field_names dir).1 !! errors_csv_path with
     | Some f =>
         diagnosed body (concat batches) <> []
         /\ exists rows, f = CsvFile error_field_names rows
                         /\ length rows = length (diagnosed body (concat batches))
     | None => diagnosed body (concat batches) = []
     end.
Proof.
  intros Hpaths Hparquet. unfold run_pass. rewrite Hparquet.
  set (st0 := {| files := _; counters := _ |}).
  assert (Hinv0 : pass_invariant output_csv_path errors_csv_path
                    field_names error_field_names st0).
  { split; simpl.
    - exists []. rewrite lookup_insert_ne by done. by rewrite lookup_insert_eq.
    - exists []. by rewrite lookup_insert_eq. }
  destruct (stream_batches _ _ _ _ _ _ batches st0) as [st r] eqn:Hstream.
  destruct (stream_batches_invariant _ _ _ _ _ Hpaths _ _ _ _ _ Hinv0 Hstream)
    as [[[ro Hout] (re & Herr & Hlen)] Hcount].
  destruct r as [[]|e]; [|done]. destruct (Hcount eq_refl) as [Herrors Htotal].
  simpl in Herrors, Htotal.
  assert (Hstats : counters st
                   = {| total_rows := length (concat batches);
                        error_rows := length (diagnosed body (concat batches)) |}).
  { destruct (counters st). simpl in *. congruence. }
  rewrite Hstats in *. cbn [error_rows] in *.
  destruct (Nat.eqb_spec 0 (length (diagnosed body (concat batches)))) as [Hzero|Hsome];
    simpl; intros _.
  - split; [done|]. rewrite lookup_delete_ne by done. split; [eauto|].
    rewrite lookup_delete_eq. apply length_zero_iff_nil. lia.
  - split; [done|]. split; [eauto|]. rewrite Herr. split; [|by exists re].
    intros Hnil. by rewrite Hnil in Hsome.
Qed.

Lemma run_pass_aborts (body : parquet_row -> result classified)
    (parquet_path output_csv_path errors_csv_path : pystr)
    (field_names error_field_names : list pystr) (dir : directory)
    (batches : list (list parquet_row)) (before : list parquet_row) (row : parquet_row)
    (after : list parquet_row) (e : exn) :
  dir !! parquet_path = Some (ParquetFile batches) ->
  concat batches = before ++ row :: after ->
  Forall (fun r => row_passes body field_names error_field_names r = true) before ->
  body row = Raise e ->
  (run_pass body parquet_path output_csv_path errors_csv_path
     field_names error_field_names dir).2 = Raise e.
Proof.
  intros Hparquet Hrows Hbefore Hrow. unfold run_pass. rewrite Hparquet.
  rewrite stream_batches_concat.
  - rewrite Hrows.
    edestruct (stream_rows_first_raise body output_csv_path errors_csv_path
                 field_names error_field_names before row after e) as [st' ->]; done.
  - rewrite Hrows, length_app. simpl. lia.
Qed.

(** *** The parent lookup *)

Lemma get_company_not_found engine (id : pystr) :
  id <> [] -> (forall c, c ∈ engine -> co_id c <> id) ->
  get_company engine (Some id) = Raise (ValueError (ustr "Company not found")).
Proof.
  intros Hid Hnone. unfold get_company.
  destruct id as [|ch id]; [done|]. cbn [text_truthy].
  destruct (List.find _ engine) as [c|] eqn:Hfind; [|done].
  apply find_some in Hfind as [Hin Heq].
  apply bool_decide_eq_true in Heq. injection Heq as Heq.
  destruct (Hnone c); [by apply list_elem_of_In|done].
Qed.

Lemma company_id_missing (fields_map rest : list (pystr * FieldMap)) (field : FieldMap)
    (row : parquet_row) (company_id : option pystr) :
  fields_map = (COMPANY_ID_COLUMN, field) :: rest ->
  required field = true ->
  row !! COMPANY_ID_COLUMN = Some company_id ->
  text_truthy company_id = false ->
  first_missing_field fields_map (of_text <$> row) = Some (src_field field, COMPANY_ID_COLUMN).
Proof.
  intros -> Hreq Hid Hfalsy. simpl. rewrite Hreq. unfold dict_get.
  rewrite lookup_fmap, Hid. simpl.
  by destruct company_id as [[|? ?]|].
Qed.

Lemma contact_row_parent_id_missing (engine : DatabaseEngine) (row : parquet_row) (company_id : option pystr) :
  row !! COMPANY_ID_COLUMN = Some company_id ->
  text_truthy company_id = false ->
  exists out,
    contact_row engine row
    = Ok (Some (ustr "Missing value /crm/objects/v3/contacts associations_companies_results (company_id)"),
          out).
Proof.
  intros Hid Hfalsy.
  pose proof (company_id_missing CONTACT_FIELDS_MAP (List.tl CONTACT_FIELDS_MAP)
                {| src_field := ustr "associations_companies_results";
                   transform_fun := Some _get_company_id_from_assoc; required := true |}
                row company_id eq_refl eq_refl Hid Hfalsy) as Hmissing.
  destruct (contact_row_child_missing engine row _ company_id Hmissing Hid (or_introl Hfalsy))
    as [out Hout].
  assert (Hmsg : _build_missing_field_error
                   (ustr "associations_companies_results", COMPANY_ID_COLUMN)
                   Settings.hubspot_api_contacts_path
                 = ustr "Missing value /crm/objects/v3/contacts associations_companies_results (company_id)")
    by (vm_compute; reflexivity).
  cbn [src_field] in Hout. rewrite Hmsg in Hout. eauto.
Qed.

Lemma deal_row_parent_id_missing (engine : DatabaseEngine) (row : parquet_row) (company_id : option pystr) :
  row !! COMPANY_ID_COLUMN = Some company_id ->
  text_truthy company_id = false ->
  exists out,
    deal_row engine row
    = Ok (Some (ustr "Missing value /crm/objects/v3/deals associations_companies_results (company_id)"),
          out).
Proof.
  intros Hid Hfalsy.
  pose proof (company_id_missing DEAL_FIELDS_MAP (List.tl DEAL_FIELDS_MAP)
                {| src_field := ustr "associations_companies_results";
                   transform_fun := Some _get_company_id_from_assoc; required := true |}
                row company_id eq_refl eq_refl Hid Hfalsy) as Hmissing.
  destruct (deal_row_child_missing engine row _ company_id Hmissing Hid (or_introl Hfalsy))
    as [out Hout].
  assert (Hmsg : _build_missing_field_error
                   (ustr "associations_companies_results", COMPANY_ID_COLUMN)
                   Settings.hubspot_api_deals_path
                 = ustr "Missing value /crm/objects/v3/deals associations_companies_results (company_id)")
    by (vm_compute; reflexivity).
  cbn [src_field] in Hout. rewrite Hmsg in Hout. eauto.
Qed.

Lemma check_files_first_missing (before : list pystr) (filename : pystr)
    (after : list pystr) (dir : directory) :
  (forall f, f ∈ before -> is_Some (dir !! f)) ->
  dir !! filename = None ->
  check_files (before ++ filename :: after) dir
  = Raise (ValueError (ustr "No " ++ filename ++ ustr " file found")).
Proof.
  intros Hbefore Hmissing. induction before as [|f before IH]; simpl.
  - by rewrite Hmissing.
  - destruct (Hbefore f) as [x ->]; [by left|].
    apply IH. intros g Hg. apply Hbefore. by right.
Qed.

Lemma check_files_all_present (check_filenames : list pystr) (dir : directory) :
  (forall f, f ∈ check_filenames -> is_Some (dir !! f)) ->
  check_files check_filenames dir = Ok tt.
Proof.
  induction check_filenames as [|f rest IH]; intros Hall; simpl; [done|].
  destruct (Hall f) as [x ->]; [by left|].
  apply IH. intros g Hg. apply Hall. by right.
Qed.

End JoinFacts.

(** C3, as the code has it. [build_sf_csvs] looks for the contacts, deals
    and companies files, in this order, before it touches anything; at
    the first one that is absent it raises a ValueError whose message
    names that file, and leaves the directory as it found it. *)
Theorem build_sf_csvs_first_missing_file
    (dir : Translator.directory) (before : list pystr) (filename : pystr) (after : list pystr) :
  [Settings.contacts_filename; Settings.deals_filename; Settings.companies_filename]
  = before ++ filename :: after ->
  (forall f, f ∈ before -> is_Some (dir !! f)) ->
  dir !! filename = None ->
  Translator.build_sf_csvs dir
  = (dir, Raise (ValueError (ustr "No " ++ filename ++ ustr " file found"))).
Proof.
  intros Hsplit Hbefore Hmissing. unfold Translator.build_sf_csvs.
  rewrite Hsplit. by rewrite (check_files_first_missing before filename after dir).
Qed.

(** The contacts file is there, the deals file is not. *)
Lemma build_sf_csvs_first_missing_file_witness :
  Translator.build_sf_csvs {[ Settings.contacts_filename := Translator.EmptyFile ]}
  = ({[ Settings.contacts_filename := Translator.EmptyFile ]},
     Raise (ValueError (ustr "No " ++ Settings.deals_filename ++ ustr " file found"))).
Proof.
  apply (build_sf_csvs_first_missing_file _ [Settings.contacts_filename]
           Settings.deals_filename [Settings.companies_filename]).
  - reflexivity.
  - intros f [->|Hf]%elem_of_cons; [vm_compute; eauto|by apply elem_of_nil in Hf].
  - vm_compute. reflexivity.
Defined.

(** C3, as stated, fails: with none of the three files in place the error
    names the contacts file only. *)
Lemma build_sf_csvs_reports_one_file :
  Translator.build_sf_csvs ∅
  = (∅, Raise (ValueError (ustr "No contacts.parquet file found")))
  /\ str_contains Settings.deals_filename (ustr "No contacts.parquet file found") = false
  /\ str_contains Settings.companies_filename (ustr "No contacts.parquet file found") = false.
Proof. repeat split; vm_compute; reflexivity. Qed.

(** C4. The diagnostic of a child row is the first problem in the order
    child field, company field, duplicate company, in both passes. A child
    row that misses one of its own required fields gets the MISSING_VALUE
    message of that field whatever its parent looks like, and a row with a
    diagnostic is appended to the error file (with the message in the
    Error column) and not to the valid file. *)
Theorem diagnostic_follows_precedence :
  (forall engine row error_str out,
      Translator.contact_row engine row = Ok (error_str, out) ->
      error_str = JoinSpec.diagnostic_by_precedence FieldMapping.CONTACT_FIELDS_MAP
                    Settings.hubspot_api_contacts_path row (JoinSpec.parent_of engine row))
  /\ (forall engine row error_str out,
         Translator.deal_row engine row = Ok (error_str, out) ->
         error_str = JoinSpec.diagnostic_by_precedence FieldMapping.DEAL_FIELDS_MAP
                       Settings.hubspot_api_deals_path row (JoinSpec.parent_of engine row))
  /\ (forall engine (row : Translator.parquet_row) missing_field company_id,
         FieldMapping.first_missing_field FieldMapping.CONTACT_FIELDS_MAP (of_text <$> row)
         = Some missing_field ->
         row !! FieldMapping.COMPANY_ID_COLUMN = Some company_id ->
         CompaniesDb.text_truthy company_id = false
         \/ is_ok (CompaniesDb.get_company engine company_id) = true ->
         exists out,
           Translator.contact_row engine row
           = Ok (Some (JoinSpec.missing_value_message
                         Settings.hubspot_api_contacts_path missing_field), out))
  /\ (forall engine (row : Translator.parquet_row) missing_field company_id,
         FieldMapping.first_missing_field FieldMapping.DEAL_FIELDS_MAP (of_text <$> row)
         = Some missing_field ->
         row !! FieldMapping.COMPANY_ID_COLUMN = Some company_id ->
         CompaniesDb.text_truthy company_id = false
         \/ (exists company,
               CompaniesDb.get_company engine company_id = Ok company
               /\ is_Some (CompaniesDb.attrs company !! FieldMapping.ACCOUNTS_NAME_COLUMN)) ->
         exists out,
           Translator.deal_row engine row
           = Ok (Some (JoinSpec.missing_value_message
                         Settings.hubspot_api_deals_path missing_field), out))
  /\ (forall output_csv_path errors_csv_path field_names error_field_names st path
             missing_field row st',
         output_csv_path <> errors_csv_path ->
         Translator.route output_csv_path errors_csv_path field_names error_field_names st
           (Some (JoinSpec.missing_value_message path missing_field), row) = Ok st' ->
         Translator.files st' !! errors_csv_path
         = Translator.append_row
             (Translator.cells_of error_field_names
                (<[Translator.ERROR_COLUMN :=
                     VStr (JoinSpec.missing_value_message path missing_field)]> row))
           <$> Translator.files st !! errors_csv_path
         /\ Translator.files st' !! output_csv_path = Translator.files st !! output_csv_path
         /\ Translator.error_rows (Translator.counters st')
            = S (Translator.error_rows (Translator.counters st)))
  /\ (fst <$> Translator.contact_row Samples.store
                (Samples.contact (Some (ustr "c2")) (Some (ustr "Bob")) None)
      = Ok (Some (ustr "Missing value /crm/objects/v3/contacts lastname (Contact Last Name)"))
      /\ fst <$> Translator.contact_row Samples.store
                   (Samples.contact (Some (ustr "c2")) (Some (ustr "Bob")) (Some (ustr "Ray")))
         = Ok (Some (ustr "Missing value /crm/objects/v3/companies name (Account Name)"))
      /\ fst <$> Translator.contact_row Samples.store
                   (Samples.contact (Some (ustr "c3")) (Some (ustr "Bob")) (Some (ustr "Ray")))
         = Ok (Some (ustr "Duplicate company name (Account Name)"))
      /\ fst <$> Translator.deal_row Samples.store (Samples.deal (Some (ustr "c2")) None)
         = Ok (Some (ustr "Missing value /crm/objects/v3/deals dealname (Name)"))).
Proof.
  split; [exact contact_row_diagnostic|]. split; [exact deal_row_diagnostic|].
  split; [|split; [|split]].
  - intros engine row mf company_id Hmissing Hid Hparent.
    rewrite <- (missing_value_contact _ _ Hmissing).
    by apply (contact_row_child_missing engine row mf company_id).
  - intros engine row mf company_id Hmissing Hid Hparent.
    rewrite <- (missing_value_deal _ _ Hmissing).
    by apply (deal_row_child_missing engine row mf company_id).
  - intros out_path err_path fn efn st path mf row st' Hpaths Hroute.
    apply route_ok in Hroute as [_ Hroute]. cbn [fst snd] in Hroute.
    change (CompaniesDb.text_truthy (Some (JoinSpec.missing_value_message path mf)))
      with true in Hroute.
    destruct Hroute as [Hcount Hwrite]. apply writerow_ok in Hwrite.
    rewrite Hwrite, lookup_alter_eq, lookup_alter_ne by done. done.
  - repeat split; vm_compute; reflexivity.
Qed.

(** C9. A child row whose parent id is a non-empty id that the store does
    not hold makes the row body raise "Company not found"; when the rows
    before it went through, the whole pass ends in that error instead of
    reaching its end. A row whose parent id is null or empty is kept: it
    gets the MISSING_VALUE diagnostic of the parent-id column. *)
Theorem unknown_parent_aborts_pass
    (engine : CompaniesDb.DatabaseEngine) (row : Translator.parquet_row)
    (company_id : pystr) :
  row !! FieldMapping.COMPANY_ID_COLUMN = Some (Some company_id) ->
  company_id <> [] ->
  (forall c, c ∈ engine -> CompaniesDb.co_id c <> company_id) ->
  Translator.contact_row engine row = Raise (ValueError (ustr "Company not found"))
  /\ Translator.deal_row engine row = Raise (ValueError (ustr "Company not found"))
  /\ (forall contacts_path output_csv_path errors_csv_path (dir : Translator.directory)
             batches before after,
         dir !! contacts_path = Some (Translator.ParquetFile batches) ->
         concat batches = before ++ row :: after ->
         Forall (fun r => JoinSpec.row_passes (Translator.contact_row engine)
                            Translator.accounts_contacts_field_names
                            ([Translator.ERROR_COLUMN]
                             ++ Translator.accounts_contacts_field_names) r = true) before ->
         (Translator._build_accounts_contacts engine contacts_path output_csv_path
            errors_csv_path dir).2
         = Raise (ValueError (ustr "Company not found")))
  /\ (forall deals_path output_csv_path errors_csv_path (dir : Translator.directory)
             batches before after,
         dir !! deals_path = Some (Translator.ParquetFile batches) ->
         concat batches = before ++ row :: after ->
         Forall (fun r => JoinSpec.row_passes (Translator.deal_row engine)
                            Translator.opportunities_field_names
                            ([Translator.ERROR_COLUMN]
                             ++ Translator.opportunities_field_names) r = true) before ->
         (Translator._build_opportunities engine deals_path output_csv_path
            errors_csv_path dir).2
         = Raise (ValueError (ustr "Company not found")))
  /\ (forall (child : Translator.parquet_row) parent_id,
         child !! FieldMapping.COMPANY_ID_COLUMN = Some parent_id ->
         CompaniesDb.text_truthy parent_id = false ->
         (exists out,
             Translator.contact_row engine child
             = Ok (Some (ustr "Missing value /crm/objects/v3/contacts associations_companies_results (company_id)"),
                   out))
         /\ (exists out,
               Translator.deal_row engine child
               = Ok (Some (ustr "Missing value /crm/objects/v3/deals associations_companies_results (company_id)"),
                     out))).
Proof.
  intros Hid Hnonempty Hunknown.
  assert (Hcontact : Translator.contact_row engine row
                     = Raise (ValueError (ustr "Company not found"))).
  { unfold Translator.contact_row. rewrite Hid.
    destruct company_id as [|ch company_id]; [done|]. cbn [CompaniesDb.text_truthy].
    by rewrite get_company_not_found. }
  assert (Hdeal : Translator.deal_row engine row
                  = Raise (ValueError (ustr "Company not found"))).
  { unfold Translator.deal_row. rewrite Hid.
    destruct company_id as [|ch company_id]; [done|]. cbn [CompaniesDb.text_truthy].
    by rewrite get_company_not_found. }
  split; [exact Hcontact|]. split; [exact Hdeal|]. split; [|split].
  - intros contacts_path out_path err_path dir batches before after Hparquet Hrows Hbefore.
    unfold Translator._build_accounts_contacts.
    exact (run_pass_aborts _ _ _ _ _ _ _ batches before row after _
             Hparquet Hrows Hbefore Hcontact).
  - intros deals_path out_path err_path dir batches before after Hparquet Hrows Hbefore.
    unfold Translator._build_opportunities.
    exact (run_pass_aborts _ _ _ _ _ _ _ batches before row after _
             Hparquet Hrows Hbefore Hdeal).
  - intros child parent_id Hchild Hfalsy. split.
    + apply (contact_row_parent_id_missing engine child parent_id Hchild Hfalsy).
    + apply (deal_row_parent_id_missing engine child parent_id Hchild Hfalsy).
Qed.

(** A contact that points at a company the store has never seen. *)
Lemma unknown_parent_aborts_pass_witness :
  Translator.contact_row Samples.store
    (Samples.contact (Some (ustr "c9")) (Some (ustr "Ann")) (Some (ustr "Lee")))
  = Raise (ValueError (ustr "Company not found"))
  /\ (Translator._build_accounts_contacts Samples.store Settings.contacts_filename
        Settings.csv_accounts_contacts_filename Settings.csv_errors_accounts_contacts_filename
        (<[Settings.contacts_filename :=
             Translator.ParquetFile
               [[Samples.contact (Some (ustr "c1")) (Some (ustr "Ann")) (Some (ustr "Lee"))];
                [Samples.contact (Some (ustr "c9")) (Some (ustr "Ann")) (Some (ustr "Lee"))]]]>
           ∅)).2
     = Raise (ValueError (ustr "Company not found")).
Proof.
  destruct (unknown_parent_aborts_pass Samples.store
              (Samples.contact (Some (ustr "c9")) (Some (ustr "Ann")) (Some (ustr "Lee")))
              (ustr "c9")) as (Hrow & _ & Hpass & _).
  - vm_compute. reflexivity.
  - discriminate.
  - intros c Hc. repeat (apply elem_of_cons in Hc as [->|Hc]); try discriminate.
    by apply elem_of_nil in Hc.
  - split; [exact Hrow|].
    apply (Hpass _ _ _ _
             [[Samples.contact (Some (ustr "c1")) (Some (ustr "Ann")) (Some (ustr "Lee"))];
              [Samples.contact (Some (ustr "c9")) (Some (ustr "Ann")) (Some (ustr "Lee"))]]
             [Samples.contact (Some (ustr "c1")) (Some (ustr "Ann")) (Some (ustr "Lee"))] []).
    + apply lookup_insert_eq.
    + reflexivity.
    + constructor; [vm_compute; reflexivity|constructor].
Defined.

(** C8. When a pass reaches its end, the error file is there exactly when
    some row of the input received a diagnostic (it then holds the Error
    header and one line per such row; otherwise it has been unlinked),
    and the valid file is there under its header. The three paths are
    distinct, as [build_sf_csvs] passes them. *)
Theorem error_file_iff_diagnostic
    (engine : CompaniesDb.DatabaseEngine)
    (parquet_path output_csv_path errors_csv_path : pystr)
    (dir : Translator.directory) (batches : list (list Translator.parquet_row)) :
  output_csv_path <> errors_csv_path ->
  parquet_path <> output_csv_path ->
  parquet_path <> errors_csv_path ->
  dir !! parquet_path = Some (Translator.ParquetFile batches) ->
  (is_ok (Translator._build_accounts_contacts engine parquet_path output_csv_path
            errors_csv_path dir).2 = true ->
   (is_Some ((Translator._build_accounts_contacts engine parquet_path output_csv_path
                errors_csv_path dir).1 !! errors_csv_path)
    <-> exists row, row ∈ concat batches
                    /\ JoinSpec.has_diagnostic (Translator.contact_row engine row) = true)
   /\ (forall f,
          (Translator._build_accounts_contacts engine parquet_path output_csv_path
             errors_csv_path dir).1 !! errors_csv_path = Some f ->
          exists rows,
            f = Translator.CsvFile
                  ([Translator.ERROR_COLUMN] ++ Translator.accounts_contacts_field_names) rows
            /\ length rows
               = length (JoinSpec.diagnosed (Translator.contact_row engine) (concat batches)))
   /\ exists rows,
        (Translator._build_accounts_contacts engine parquet_path output_csv_path
           errors_csv_path dir).1 !! output_csv_path
        = Some (Translator.CsvFile Translator.accounts_contacts_field_names rows))
  /\ (is_ok (Translator._build_opportunities engine parquet_path output_csv_path
               errors_csv_path dir).2 = true ->
      (is_Some ((Translator._build_opportunities engine parquet_path output_csv_path
                   errors_csv_path dir).1 !! errors_csv_path)
       <-> exists row, row ∈ concat batches
                       /\ JoinSpec.has_diagnostic (Translator.deal_row engine row) = true)
      /\ (forall f,
             (Translator._build_opportunities engine parquet_path output_csv_path
                errors_csv_path dir).1 !! errors_csv_path = Some f ->
             exists rows,
               f = Translator.CsvFile
                     ([Translator.ERROR_COLUMN] ++ Translator.opportunities_field_names) rows
               /\ length rows
                  = length (JoinSpec.diagnosed (Translator.deal_row engine) (concat batches)))
      /\ exists rows,
           (Translator._build_opportunities engine parquet_path output_csv_path
              errors_csv_path dir).1 !! output_csv_path
           = Some (Translator.CsvFile Translator.opportunities_field_names rows)).
Proof.
  intros Hpaths _ _ Hparquet.
  unfold Translator._build_accounts_contacts, Translator._build_opportunities.
  split; intros Hok.
  all: destruct (run_pass_closed _ _ _ _ _ _ _ _ Hpaths Hparquet Hok) as (_ & Hout & Herr).
  all: split; [|split; [|exact Hout]].
  all: try (rewrite <- diagnosed_nonempty;
            match type of Herr with
            | match ?d with _ => _ end => destruct d
            end;
            [ destruct Herr as [Hsome _]; split; [done|eauto]
            | split; [by intros [? ?]|done] ]).
  all: intros f Hf; rewrite Hf in Herr; by destruct Herr as [_ Hrows].
Qed.

(** The sample directory: one parent, two contacts, the second without a
    last name. The pass counts two rows, one of them in error, and leaves
    both files. *)
Lemma error_file_iff_diagnostic_witness :
  (Translator._build_accounts_contacts [Samples.acme] Settings.contacts_filename
     Settings.csv_accounts_contacts_filename Settings.csv_errors_accounts_contacts_filename
     Samples.workdir).2
  = Ok {| Translator.total_rows := 2; Translator.error_rows := 1 |}
  /\ (is_Some ((Translator._build_accounts_contacts [Samples.acme] Settings.contacts_filename
                  Settings.csv_accounts_contacts_filename
                  Settings.csv_errors_accounts_contacts_filename
                  Samples.workdir).1 !! Settings.csv_errors_accounts_contacts_filename)
      <-> exists row,
            row ∈ [Samples.contact (Some (ustr "c1")) (Some (ustr "Ann")) (Some (ustr "Lee"));
                   Samples.contact (Some (ustr "c1")) (Some (ustr "Bob")) None]
            /\ JoinSpec.has_diagnostic (Translator.contact_row [Samples.acme] row) = true).
Proof.
  split; [vm_compute; reflexivity|].
  destruct (error_file_iff_diagnostic [Samples.acme] Settings.contacts_filename
              Settings.csv_accounts_contacts_filename
              Settings.csv_errors_accounts_contacts_filename Samples.workdir
              [[Samples.contact (Some (ustr "c1")) (Some (ustr "Ann")) (Some (ustr "Lee"));
                Samples.contact (Some (ustr "c1")) (Some (ustr "Bob")) None]])
    as [Hcontacts _].
  - discriminate.
  - discriminate.
  - discriminate.
  - apply lookup_insert_eq.
  - destruct Hcontacts as [Hiff _]; [vm_compute; reflexivity|].
    exact Hiff.
Defined.

(** ** The download phase *)

Section PersistFacts.
Import FieldMapping CompaniesDb Translator PersistSpec.

Lemma mapM_ok {A B} (f : A -> result B) (l : list A) (k : list B) :
  mapM f l = Ok k -> Forall2 (fun x y => f x = Ok y) l k.
Proof.
  revert k. induction l as [|x l IH]; intros k; simpl.
  - intros [= <-]. constructor.
  - destruct (f x) as [y|] eqn:Hx; [|done]. simpl.
    destruct (mapM f l) as [k'|] eqn:Hl; [|done]. simpl.
    intros [= <-]. constructor; [done|by apply IH].
Qed.

Lemma build_attrs_from_other rt fields_map hs_record attrs0 ctx attrs (label : pystr) :
  build_attrs_from rt fields_map hs_record attrs0 ctx = Ok attrs ->
  label ∉ fields_map.*1 ->
  attrs !! label = attrs0 !! label.
Proof.
  revert attrs0 ctx. induction fields_map as [|[l fld] rest IH]; intros attrs0 ctx; simpl.
  - by intros [= <-].
  - intros Hbuild Hlabel. apply not_elem_of_cons in Hlabel as [Hne Hrest].
    destruct (transform_fun fld) as [f|].
    + destruct (f rt _ ctx) as [[value|value new_ctx]|]; simpl in Hbuild; [| |done].
      all: rewrite (IH _ _ Hbuild Hrest); by rewrite lookup_insert_ne.
    + rewrite (IH _ _ Hbuild Hrest). by rewrite lookup_insert_ne.
Qed.

Lemma build_attrs_account_name rt hs_record attrs :
  build_attrs rt ACCOUNT_FIELDS_MAP hs_record = Ok attrs ->
  attrs !! ACCOUNTS_NAME_COLUMN = Some (dict_get hs_record (ustr "name")).
Proof.
  rewrite build_attrs_account_domain.
  destruct (dict_get hs_record (ustr "domain")); try done.
  intros Hbuild. rewrite (build_attrs_from_other _ _ _ _ _ _ _ Hbuild).
  - rewrite lookup_insert_ne by done. by rewrite lookup_insert_eq.
  - apply (bool_decide_unpack _). vm_compute. exact I.
Qed.

Lemma company_row_ok rt res cid attrs name :
  company_row rt res = Ok (cid, attrs, name) ->
  cid = obj_id res /\ name = company_name res
  /\ attrs !! ACCOUNTS_NAME_COLUMN = Some (of_text name).
Proof.
  unfold company_row.
  destruct (build_attrs rt ACCOUNT_FIELDS_MAP _) as [attrs'|] eqn:Hbuild; [|done]. simpl.
  apply build_attrs_account_name in Hbuild. unfold dict_getitem. rewrite Hbuild. simpl.
  intros [= <- <- <-]. rewrite Hbuild. unfold dict_get, company_name. rewrite lookup_fmap.
  by destruct (obj_properties res !! ustr "name") as [[s|]|].
Qed.

Lemma insert_records_ok table records table' :
  insert_records table records = Ok table' ->
  exists new,
    table' = table ++ new
    /\ Forall2 (fun (r : entry) c =>
                  r = (Some (co_id c), co_attrs c, co_name c, co_duplicate c)) records new.
Proof.
  revert table. induction records as [|[[[[cid|] attrs] name] dup] rest IH]; intros table; simpl.
  - intros [= <-]. exists []. split; [by rewrite app_nil_r|constructor].
  - case_bool_decide; [done|]. intros Hrest.
    destruct (IH _ Hrest) as (new & -> & Hnew).
    eexists (_ :: new). split; [by rewrite <- app_assoc|]. by constructor.
  - done.
Qed.

Lemma add_companies_ok engine id_attrs_list engine' :
  add_companies engine id_attrs_list = Ok engine' ->
  insert_records engine id_attrs_list = Ok engine'.
Proof.
  unfold add_companies. destruct id_attrs_list as [|r rest]; [done|].
  by destruct (check_attrs (r :: rest)) as [[]|].
Qed.

Lemma flag_rows_length db added rows : length (flag_rows db added rows) = length rows.
Proof.
  revert added. induction rows as [|[[cid attrs] name] rows IH]; intros added; simpl; [done|].
  by rewrite IH.
Qed.

Lemma flag_rows_lookup (db : gmap (option pystr) bool) (added : gset (option pystr))
    (rows : list id_attrs) (i : nat) (cid : option pystr) (attrs : gmap pystr pyval)
    (name : option pystr) :
  rows !! i = Some (cid, attrs, name) ->
  exists dup,
    flag_rows db added rows !! i = Some (cid, attrs, name, dup)
    /\ (dup = true <->
        default false (db !! name) = true \/ name ∈ added \/ name ∈ (take i rows).*2).
Proof.
  revert added i. induction rows as [|[[cid' attrs'] name'] rows IH]; intros added i; [done|].
  destruct i as [|i]; simpl.
  - intros [= -> -> ->]. eexists. split; [done|].
    rewrite orb_true_iff, bool_decide_eq_true. split; [tauto|].
    intros [?|[?|Hnil]]; [tauto..|]. by apply elem_of_nil in Hnil.
  - intros Hi. destruct (IH ({[name']} ∪ added) _ Hi) as (dup & Hdup & Hiff).
    exists dup. split; [done|]. rewrite Hiff.
    rewrite elem_of_union, elem_of_singleton, elem_of_cons. tauto.
Qed.

Lemma name_to_duplicate_db_lookup (uniq : list (option pystr)) (h : option pystr -> bool) n :
  (list_to_map ((fun n => (n, h n)) <$> uniq) : gmap (option pystr) bool) !! n
  = if bool_decide (n ∈ uniq) then Some (h n) else None.
Proof.
  induction uniq as [|m uniq IH].
  - change (list_to_map _) with (∅ : gmap (option pystr) bool). rewrite lookup_empty.
    by rewrite bool_decide_eq_false_2 by apply not_elem_of_nil.
  - change (list_to_map _)
      with (<[m := h m]> (list_to_map ((fun n => (n, h n)) <$> uniq)
                          : gmap (option pystr) bool)).
    destruct (decide (m = n)) as [->|Hne].
    + rewrite lookup_insert_eq. by rewrite bool_decide_eq_true_2 by left.
    + rewrite lookup_insert_ne by done. rewrite IH.
      destruct (decide (n ∈ uniq)) as [Hin|Hin].
      * rewrite !bool_decide_eq_true_2; [done|by right|done].
      * rewrite !bool_decide_eq_false_2; [done| |done].
        intros [->|?]%elem_of_cons; done.
Qed.

Lemma zip_fmap_self {A B} (f : A -> B) (l : list A) :
  zip l (f <$> l) = (fun x => (x, f x)) <$> l.
Proof. induction l as [|x l IH]; [done|]. cbn. by f_equal. Qed.

Lemma names_of_rows (rows : list id_attrs) :
  Forall (fun row : id_attrs => row.1.2 !! ACCOUNTS_NAME_COLUMN = Some (of_text row.2)) rows ->
  row_names ACCOUNTS_NAME_COLUMN rows = Ok rows.*2.
Proof.
  induction 1 as [|[[cid attrs] name] rows Hrow _ IH]; [done|].
  simpl in *. unfold dict_getitem. rewrite Hrow. simpl. rewrite IH. simpl.
  by destruct name.
Qed.

(** The duplicate flags the second loop computes from the store. *)
Lemma persist_company_rows rt engine results engine' :
  _persist_company rt engine results = Ok engine' ->
  exists rows,
    Forall2 (fun res row => company_row rt res = Ok row) results rows
    /\ rows <> []
    /\ insert_records engine
         (flag_rows
            (list_to_map
               ((fun n => (n, text_truthy
                                (name_to_id_from ∅
                                   (select_by_name engine
                                      (elements (list_to_set rows.*2 : gset (option pystr))))
                                 !! n)))
                  <$> elements (list_to_set rows.*2 : gset (option pystr))))
            ∅ rows)
       = Ok engine'.
Proof.
  unfold _persist_company.
  destruct (mapM (company_row rt) results) as [rows|] eqn:Hrows; [|done].
  apply mapM_ok in Hrows. cbn [mbind result_bind].
  change (List.hd [] (fst <$> ACCOUNT_FIELDS_MAP)) with ACCOUNTS_NAME_COLUMN.
  rewrite names_of_rows; cycle 1.
  { clear -Hrows. induction Hrows as [|res [[cid attrs] name] ? ? Hrow _ IH]; constructor; [|done].
    by apply company_row_ok in Hrow as (_ & _ & ?). }
  cbn [mbind result_bind].
  set (uniq := elements (list_to_set rows.*2 : gset (option pystr))).
  destruct (decide (uniq = [])) as [Hnil|Hnonempty]; [by rewrite Hnil|].
  rewrite find_companies_by_name_ok by (done || apply NoDup_elements).
  cbn [mbind result_bind]. rewrite <- list_fmap_compose, zip_fmap_self.
  intros Hadd. apply add_companies_ok in Hadd.
  exists rows. split; [done|]. split; [|exact Hadd].
  intros ->. by destruct Hnonempty.
Qed.

Lemma store_flag_true engine (uniq : list (option pystr)) n :
  (forall c, c ∈ engine -> co_id c <> []) ->
  n ∈ uniq ->
  text_truthy (name_to_id_from ∅ (select_by_name engine uniq) !! n) = true <->
  exists c0, c0 ∈ engine /\ co_name c0 = n /\ is_Some n /\ co_duplicate c0 = false.
Proof.
  intros Hids Hn. pose proof (find_companies_by_name_position engine uniq n Hn) as Hpos.
  destruct (name_to_id_from _ _ !! n) as [i|].
  - destruct Hpos as (c & Hc & Hname & Hsome & Hdup & Hid). split.
    + intros _. by exists c.
    + intros _. specialize (Hids c Hc). rewrite Hid in Hids. by destruct i.
  - split; [done|]. intros (c0 & Hc0 & Hname & Hsome & Hdup).
    by rewrite (Hpos c0 Hc0 Hname Hsome) in Hdup.
Qed.

Lemma persist_company_flags rt engine results engine' :
  (forall c, c ∈ engine -> co_id c <> []) ->
  _persist_company rt engine results = Ok engine' ->
  exists new,
    engine' = engine ++ new
    /\ Forall2 (fun res c => obj_id res = Some (co_id c) /\ co_name c = company_name res)
         results new
    /\ forall i c, new !! i = Some c ->
         (co_duplicate c = true <->
          (exists c0, c0 ∈ engine /\ co_name c0 = co_name c /\ is_Some (co_name c)
                      /\ co_duplicate c0 = false)
          \/ (exists j c', (j < i)%nat /\ new !! j = Some c' /\ co_name c' = co_name c)).
Proof.
  intros Hids Hpersist.
  destruct (persist_company_rows _ _ _ _ Hpersist) as (rows & Hrows & Hnonempty & Hinsert).
  set (uniq := elements (list_to_set rows.*2 : gset (option pystr))) in *.
  remember (list_to_map _ : gmap (option pystr) bool) as db eqn:Hdb in Hinsert.
  destruct (insert_records_ok _ _ _ Hinsert) as (new & -> & Hnew).
  exists new. split; [done|].
  assert (Hrow_of : forall i c, new !! i = Some c ->
            exists attrs,
              rows !! i = Some (Some (co_id c), attrs, co_name c)
              /\ (co_duplicate c = true <->
                  default false (db !! co_name c) = true
                  \/ co_name c ∈ (∅ : gset (option pystr))
                  \/ co_name c ∈ (take i rows).*2)).
  { intros i c Hc.
    destruct (Forall2_lookup_r _ _ _ _ _ Hnew Hc) as (r & Hr & ->).
    assert (Hlt : (i < length rows)%nat).
    { rewrite <- (flag_rows_length db ∅ rows). by eapply lookup_lt_Some. }
    destruct (lookup_lt_is_Some_2 _ _ Hlt) as [[[cid attrs] name] Hrow].
    destruct (flag_rows_lookup db ∅ _ _ _ _ _ Hrow) as (dup & Hflag & Hiff).
    pose proof (eq_trans (eq_sym Hflag) Hr) as Heq. injection Heq as -> -> -> ->.
    exists (co_attrs c). split; [exact Hrow|exact Hiff]. }
  assert (Hlen_rows : length results = length rows) by (by eapply Forall2_length).
  assert (Hlen_new : length (flag_rows db ∅ rows) = length new) by (by eapply Forall2_length).
  rewrite flag_rows_length in Hlen_new.
  split.
  - apply Forall2_same_length_lookup. split; [congruence|].
    intros i res c Hres Hc. destruct (Hrow_of i c Hc) as (attrs & Hrow & _).
    pose proof (Forall2_lookup_lr _ _ _ _ _ _ Hrows Hres Hrow) as Hok.
    apply company_row_ok in Hok as (Hid & Hname & _). done.
  - intros i c Hc. destruct (Hrow_of i c Hc) as (attrs & Hrow & ->).
    assert (Huniq : co_name c ∈ uniq).
    { apply elem_of_elements, elem_of_list_to_set, list_elem_of_fmap.
      eexists. split; [|by eapply list_elem_of_lookup_2]. done. }
    rewrite Hdb, name_to_duplicate_db_lookup, bool_decide_eq_true_2 by done.
    cbn [default]. rewrite (store_flag_true engine uniq _ Hids Huniq).
    apply or_iff_compat_l. split.
    + intros [Hempty|Hearlier]; [by apply not_elem_of_empty in Hempty|].
      apply list_elem_of_fmap in Hearlier as (row & Hname & Hin).
      apply elem_of_take in Hin as (j & Hj & Hlt).
      assert (Hjnew : is_Some (new !! j)).
      { apply lookup_lt_is_Some. rewrite <- Hlen_new. by eapply lookup_lt_Some. }
      destruct Hjnew as [c' Hc']. destruct (Hrow_of j c' Hc') as (attrs' & Hrow' & _).
      exists j, c'. split; [done|]. split; [done|].
      pose proof (eq_trans (eq_sym Hj) Hrow') as Heq. injection Heq as Heq.
      rewrite Hname, Heq. done.
    + intros (j & c' & Hlt & Hc' & Hname). right.
      destruct (Hrow_of j c' Hc') as (attrs' & Hrow' & _).
      apply list_elem_of_fmap. eexists. split; [|apply elem_of_take; eauto]. done.
Qed.

End PersistFacts.

(** C1, as the code has it. A page of companies that is persisted is
    appended to the store in order, each record under its id and name.
    When every company already in the store has a non-empty id, a record
    with a name gets its duplicate flag set exactly when the store holds
    an unflagged company of that name at that moment, or an earlier record
    of the page has that name. In particular a page [A(N); B(N); C(M)]
    persisted into an empty store is flagged false, true, false. *)
Theorem persist_company_duplicate_flags
    (rt : runtime) (engine : CompaniesDb.DatabaseEngine)
    (results : list Translator.hs_object) (engine' : CompaniesDb.DatabaseEngine) :
  (forall c, c ∈ engine -> CompaniesDb.co_id c <> []) ->
  Translator._persist_company rt engine results = Ok engine' ->
  (exists new,
      engine' = engine ++ new
      /\ Forall2 (fun res c => Translator.obj_id res = Some (CompaniesDb.co_id c)
                               /\ CompaniesDb.co_name c = PersistSpec.company_name res)
           results new
      /\ forall i c, new !! i = Some c -> is_Some (CompaniesDb.co_name c) ->
           (CompaniesDb.co_duplicate c = true <->
            (exists c0, c0 ∈ engine /\ CompaniesDb.co_name c0 = CompaniesDb.co_name c
                        /\ CompaniesDb.co_duplicate c0 = false)
            \/ (exists j c', (j < i)%nat /\ new !! j = Some c'
                             /\ CompaniesDb.co_name c' = CompaniesDb.co_name c)))
  /\ (PersistSpec.flags_of
        <$> Translator._persist_company rt []
              [Samples.hs_company (Some (ustr "a")) (Some (ustr "N"));
               Samples.hs_company (Some (ustr "b")) (Some (ustr "N"));
               Samples.hs_company (Some (ustr "c")) (Some (ustr "M"))])
     = Ok [false; true; false].
Proof.
  intros Hids Hpersist. split; [|vm_compute; reflexivity].
  destruct (persist_company_flags rt engine results engine' Hids Hpersist)
    as (new & Hnew & Hshape & Hflags).
  exists new. split; [done|]. split; [done|].
  intros i c Hc Hname. rewrite (Hflags i c Hc). apply or_iff_compat_r.
  split; intros (c0 & Hc0 & Heq & H); exists c0; tauto.
Qed.

(** A second page for a store that already holds Acme: the newcomer of
    that name is flagged, the other is not. *)
Lemma persist_company_duplicate_flags_witness :
  exists engine',
    Translator._persist_company (runtime_on 2025 12 20)
      [Samples.stored (ustr "c1") (Some (ustr "Acme")) false]
      [Samples.hs_company (Some (ustr "c2")) (Some (ustr "Acme"));
       Samples.hs_company (Some (ustr "c3")) (Some (ustr "Bolt"))]
    = Ok engine'
    /\ PersistSpec.flags_of engine' = [false; true; false]
    /\ exists new,
         engine' = [Samples.stored (ustr "c1") (Some (ustr "Acme")) false] ++ new
         /\ forall i c, new !! i = Some c -> is_Some (CompaniesDb.co_name c) ->
              (CompaniesDb.co_duplicate c = true <->
               (exists c0, c0 ∈ [Samples.stored (ustr "c1") (Some (ustr "Acme")) false]
                           /\ CompaniesDb.co_name c0 = CompaniesDb.co_name c
                           /\ CompaniesDb.co_duplicate c0 = false)
               \/ (exists j c', (j < i)%nat /\ new !! j = Some c'
                                /\ CompaniesDb.co_name c' = CompaniesDb.co_name c)).
Proof.
  destruct (Translator._persist_company (runtime_on 2025 12 20)
              [Samples.stored (ustr "c1") (Some (ustr "Acme")) false]
              [Samples.hs_company (Some (ustr "c2")) (Some (ustr "Acme"));
               Samples.hs_company (Some (ustr "c3")) (Some (ustr "Bolt"))])
    as [engine'|e] eqn:Hpersist.
  - exists engine'. split; [reflexivity|]. split.
    + assert (Hflags : PersistSpec.flags_of
                         <$> Translator._persist_company (runtime_on 2025 12 20)
                               [Samples.stored (ustr "c1") (Some (ustr "Acme")) false]
                               [Samples.hs_company (Some (ustr "c2")) (Some (ustr "Acme"));
                                Samples.hs_company (Some (ustr "c3")) (Some (ustr "Bolt"))]
                       = Ok [false; true; false]) by (vm_compute; reflexivity).
      rewrite Hpersist in Hflags. by injection Hflags.
    + destruct (persist_company_duplicate_flags (runtime_on 2025 12 20)
                  [Samples.stored (ustr "c1") (Some (ustr "Acme")) false]
                  [Samples.hs_company (Some (ustr "c2")) (Some (ustr "Acme"));
                   Samples.hs_company (Some (ustr "c3")) (Some (ustr "Bolt"))]
                  engine') as [(new & Hnew & _ & Hflags) _].
      * intros c Hc. apply elem_of_cons in Hc as [Hc|Hc].
        -- rewrite Hc. cbn [CompaniesDb.co_id Samples.stored]. discriminate.
        -- destruct (proj1 (elem_of_nil c) Hc).
      * exact Hpersist.
      * exists new. split; [exact Hnew|exact Hflags].
  - apply (f_equal is_ok) in Hpersist. vm_compute in Hpersist. discriminate Hpersist.
Defined.

(** C1, as stated, fails at the edges of what counts as a name or an id.
    A nameless company is not flagged although the store already holds an
    unflagged nameless one, while of two nameless companies of one page the
    second is flagged: whether or not null counts as a name, one of the two
    breaks the equivalence. A named company is not flagged either when the
    unflagged company of its name in the store has the empty id. (The lists
    are the duplicate flags of the whole store after the page.) *)
Lemma persist_company_null_name_or_empty_id :
  (PersistSpec.flags_of
     <$> Translator._persist_company (runtime_on 2025 12 20)
           [Samples.stored (ustr "1") None false]
           [Samples.hs_company (Some (ustr "2")) None])
  = Ok [false; false]
  /\ (PersistSpec.flags_of
        <$> Translator._persist_company (runtime_on 2025 12 20) []
              [Samples.hs_company (Some (ustr "1")) None;
               Samples.hs_company (Some (ustr "2")) None])
     = Ok [false; true]
  /\ (PersistSpec.flags_of
        <$> Translator._persist_company (runtime_on 2025 12 20)
              [Samples.stored (ustr "") (Some (ustr "N")) false]
              [Samples.hs_company (Some (ustr "2")) (Some (ustr "N"))])
     = Ok [false; false].
Proof. repeat split; vm_compute; reflexivity. Qed.

(** * Further properties *)

(** ** The mapping loop, field by field *)

Section BuildAttrsSteps.
Import FieldMapping Shapes.

Lemma build_attrs_from_dom (rt : runtime) (fields_map : list (pystr * FieldMap))
    (hs_record attrs0 : gmap pystr pyval) (ctx : gmap pystr pyval) (attrs : gmap pystr pyval)
    (label : pystr) :
  build_attrs_from rt fields_map hs_record attrs0 ctx = Ok attrs ->
  is_Some (attrs !! label) <-> is_Some (attrs0 !! label) \/ label ∈ fields_map.*1.
Proof.
  revert attrs0 ctx. induction fields_map as [|[l fld] rest IH]; intros attrs0 ctx; simpl.
  - intros [= <-]. split; [by left|]. intros [?|Hin]; [done|]. by apply elem_of_nil in Hin.
  - intros Hbuild.
    assert (Hstep : exists v ctx',
               build_attrs_from rt rest hs_record (<[l := v]> attrs0) ctx' = Ok attrs).
    { destruct (transform_fun fld) as [f|]; [|by eexists _, ctx].
      destruct (f rt _ ctx) as [[value|value new_ctx]|]; simpl in Hbuild; [| |done].
      - by exists value, ctx.
      - by exists value, (new_ctx ∪ ctx). }
    destruct Hstep as (v & ctx' & Hrest).
    rewrite (IH _ _ Hrest), lookup_insert_is_Some, elem_of_cons.
    destruct (decide (l = label)) as [->|Hne]; [split; intros _; [right|left]; by left|].
    split.
    + intros [[?|[_ ?]]|?]; [done|by left|right; by right].
    + intros [?|[?|?]]; [left; right; by split|congruence|by right].
Qed.

(** One turn of the loop, by what the mapping holds. *)
Lemma build_attrs_from_plain (rt : runtime) (l : pystr) (fld : FieldMap)
    (rest : list (pystr * FieldMap)) (hs_record attrs ctx : gmap pystr pyval) :
  transform_fun fld = None ->
  build_attrs_from rt ((l, fld) :: rest) hs_record attrs ctx
  = build_attrs_from rt rest hs_record (<[l := dict_get hs_record (src_field fld)]> attrs) ctx.
Proof. intros Hnone. simpl. by rewrite Hnone. Qed.

Lemma build_attrs_from_transform (rt : runtime) (l : pystr) (fld : FieldMap) (f : TransformFun)
    (rest : list (pystr * FieldMap)) (hs_record attrs ctx : gmap pystr pyval) :
  transform_fun fld = Some f ->
  build_attrs_from rt ((l, fld) :: rest) hs_record attrs ctx
  = match f rt (dict_get hs_record (src_field fld)) ctx with
    | Ok (Plain value) => build_attrs_from rt rest hs_record (<[l := value]> attrs) ctx
    | Ok (WithContext value new_ctx) =>
        build_attrs_from rt rest hs_record (<[l := value]> attrs) (new_ctx ∪ ctx)
    | Raise e => Raise e
    end.
Proof.
  intros Hsome. simpl. rewrite Hsome.
  by destruct (f rt _ ctx) as [[value|value new_ctx]|].
Qed.

Lemma build_attrs_from_app (rt : runtime) (before rest : list (pystr * FieldMap))
    (hs_record attrs0 ctx0 attrs : gmap pystr pyval) :
  build_attrs_from rt (before ++ rest) hs_record attrs0 ctx0 = Ok attrs ->
  exists attrs1 ctx1,
    build_attrs_from rt before hs_record attrs0 ctx0 = Ok attrs1
    /\ build_attrs_from rt rest hs_record attrs1 ctx1 = Ok attrs.
Proof.
  revert attrs0 ctx0. induction before as [|[l fld] before IH]; intros attrs0 ctx0; simpl.
  - intros Hrest. by exists attrs0, ctx0.
  - destruct (transform_fun fld) as [f|]; [|apply IH].
    destruct (f rt _ ctx0) as [[value|value new_ctx]|]; simpl; [apply IH..|done].
Qed.

(** The three address columns of a table: a transform that splits the
    address, then the two that read what it left in the context. *)
Lemma build_attrs_from_address (rt : runtime) (street_label city_label zip_label : pystr)
    (rest : list (pystr * FieldMap)) (hs_record attrs0 ctx0 attrs : gmap pystr pyval) :
  street_label <> city_label -> street_label <> zip_label -> city_label <> zip_label ->
  street_label ∉ rest.*1 -> city_label ∉ rest.*1 -> zip_label ∉ rest.*1 ->
  build_attrs_from rt
    ((street_label, {| src_field := ustr "address";
                       transform_fun := Some _split_street_from_city_zip_code;
                       required := false |})
     :: (city_label, {| src_field := ustr "address";
                        transform_fun := Some (ctx_item (ustr "city")); required := false |})
     :: (zip_label, {| src_field := ustr "address";
                       transform_fun := Some (ctx_item (ustr "zip_code"));
                       required := false |})
     :: rest) hs_record attrs0 ctx0 = Ok attrs ->
  exists city street zip_code,
    call_parse_address rt (dict_get hs_record (ustr "address")) = Ok (city, street, zip_code)
    /\ attrs !! street_label = Some (of_text street)
    /\ attrs !! city_label = Some (of_text city)
    /\ attrs !! zip_label = Some (of_text zip_code).
Proof.
  intros Hsc Hsz Hcz Hs Hc Hz.
  erewrite build_attrs_from_transform by reflexivity.
  cbn [src_field]. unfold _split_street_from_city_zip_code.
  destruct (call_parse_address rt _) as [[[city street] zip_code]|]; [|done].
  cbn [mbind result_bind].
  erewrite build_attrs_from_transform by reflexivity.
  unfold ctx_item at 1.
  rewrite (lookup_union_Some_l _ ctx0 (ustr "city") (of_text city))
    by apply lookup_insert_eq.
  erewrite build_attrs_from_transform by reflexivity.
  unfold ctx_item at 1.
  rewrite (lookup_union_Some_l _ ctx0 (ustr "zip_code") (of_text zip_code)); cycle 1.
  { rewrite lookup_insert_ne by done. apply lookup_insert_eq. }
  intros Hrest. exists city, street, zip_code. split; [done|].
  rewrite !(build_attrs_from_other _ _ _ _ _ _ _ Hrest) by done.
  rewrite !lookup_insert_ne by done. rewrite lookup_insert_eq.
  rewrite lookup_insert_ne by done. rewrite !lookup_insert_eq. done.
Qed.

End BuildAttrsSteps.

Section BuildAttrsTotality.
Import FieldMapping Shapes.

Lemma build_attrs_from_all_plain (rt : runtime) (rest : list (pystr * FieldMap))
    (hs_record attrs ctx : gmap pystr pyval) :
  Forall (fun lf : pystr * FieldMap => transform_fun lf.2 = None) rest ->
  is_ok (build_attrs_from rt rest hs_record attrs ctx) = true.
Proof.
  intros Hplain. revert attrs. induction Hplain as [|[l fld] rest Hfld _ IH]; intros attrs.
  - done.
  - simpl in Hfld. rewrite build_attrs_from_plain by done. apply IH.
Qed.

Lemma call_parse_address_ok (rt : runtime) (v : pyval) :
  is_ok (call_parse_address rt v) = str_or_falsy v.
Proof.
  destruct v as [|[]|z|s|[|x l]|[|kv kvs]]; simpl; try done.
  by destruct (Z.eqb z 0).
Qed.

Lemma get_company_id_ok (rt : runtime) (v : pyval) (ctx : gmap pystr pyval) :
  is_ok (_get_company_id_from_assoc rt v ctx) = assoc_shape v.
Proof.
  unfold _get_company_id_from_assoc.
  destruct v as [|[]|z|[|c s]|[|[] l]|[|kv kvs]]; simpl; try done.
  by destruct (Z.eqb z 0).
Qed.

Lemma table_get_ok (table : list (pystr * pystr)) (v : pyval) :
  is_ok (table_get table v) = hashable v.
Proof. by destruct v. Qed.

Lemma get_closedate_ok (rt : runtime) (v : pyval) (ctx : gmap pystr pyval) :
  is_ok (_get_closedate rt v ctx) = str_or_falsy v.
Proof.
  unfold _get_closedate.
  destruct v as [|[]|z|[|c s]|[|x l]|[|kv kvs]]; simpl; try done.
  by destruct (Z.eqb z 0).
Qed.

Lemma address_columns_ok (rt : runtime) (street_label city_label zip_label : pystr)
    (rest : list (pystr * FieldMap)) (hs_record attrs0 ctx0 : gmap pystr pyval) :
  Forall (fun lf : pystr * FieldMap => transform_fun lf.2 = None) rest ->
  is_ok (build_attrs_from rt
           ((street_label, {| src_field := ustr "address";
                              transform_fun := Some _split_street_from_city_zip_code;
                              required := false |})
            :: (city_label, {| src_field := ustr "address";
                               transform_fun := Some (ctx_item (ustr "city"));
                               required := false |})
            :: (zip_label, {| src_field := ustr "address";
                              transform_fun := Some (ctx_item (ustr "zip_code"));
                              required := false |})
            :: rest) hs_record attrs0 ctx0)
  = str_or_falsy (dict_get hs_record (ustr "address")).
Proof.
  intros Hplain. rewrite <- (call_parse_address_ok rt).
  erewrite build_attrs_from_transform by reflexivity.
  cbn [src_field]. unfold _split_street_from_city_zip_code.
  destruct (call_parse_address rt _) as [[[city street] zip_code]|]; [|done].
  cbn [mbind result_bind].
  erewrite build_attrs_from_transform by reflexivity.
  unfold ctx_item at 1.
  rewrite (lookup_union_Some_l _ ctx0 (ustr "city") (of_text city))
    by apply lookup_insert_eq.
  erewrite build_attrs_from_transform by reflexivity.
  unfold ctx_item at 1.
  rewrite (lookup_union_Some_l _ ctx0 (ustr "zip_code") (of_text zip_code)); cycle 1.
  { rewrite lookup_insert_ne by done. apply lookup_insert_eq. }
  by apply build_attrs_from_all_plain.
Qed.

Lemma build_attrs_account_ok (rt : runtime) (hs_record : gmap pystr pyval) :
  is_ok (build_attrs rt ACCOUNT_FIELDS_MAP hs_record)
  = is_str (dict_get hs_record (ustr "domain"))
    && str_or_falsy (dict_get hs_record (ustr "address")).
Proof.
  rewrite build_attrs_account_domain.
  destruct (dict_get hs_record (ustr "domain")) as [|b|z|d|l|kvs]; try done.
  cbn [is_str andb]. unfold ACCOUNT_FIELDS_MAP. cbn [drop].
  apply address_columns_ok. by repeat constructor.
Qed.

Lemma build_attrs_contact_ok (rt : runtime) (hs_record : gmap pystr pyval) :
  is_ok (build_attrs rt CONTACT_FIELDS_MAP hs_record)
  = assoc_shape (dict_get hs_record (ustr "associations_companies_results"))
    && str_or_falsy (dict_get hs_record (ustr "address")).
Proof.
  unfold build_attrs, CONTACT_FIELDS_MAP.
  erewrite build_attrs_from_transform by reflexivity. cbn [src_field].
  rewrite <- (get_company_id_ok rt _ ∅).
  destruct (_get_company_id_from_assoc rt _ ∅) as [[value|value new_ctx]|] eqn:Hid; [| |done].
  - cbn [is_ok andb]. do 5 (rewrite build_attrs_from_plain by reflexivity).
    apply address_columns_ok. by repeat constructor.
  - unfold _get_company_id_from_assoc in Hid.
    destruct (truthy _); [|done]. by repeat case_match.
Qed.

Lemma build_attrs_deal_ok (rt : runtime) (hs_record : gmap pystr pyval) :
  is_ok (build_attrs rt DEAL_FIELDS_MAP hs_record)
  = assoc_shape (dict_get hs_record (ustr "associations_companies_results"))
    && hashable (dict_get hs_record (ustr "dealtype"))
    && hashable (dict_get hs_record (ustr "dealstage"))
    && str_or_falsy (dict_get hs_record (ustr "closedate")).
Proof.
  unfold build_attrs, DEAL_FIELDS_MAP.
  erewrite build_attrs_from_transform by reflexivity. cbn [src_field].
  rewrite <- (get_company_id_ok rt _ ∅).
  destruct (_get_company_id_from_assoc rt _ ∅) as [[value|value new_ctx]|] eqn:Hid; [| |done].
  - cbn [is_ok andb]. rewrite build_attrs_from_plain by reflexivity.
    erewrite build_attrs_from_transform by reflexivity. cbn [src_field].
    rewrite <- (table_get_ok DEALTYPE_MAP).
    destruct (table_get DEALTYPE_MAP _) as [dealtype|]; [|done].
    cbn [fmap result_fmap is_ok andb].
    erewrite build_attrs_from_transform by reflexivity. cbn [src_field].
    rewrite <- (table_get_ok DEALSTAGE_MAP).
    destruct (table_get DEALSTAGE_MAP _) as [dealstage|]; [|done].
    cbn [fmap result_fmap is_ok andb].
    rewrite build_attrs_from_plain by reflexivity.
    erewrite build_attrs_from_transform by reflexivity. cbn [src_field].
    rewrite <- (get_closedate_ok rt _ ∅).
    by destruct (_get_closedate rt _ ∅) as [[closedate|closedate new_ctx]|].
  - unfold _get_company_id_from_assoc in Hid.
    destruct (truthy _); [|done]. by repeat case_match.
Qed.

End BuildAttrsTotality.

Section DownloadFacts.
Import FieldMapping DictTools Download DownloadSpec Shapes.

Lemma dict_get_list_to_map (kvs : list (pystr * pyval)) (key : pystr) :
  dict_get (list_to_map kvs) key = assoc_get key kvs.
Proof.
  unfold dict_get. induction kvs as [|[k v] kvs IH]; [done|].
  change (list_to_map ((k, v) :: kvs)) with (<[k := v]> (list_to_map kvs : gmap pystr pyval)).
  simpl. destruct (decide (k = key)) as [->|Hne].
  - by rewrite lookup_insert_eq.
  - by rewrite lookup_insert_ne.
Qed.

Lemma get_nested_nonempty (json : pyval) (keypath : list pystr) :
  keypath <> [] ->
  exists value keypath_left,
    get_nested json keypath = Nested value keypath_left
    /\ keypath_left `suffix_of` keypath
    /\ (keypath_left <> [] -> value = VNone).
Proof.
  revert json. induction keypath as [|key keypath IH]; intros json Hne; [done|].
  destruct json as [|b|z|s|l|kvs]; try (eexists _, _; by repeat split).
  cbn [get_nested]. destruct keypath as [|key' keypath].
  - eexists _, _. repeat split; [|done]. by exists [key].
  - destruct (IH (assoc_get key kvs)) as (value & left & Hleft & Hsuffix & Hnone); [done|].
    exists value, left. split; [exact Hleft|]. split; [|exact Hnone].
    by apply suffix_cons_r.
Qed.

Lemma child_attrs_company_id (rt : runtime) (fields_map rest : list (pystr * FieldMap))
    (res : list (pystr * pyval)) (attrs : gmap pystr pyval) :
  fields_map
  = (COMPANY_ID_COLUMN,
      {| src_field := ustr "associations_companies_results";
         transform_fun := Some _get_company_id_from_assoc; required := true |}) :: rest ->
  COMPANY_ID_COLUMN ∉ rest.*1 ->
  child_attrs rt fields_map res = Ok attrs ->
  attrs !! COMPANY_ID_COLUMN = Some (first_association_id res).
Proof.
  intros -> Hrest. unfold child_attrs, first_association_id.
  destruct (get_nested (VDict res) _) as [companies left|]; [|done].
  destruct (assoc_get (ustr "properties") res) as [| | | | |kvs]; try done.
  unfold build_attrs. erewrite build_attrs_from_transform by reflexivity.
  cbn [src_field]. unfold dict_get at 1. rewrite lookup_insert_eq. cbn [default].
  unfold _get_company_id_from_assoc.
  destruct companies as [|[]|z|[|c s]|[|[| | | | |first] l]|[|kv kvs']]; simpl; try done.
  all: try (intros Hbuild; rewrite (build_attrs_from_other _ _ _ _ _ _ _ Hbuild Hrest);
            by rewrite lookup_insert_eq).
  destruct (Z.eqb z 0); simpl; [|done].
  intros Hbuild. rewrite (build_attrs_from_other _ _ _ _ _ _ _ Hbuild Hrest).
  by rewrite lookup_insert_eq.
Qed.

End DownloadFacts.

(** X1. Whatever the table, a record that [build_attrs] maps comes out with
    exactly the target labels of the table as its keys: every declared
    column is there, also when its value is null, and nothing else is. *)
Theorem build_attrs_keys_are_labels
    (rt : runtime) (fields_map : list (pystr * FieldMapping.FieldMap))
    (hs_record attrs : gmap pystr pyval) :
  FieldMapping.build_attrs rt fields_map hs_record = Ok attrs ->
  forall label, is_Some (attrs !! label) <-> label ∈ fields_map.*1.
Proof.
  intros Hbuild label. unfold FieldMapping.build_attrs in Hbuild.
  rewrite (build_attrs_from_dom _ _ _ _ _ _ label Hbuild), lookup_empty.
  split; [intros [[? ?]|?]; done|by right].
Qed.

(** The account table on a company that has only a name and a domain. *)
Lemma build_attrs_keys_are_labels_witness :
  exists attrs,
    FieldMapping.build_attrs (runtime_on 2025 12 20) FieldMapping.ACCOUNT_FIELDS_MAP
      (of_text <$> Translator.obj_properties
                     (Samples.hs_company (Some (ustr "c1")) (Some (ustr "Acme"))))
    = Ok attrs
    /\ forall label, is_Some (attrs !! label) <-> label ∈ FieldMapping.ACCOUNT_FIELDS_MAP.*1.
Proof.
  destruct (FieldMapping.build_attrs (runtime_on 2025 12 20) FieldMapping.ACCOUNT_FIELDS_MAP
              (of_text <$> Translator.obj_properties
                             (Samples.hs_company (Some (ustr "c1")) (Some (ustr "Acme")))))
    as [attrs|e] eqn:Hbuild.
  - exists attrs. split; [reflexivity|].
    exact (build_attrs_keys_are_labels _ _ _ _ Hbuild).
  - apply (f_equal is_ok) in Hbuild. vm_compute in Hbuild. discriminate Hbuild.
Defined.

(** X2. The address is parsed once per record and shared through the
    context: in a mapped account the billing street, city and postal code
    are the three components [parse_address] returns for the record's
    address (all null when it does not parse), and likewise the mailing
    columns of a mapped contact. *)
Theorem address_columns_come_from_one_parse :
  (forall rt hs_record attrs,
      FieldMapping.build_attrs rt FieldMapping.ACCOUNT_FIELDS_MAP hs_record = Ok attrs ->
      exists city street zip_code,
        FieldMapping.call_parse_address rt (dict_get hs_record (ustr "address"))
        = Ok (city, street, zip_code)
        /\ attrs !! ustr "Account Billing Street" = Some (of_text street)
        /\ attrs !! ustr "Account Billing City" = Some (of_text city)
        /\ attrs !! ustr "Account Billing Zip/Postal Code" = Some (of_text zip_code))
  /\ (forall rt hs_record attrs,
         FieldMapping.build_attrs rt FieldMapping.CONTACT_FIELDS_MAP hs_record = Ok attrs ->
         exists city street zip_code,
           FieldMapping.call_parse_address rt (dict_get hs_record (ustr "address"))
           = Ok (city, street, zip_code)
           /\ attrs !! ustr "Contact Mailing Street" = Some (of_text street)
           /\ attrs !! ustr "Contact Mailing City" = Some (of_text city)
           /\ attrs !! ustr "Contact Mailing Zip/Postal Code" = Some (of_text zip_code))
  /\ (forall rt,
         (fun attrs : gmap pystr pyval =>
            (attrs !! ustr "Account Billing Street", attrs !! ustr "Account Billing City",
             attrs !! ustr "Account Billing Zip/Postal Code"))
           <$> FieldMapping.build_attrs rt FieldMapping.ACCOUNT_FIELDS_MAP
                 (<[ustr "domain" := VStr (ustr "acme.example")]>
                    (<[ustr "address" := VStr (ustr "Baker Street 10, SW1A 1AA London")]> ∅))
         = Ok (Some (VStr (ustr "Baker Street 10")), Some (VStr (ustr "London")),
               Some (VStr (ustr "SW1A 1AA")))).
Proof.
  split; [|split].
  - intros rt hs_record attrs Hbuild.
    change FieldMapping.ACCOUNT_FIELDS_MAP
      with (take 2 FieldMapping.ACCOUNT_FIELDS_MAP ++ drop 2 FieldMapping.ACCOUNT_FIELDS_MAP)
      in Hbuild.
    apply build_attrs_from_app in Hbuild as (attrs1 & ctx1 & _ & Hrest).
    apply (build_attrs_from_address _ _ _ _ _ _ _ _ _) in Hrest; try done.
    all: apply (bool_decide_unpack _); vm_compute; exact I.
  - intros rt hs_record attrs Hbuild.
    change FieldMapping.CONTACT_FIELDS_MAP
      with (take 6 FieldMapping.CONTACT_FIELDS_MAP ++ drop 6 FieldMapping.CONTACT_FIELDS_MAP)
      in Hbuild.
    apply build_attrs_from_app in Hbuild as (attrs1 & ctx1 & _ & Hrest).
    apply (build_attrs_from_address _ _ _ _ _ _ _ _ _) in Hrest; try done.
    all: apply (bool_decide_unpack _); vm_compute; exact I.
  - intros rt. vm_compute. reflexivity.
Qed.

(** X3. When the mapping raises and when it does not: with the account
    table exactly when [domain] is a str and [address] is a str or falsy;
    with the contact table exactly when the associations are falsy or a
    list headed by an object, and [address] is a str or falsy; with the
    deal table when moreover [dealtype] and [dealstage] are hashable and
    [closedate] is a str or falsy. *)
Theorem build_attrs_succeeds_exactly :
  (forall rt hs_record,
      is_ok (FieldMapping.build_attrs rt FieldMapping.ACCOUNT_FIELDS_MAP hs_record)
      = Shapes.is_str (dict_get hs_record (ustr "domain"))
        && Shapes.str_or_falsy (dict_get hs_record (ustr "address")))
  /\ (forall rt hs_record,
         is_ok (FieldMapping.build_attrs rt FieldMapping.CONTACT_FIELDS_MAP hs_record)
         = Shapes.assoc_shape (dict_get hs_record (ustr "associations_companies_results"))
           && Shapes.str_or_falsy (dict_get hs_record (ustr "address")))
  /\ (forall rt hs_record,
         is_ok (FieldMapping.build_attrs rt FieldMapping.DEAL_FIELDS_MAP hs_record)
         = Shapes.assoc_shape (dict_get hs_record (ustr "associations_companies_results"))
           && Shapes.hashable (dict_get hs_record (ustr "dealtype"))
           && Shapes.hashable (dict_get hs_record (ustr "dealstage"))
           && Shapes.str_or_falsy (dict_get hs_record (ustr "closedate"))).
Proof.
  split; [exact build_attrs_account_ok|].
  split; [exact build_attrs_contact_ok|exact build_attrs_deal_ok].
Qed.

(** X4. The parent id stored with a contact or a deal is the id of the
    first company listed under associations.companies.results of the
    HubSpot object, and null when nothing is listed; further associations
    do not reach the row. *)
Theorem child_row_keeps_first_association :
  (forall rt res attrs,
      Download.child_attrs rt FieldMapping.CONTACT_FIELDS_MAP res = Ok attrs ->
      attrs !! FieldMapping.COMPANY_ID_COLUMN = Some (DownloadSpec.first_association_id res))
  /\ (forall rt res attrs,
         Download.child_attrs rt FieldMapping.DEAL_FIELDS_MAP res = Ok attrs ->
         attrs !! FieldMapping.COMPANY_ID_COLUMN = Some (DownloadSpec.first_association_id res))
  /\ (forall rt,
         (fun rows : list (gmap pystr pyval) =>
            (fun attrs : gmap pystr pyval => attrs !! FieldMapping.COMPANY_ID_COLUMN) <$> rows)
           <$> Download._persist_contact_rows rt
                 [DownloadSpec.hs_contact (VStr (ustr "Ann")) (VStr (ustr "Lee"))
                    [DownloadSpec.company_ref (ustr "c1"); DownloadSpec.company_ref (ustr "c2")];
                  DownloadSpec.hs_contact (VStr (ustr "Bob")) VNone []]
         = Ok [Some (VStr (ustr "c1")); Some VNone]).
Proof.
  split; [|split].
  - intros rt res attrs.
    apply (child_attrs_company_id rt _ (List.tl FieldMapping.CONTACT_FIELDS_MAP));
      [reflexivity|]. apply (bool_decide_unpack _). vm_compute. exact I.
  - intros rt res attrs.
    apply (child_attrs_company_id rt _ (List.tl FieldMapping.DEAL_FIELDS_MAP));
      [reflexivity|]. apply (bool_decide_unpack _). vm_compute. exact I.
  - intros rt. vm_compute. reflexivity.
Qed.

(** X5. [get_nested] never raises on a key path that is not empty: it
    returns a value and leaves the caller's list shortened from the front;
    when keys are left over, the descent met something that is not an
    object and the value is null. On an empty key path it raises
    IndexError exactly when the value is an object. *)
Theorem get_nested_total :
  (forall json keypath,
      keypath <> [] ->
      exists value keypath_left,
        DictTools.get_nested json keypath = DictTools.Nested value keypath_left
        /\ keypath_left `suffix_of` keypath
        /\ (keypath_left <> [] -> value = VNone))
  /\ (forall json,
         DictTools.get_nested json [] = DictTools.NestedIndexError
         <-> exists kvs, json = VDict kvs).
Proof.
  split; [exact get_nested_nonempty|].
  intros json. destruct json as [|b|z|s|l|kvs]; simpl; split; try done.
  all: try (intros [kvs' Hdict]; discriminate Hdict).
  intros _. by exists kvs.
Qed.

Section StoreFacts.
Import CompaniesDb CompaniesDbSingle StoreSpec Shapes.

Lemma insert_records_iff (table : DatabaseEngine) (records : list entry)
    (table' : DatabaseEngine) :
  insert_records table records = Ok table' <->
  exists new,
    mapM row_of records = Some new
    /\ NoDup (co_id <$> new)
    /\ (forall c, c ∈ new -> co_id c ∉ co_id <$> table)
    /\ table' = table ++ new.
Proof.
  revert table. induction records as [|[[[[cid|] attrs] name] dup] rest IH]; intros table.
  - simpl. split.
    + intros [= <-]. exists []. repeat split; [constructor|by intros c ?%elem_of_nil|].
      by rewrite app_nil_r.
    + intros (new & [= <-] & _ & _ & ->). by rewrite app_nil_r.
  - cbn [insert_records]. case_bool_decide as Hin.
    + split; [done|]. intros (new & Hnew & _ & Hfresh & _). exfalso.
      cbn in Hnew. destruct (mapM row_of rest) as [new'|]; [|done].
      injection Hnew as <-. apply (Hfresh _ (list_elem_of_here _ _)). exact Hin.
    + rewrite IH. split.
      * intros (new & Hnew & Hnodup & Hfresh & ->).
        eexists (_ :: new). split; [cbn; by rewrite Hnew|].
        split; [|split; [|by rewrite <- app_assoc]].
        -- cbn. constructor; [|done]. intros Hdup.
           apply list_elem_of_fmap in Hdup as (c & Hid & Hc).
           apply (Hfresh c Hc). rewrite fmap_app, elem_of_app. right.
           rewrite <- Hid. cbn. left.
        -- intros c [->|Hc]%elem_of_cons; [done|].
           intros Hold. apply (Hfresh c Hc). rewrite fmap_app, elem_of_app. by left.
      * intros (new & Hnew & Hnodup & Hfresh & ->).
        cbn in Hnew. destruct (mapM row_of rest) as [new'|]; [|done].
        injection Hnew as <-. cbn in Hnodup. apply list.NoDup_cons in Hnodup as [Hhead Hnodup].
        exists new'. split; [done|]. split; [done|]. split; [|by rewrite <- app_assoc].
        intros c Hc. rewrite fmap_app, elem_of_app. intros [Hold|Hhere].
        -- apply (Hfresh c); [by right|done].
        -- cbn in Hhere. apply elem_of_cons in Hhere as [Heq|Hnil];
             [|by apply elem_of_nil in Hnil].
           apply Hhead. rewrite <- Heq. apply list_elem_of_fmap. by exists c.
  - cbn [insert_records]. split; [done|]. by intros (new & Hnew & _).
Qed.

Lemma check_attrs_iff (id_attrs_list : list entry) :
  check_attrs id_attrs_list = Ok tt
  <-> Forall (fun r : entry => r.1.1.2 <> ∅) id_attrs_list.
Proof.
  induction id_attrs_list as [|[[[cid attrs] name] dup] rest IH]; simpl.
  - split; [constructor|done].
  - case_bool_decide as Hempty.
    + split; [done|]. by intros [? _]%list.Forall_cons.
    + rewrite IH. split; [by constructor|by intros [_ ?]%list.Forall_cons].
Qed.

Lemma check_attrs_raises (id_attrs_list : list entry) (e : exn) :
  check_attrs id_attrs_list = Raise e -> exists message, e = ValueError message.
Proof.
  induction id_attrs_list as [|[[[cid attrs] name] dup] rest IH]; simpl; [done|].
  case_bool_decide; [|exact IH]. intros [= <-]. eauto.
Qed.

Lemma find_id_app (engine new : DatabaseEngine) (id : option pystr) :
  List.find (fun c => bool_decide (Some (co_id c) = id)) (engine ++ new)
  = match List.find (fun c => bool_decide (Some (co_id c) = id)) engine with
    | Some c => Some c
    | None => List.find (fun c => bool_decide (Some (co_id c) = id)) new
    end.
Proof.
  induction engine as [|c engine IH]; [done|]. simpl.
  by destruct (bool_decide (Some (co_id c) = id)).
Qed.

Lemma find_id_none (engine : DatabaseEngine) (id : pystr) :
  id ∉ co_id <$> engine ->
  List.find (fun c => bool_decide (Some (co_id c) = Some id)) engine = None.
Proof.
  intros Hfresh. destruct (List.find _ engine) as [c|] eqn:Hfind; [|done].
  apply find_some in Hfind as [Hin Heq]. apply bool_decide_eq_true in Heq.
  injection Heq as Heq. destruct Hfresh. rewrite <- Heq.
  apply list_elem_of_fmap_2. by apply list_elem_of_In.
Qed.

Lemma find_id_unique (new : DatabaseEngine) (c : company) :
  NoDup (co_id <$> new) -> c ∈ new ->
  List.find (fun c' => bool_decide (Some (co_id c') = Some (co_id c))) new = Some c.
Proof.
  induction new as [|c' new IH]; [by intros _ ?%elem_of_nil|].
  cbn. intros [Hhead Hnodup]%list.NoDup_cons [->|Hin]%elem_of_cons.
  - by rewrite bool_decide_eq_true_2.
  - rewrite bool_decide_eq_false_2; [by apply IH|].
    intros [= Heq]. apply Hhead. rewrite Heq. by apply list_elem_of_fmap_2.
Qed.

Lemma mapM_row_of_elem (records : list entry) (new : DatabaseEngine) (r : entry) :
  mapM row_of records = Some new -> r ∈ records ->
  exists c, row_of r = Some c /\ c ∈ new.
Proof.
  revert new. induction records as [|r' records IH]; intros new; [by intros _ ?%elem_of_nil|].
  cbn. destruct (row_of r') as [c'|] eqn:Hr'; [|done]. cbn.
  destruct (mapM row_of records) as [new'|]; [|done]. cbn.
  intros [= <-] [->|Hin]%elem_of_cons.
  - exists c'. split; [done|left].
  - destruct (IH new' eq_refl Hin) as (c & Hc & Hcin). exists c. split; [done|by right].
Qed.

Lemma get_company_kept (engine new : DatabaseEngine) (id : option pystr)
    (found : found_company) :
  get_company engine id = Ok found -> get_company (engine ++ new) id = Ok found.
Proof.
  unfold get_company. destruct (text_truthy id); [|done].
  rewrite find_id_app. by destruct (List.find _ engine).
Qed.

Lemma first_wins_first_unflagged (engine : DatabaseEngine) :
  first_wins engine ->
  forall i c, engine !! i = Some c -> is_Some (co_name c) ->
    exists j c0, (j <= i)%nat /\ engine !! j = Some c0
                 /\ co_name c0 = co_name c /\ co_duplicate c0 = false.
Proof.
  intros Hfirst i. induction (lt_wf i) as [i _ IH]. intros c Hc Hname.
  destruct (co_duplicate c) eqn:Hdup.
  - apply (Hfirst i c Hc Hname) in Hdup as (j & c' & Hlt & Hc' & Hsame).
    destruct (IH j Hlt c' Hc') as (k & c0 & Hle & Hc0 & Hsame0 & Hflag).
    { by rewrite Hsame. }
    exists k, c0. split; [lia|]. split; [done|]. split; [congruence|done].
  - exists i, c. by repeat split.
Qed.

Lemma first_wins_app (engine new : DatabaseEngine) :
  first_wins engine ->
  (forall i c, new !! i = Some c ->
     (co_duplicate c = true <->
      (exists c0, c0 ∈ engine /\ co_name c0 = co_name c /\ is_Some (co_name c)
                  /\ co_duplicate c0 = false)
      \/ (exists j c', (j < i)%nat /\ new !! j = Some c' /\ co_name c' = co_name c))) ->
  first_wins (engine ++ new).
Proof.
  intros Hfirst Hnew i c Hc Hname.
  destruct (decide (i < length engine)%nat) as [Hlt|Hge].
  - rewrite lookup_app_l in Hc by done. rewrite (Hfirst i c Hc Hname).
    split; intros (j & c' & Hj & Hc' & Hsame); exists j, c'; (split; [done|]); (split; [|done]).
    + rewrite lookup_app_l by lia. done.
    + rewrite lookup_app_l in Hc' by lia. done.
  - rewrite lookup_app_r in Hc by lia. rewrite (Hnew _ c Hc). split.
    + intros [(c0 & Hc0 & Hsame & _ & _)|(j & c' & Hj & Hc' & Hsame)].
      * apply list_elem_of_lookup in Hc0 as [j Hj]. exists j, c0.
        split; [apply lookup_lt_Some in Hj; lia|]. split; [|done].
        rewrite lookup_app_l by (by eapply lookup_lt_Some). done.
      * exists (length engine + j)%nat, c'. split; [lia|]. split; [|done].
        rewrite lookup_app_r by lia. rewrite <- Hc'. f_equal. lia.
    + intros (j & c' & Hj & Hc' & Hsame).
      destruct (decide (j < length engine)%nat) as [Hold|Hnew'].
      * rewrite lookup_app_l in Hc' by done. left.
        destruct (first_wins_first_unflagged engine Hfirst j c' Hc')
          as (k & c0 & _ & Hc0 & Hsame0 & Hflag); [by rewrite Hsame|].
        exists c0. split; [by eapply list_elem_of_lookup_2|].
        split; [congruence|]. split; done.
      * rewrite lookup_app_r in Hc' by lia. right.
        exists (j - length engine)%nat, c'. split; [lia|]. split; done.
Qed.

Lemma first_of_name_first (engine : DatabaseEngine) (name : option pystr) :
  match first_of_name engine name with
  | Some c =>
      exists i, engine !! i = Some c /\ co_name c = name
                /\ forall j c', (j < i)%nat -> engine !! j = Some c' -> co_name c' <> name
  | None => forall c, c ∈ engine -> co_name c <> name
  end.
Proof.
  unfold first_of_name. induction engine as [|c engine IH]; simpl.
  - by intros c ?%elem_of_nil.
  - case_bool_decide as Hname.
    + exists 0%nat. split; [done|]. split; [done|]. intros j c' Hj. lia.
    + destruct (List.find _ engine) as [c1|].
      * destruct IH as (i & Hi & Hsame & Hbefore). exists (S i). split; [done|].
        split; [done|]. intros [|j] c' Hj; simpl.
        -- by intros [= <-].
        -- apply Hbefore. lia.
      * intros c' [->|Hin]%elem_of_cons; [done|by apply IH].
Qed.

End StoreFacts.

(** X6. [add_companies] succeeds exactly when the list is not empty, no
    record has empty attrs, no key is null, the keys differ from one
    another and from every key in the table; the records are then appended
    in order. An empty attrs is reported as a ValueError before any key is
    looked at. *)
Theorem add_companies_succeeds_exactly :
  (forall engine id_attrs_list engine',
      CompaniesDb.add_companies engine id_attrs_list = Ok engine' <->
      id_attrs_list <> []
      /\ Forall (fun r : CompaniesDb.entry => r.1.1.2 <> ∅) id_attrs_list
      /\ exists new,
           mapM StoreSpec.row_of id_attrs_list = Some new
           /\ NoDup (CompaniesDb.co_id <$> new)
           /\ (forall c, c ∈ new -> CompaniesDb.co_id c ∉ CompaniesDb.co_id <$> engine)
           /\ engine' = engine ++ new)
  /\ (forall engine id_attrs_list,
         ~ Forall (fun r : CompaniesDb.entry => r.1.1.2 <> ∅) id_attrs_list ->
         exists message,
           CompaniesDb.add_companies engine id_attrs_list = Raise (ValueError message)).
Proof.
  split.
  - intros engine id_attrs_list engine'. unfold CompaniesDb.add_companies.
    destruct id_attrs_list as [|r rest]; [split; [done|by intros [? _]]|].
    rewrite <- check_attrs_iff.
    destruct (CompaniesDb.check_attrs (r :: rest)) as [[]|e]; cbn [mbind result_bind].
    + rewrite insert_records_iff. split; [intros Hnew; by repeat split|].
      by intros (_ & _ & Hnew).
    + split; [done|]. by intros (_ & ? & _).
  - intros engine id_attrs_list Hempty. unfold CompaniesDb.add_companies.
    destruct id_attrs_list as [|r rest]; [destruct Hempty; constructor|].
    destruct (CompaniesDb.check_attrs (r :: rest)) as [[]|e] eqn:Hcheck.
    + destruct Hempty. by apply check_attrs_iff.
    + apply check_attrs_raises in Hcheck as [message ->]. by exists message.
Qed.

(** X7. What is added can be read back: after [add_companies] or
    [add_company], [get_company] returns the attrs and the flag of every
    record added under a non-empty key, every company that could be read
    before reads the same, and the keys of the table stay distinct. A
    record stored under the empty key is never returned: [get_company]
    refuses the empty id. *)
Theorem added_companies_read_back :
  (forall engine id_attrs_list engine',
      CompaniesDb.add_companies engine id_attrs_list = Ok engine' ->
      (forall id attrs name duplicate,
          (Some id, attrs, name, duplicate) ∈ id_attrs_list -> id <> [] ->
          CompaniesDb.get_company engine' (Some id)
          = Ok {| CompaniesDb.attrs := attrs; CompaniesDb.duplicate := duplicate |})
      /\ (forall id found,
             CompaniesDb.get_company engine id = Ok found ->
             CompaniesDb.get_company engine' id = Ok found)
      /\ (NoDup (CompaniesDb.co_id <$> engine) -> NoDup (CompaniesDb.co_id <$> engine')))
  /\ (forall engine id attrs name duplicate engine',
         CompaniesDbSingle.add_company engine id attrs name duplicate = Ok engine' <->
         CompaniesDb.add_companies engine [(id, attrs, name, duplicate)] = Ok engine')
  /\ (forall engine, is_ok (CompaniesDb.get_company engine (Some [])) = false)
  /\ (CompaniesDb.get_company Samples.store (Some (ustr "c3"))
      = Ok {| CompaniesDb.attrs := Samples.account (Some (ustr "Acme"));
              CompaniesDb.duplicate := true |}).
Proof.
  split; [|split; [|split]].
  - intros engine id_attrs_list engine' Hadd.
    apply add_companies_ok, insert_records_iff in Hadd
      as (new & Hnew & Hnodup & Hfresh & ->).
    split; [|split].
    + intros id attrs name duplicate Hin Hid.
      destruct (mapM_row_of_elem _ _ _ Hnew Hin) as (c & Hrow & Hc).
      injection Hrow as <-. unfold CompaniesDb.get_company.
      destruct id as [|ch id]; [done|]. cbn [CompaniesDb.text_truthy].
      rewrite find_id_app, find_id_none by exact (Hfresh _ Hc).
      pose proof (find_id_unique new _ Hnodup Hc) as Hfind. cbn [CompaniesDb.co_id] in Hfind.
      by rewrite Hfind.
    + intros id found. apply get_company_kept.
    + intros Hold. rewrite fmap_app. apply list.NoDup_app. split; [done|]. split; [|done].
      intros id Hid Hidnew. apply list_elem_of_fmap in Hidnew as (c & -> & Hc).
      by apply (Hfresh c Hc).
  - intros engine id attrs name duplicate engine'.
    unfold CompaniesDbSingle.add_company, CompaniesDb.add_companies. cbn.
    by case_bool_decide.
  - done.
  - vm_compute. reflexivity.
Qed.

(** X8. Page after page, the store keeps its shape. If the keys in the
    store are non-empty and distinct and a named company is flagged
    exactly when an earlier row carries its name, and no record of the
    page has an empty id, then the same holds after [_persist_company]:
    whatever the page sizes, the first company of a name is the unflagged
    one and every later one is flagged. *)
Theorem persist_company_keeps_first_wins
    (rt : runtime) (engine : CompaniesDb.DatabaseEngine)
    (results : list Translator.hs_object) (engine' : CompaniesDb.DatabaseEngine) :
  StoreSpec.store_ok engine ->
  Forall (fun res => Translator.obj_id res <> Some []) results ->
  Translator._persist_company rt engine results = Ok engine' ->
  StoreSpec.store_ok engine'.
Proof.
  intros (Hids & Hnodup & Hfirst) Hres Hpersist.
  destruct (persist_company_flags _ _ _ _ Hids Hpersist) as (new & Hnew & Hrows & Hflags).
  destruct (persist_company_rows _ _ _ _ Hpersist) as (rows & _ & _ & Hinsert).
  apply insert_records_iff in Hinsert as (new' & _ & Hnodup' & Hfresh & Hnew').
  rewrite Hnew in Hnew'. apply app_inv_head in Hnew'. subst new' engine'.
  split; [|split].
  - intros c [Hold|Hc]%elem_of_app; [by apply Hids|].
    apply list_elem_of_lookup in Hc as [i Hi].
    destruct (Forall2_lookup_r _ _ _ _ _ Hrows Hi) as (res & Hres_i & Hid & _).
    apply list_elem_of_lookup_2 in Hres_i.
    rewrite list.Forall_forall in Hres. specialize (Hres res Hres_i).
    intros Hempty. apply Hres. by rewrite Hid, Hempty.
  - rewrite fmap_app. apply list.NoDup_app. split; [done|]. split; [|done].
    intros id Hid Hidnew. apply list_elem_of_fmap in Hidnew as (c & -> & Hc).
    by apply (Hfresh c Hc).
  - by apply first_wins_app.
Qed.

(** A page that brings a second Acme into a store that holds one. *)
Lemma persist_company_keeps_first_wins_witness :
  exists engine',
    Translator._persist_company (runtime_on 2025 12 20) [Samples.acme]
      [Samples.hs_company (Some (ustr "c7")) (Some (ustr "Acme"))] = Ok engine'
    /\ StoreSpec.store_ok engine'.
Proof.
  destruct (Translator._persist_company (runtime_on 2025 12 20) [Samples.acme]
              [Samples.hs_company (Some (ustr "c7")) (Some (ustr "Acme"))])
    as [engine'|e] eqn:Hpage.
  - exists engine'. split; [reflexivity|].
    apply (persist_company_keeps_first_wins (runtime_on 2025 12 20) [Samples.acme]
             [Samples.hs_company (Some (ustr "c7")) (Some (ustr "Acme"))] engine');
      [|repeat constructor; discriminate|exact Hpage].
    split; [|split].
    + intros c [->|Hnil]%elem_of_cons; [|destruct (proj1 (elem_of_nil c) Hnil)].
      intros Hempty. vm_compute in Hempty. discriminate Hempty.
    + apply (bool_decide_unpack _). vm_compute. exact I.
    + intros [|i] c Hc _; [|destruct i; discriminate Hc].
      injection Hc as <-. split.
      * intros Hflag. cbn in Hflag. discriminate Hflag.
      * intros (j & c' & Hlt & _). lia.
  - apply (f_equal is_ok) in Hpage. vm_compute in Hpage. discriminate Hpage.
Defined.

Section PassContent.
Import FieldMapping CompaniesDb Translator JoinSpec PassSpec.
Variable body : parquet_row -> result classified.
Variables output_csv_path errors_csv_path : pystr.
Variables field_names error_field_names : list pystr.
Hypothesis paths_differ : output_csv_path <> errors_csv_path.

Lemma route_then_passes (row : parquet_row) (st st' : pass_state) :
  body row ≫= route output_csv_path errors_csv_path field_names error_field_names st = Ok st' ->
  row_passes body field_names error_field_names row = true.
Proof.
  unfold row_passes. destruct (body row) as [[error_str out]|]; [|done].
  cbn [mbind result_bind]. intros Hroute. apply route_ok in Hroute as [_ Hroute].
  cbn [fst snd] in Hroute. destruct (text_truthy error_str); destruct Hroute as [_ Hwrite].
  - by rewrite (writerow_is_ok [] errors_csv_path _ _ ∅ (files st)), Hwrite.
  - by rewrite (writerow_is_ok [] output_csv_path _ _ ∅ (files st)), Hwrite.
Qed.

Lemma route_raise_fails (row : parquet_row) (st : pass_state) (e : exn) :
  body row ≫= route output_csv_path errors_csv_path field_names error_field_names st = Raise e ->
  row_passes body field_names error_field_names row = false.
Proof.
  intros Hraise.
  destruct (row_passes body field_names error_field_names row) eqn:Hpasses; [|done].
  destruct (route_passes _ _ _ output_csv_path errors_csv_path st _ Hpasses) as [st' Hok].
  rewrite Hok in Hraise. discriminate Hraise.
Qed.

Lemma stream_rows_content (rows : list parquet_row) (st st' : pass_state) (r : result unit)
    (ro re : list (list pyval)) :
  files st !! output_csv_path = Some (CsvFile field_names ro) ->
  files st !! errors_csv_path = Some (CsvFile error_field_names re) ->
  stream_rows body output_csv_path errors_csv_path field_names error_field_names rows st
  = (st', r) ->
  exists done rest,
    rows = done ++ rest
    /\ Forall (fun row => row_passes body field_names error_field_names row = true) done
    /\ files st' !! output_csv_path
       = Some (CsvFile field_names (ro ++ valid_lines body field_names done))
    /\ files st' !! errors_csv_path
       = Some (CsvFile error_field_names (re ++ error_lines body error_field_names done))
    /\ (forall path, path <> output_csv_path -> path <> errors_csv_path ->
          files st' !! path = files st !! path)
    /\ total_rows (counters st') = (total_rows (counters st) + length done)%nat
    /\ error_rows (counters st')
       = (error_rows (counters st) + length (error_lines body error_field_names done))%nat
    /\ match r with
       | Ok _ => rest = []
       | Raise _ =>
           exists row rest',
             rest = row :: rest'
             /\ row_passes body field_names error_field_names row = false
       end.
Proof.
  revert st ro re. induction rows as [|row rows IH]; intros st ro re Hout Herr; simpl.
  - intros [= <- <-]. exists [], []. unfold valid_lines, error_lines. cbn.
    rewrite !app_nil_r. repeat split; try done; lia.
  - destruct (body row ≫= route _ _ _ _ st) as [st1|e] eqn:Hstep.
    + pose proof (route_then_passes _ _ _ Hstep) as Hpasses.
      destruct (body row) as [[error_str out]|] eqn:Hbody; [|done].
      cbn [mbind result_bind] in Hstep. apply route_ok in Hstep as [Htotal Hroute].
      cbn [fst snd] in Hroute. intros Hrest.
      destruct (text_truthy error_str) eqn:Htruthy; destruct Hroute as [Herrors Hwrite];
        apply writerow_ok in Hwrite.
      * edestruct (IH st1 ro (re ++ [cells_of error_field_names
                                       (<[ERROR_COLUMN := of_text error_str]> out)])) as (done & rest & -> & Hdone & Ho & He & Hframe & Ht & Hc & Hr);
          [| |exact Hrest|].
        { rewrite Hwrite, lookup_alter_ne by done. exact Hout. }
        { rewrite Hwrite, lookup_alter_eq, Herr. reflexivity. }
        exists (row :: done), rest. unfold valid_lines, error_lines, valid_line, error_line.
        cbn [omap list_omap]. rewrite Hbody, Htruthy.
        split; [done|]. split; [by constructor|]. split; [exact Ho|].
        split; [by rewrite He, <- app_assoc|]. split.
        { intros path Hpo Hpe. rewrite (Hframe path Hpo Hpe), Hwrite.
          by rewrite lookup_alter_ne. }
        split; [cbn [length]; lia|]. split; [|exact Hr].
        fold (error_line body error_field_names). fold (error_lines body error_field_names done).
        cbn [length]. lia.
      * edestruct (IH st1 (ro ++ [cells_of field_names out]) re) as (done & rest & -> & Hdone & Ho & He & Hframe & Ht & Hc & Hr);
          [| |exact Hrest|].
        { rewrite Hwrite, lookup_alter_eq, Hout. reflexivity. }
        { rewrite Hwrite, lookup_alter_ne by done. exact Herr. }
        exists (row :: done), rest. unfold valid_lines, error_lines, valid_line, error_line.
        cbn [omap list_omap]. rewrite Hbody, Htruthy.
        split; [done|]. split; [by constructor|].
        split; [by rewrite Ho, <- app_assoc|]. split; [exact He|]. split.
        { intros path Hpo Hpe. rewrite (Hframe path Hpo Hpe), Hwrite.
          by rewrite lookup_alter_ne. }
        split; [cbn [length]; lia|]. split; [|exact Hr].
        fold (error_line body error_field_names). fold (error_lines body error_field_names done).
        lia.
    + intros [= <- <-]. exists [], (row :: rows). unfold valid_lines, error_lines. cbn.
      rewrite !app_nil_r. split; [done|]. split; [constructor|]. split; [done|].
      split; [done|]. split; [done|]. split; [lia|]. split; [lia|].
      exists row, rows. split; [done|]. by eapply route_raise_fails.
Qed.

(** What a pass leaves behind, whichever way it ends. *)
Lemma run_pass_content (parquet_path : pystr) (dir : directory)
    (batches : list (list parquet_row)) :
  dir !! parquet_path = Some (ParquetFile batches) ->
  exists done rest,
    concat batches = done ++ rest
    /\ Forall (fun row => row_passes body field_names error_field_names row = true) done
    /\ (run_pass body parquet_path output_csv_path errors_csv_path
          field_names error_field_names dir).1 !! output_csv_path
       = Some (CsvFile field_names (valid_lines body field_names done))
    /\ (forall path, path <> output_csv_path -> path <> errors_csv_path ->
          (run_pass body parquet_path output_csv_path errors_csv_path
             field_names error_field_names dir).1 !! path = dir !! path)
    /\ match (run_pass body parquet_path output_csv_path errors_csv_path
                field_names error_field_names dir).2 with
       | Ok st =>
           rest = []
           /\ st = {| total_rows := length done;
                      error_rows := length (error_lines body error_field_names done) |}
           /\ (run_pass body parquet_path output_csv_path errors_csv_path
                 field_names error_field_names dir).1 !! errors_csv_path
              = match error_lines body error_field_names done with
                | [] => None
                | lines => Some (CsvFile error_field_names lines)
                end
       | Raise e =>
           (run_pass body parquet_path output_csv_path errors_csv_path
              field_names error_field_names dir).1 !! errors_csv_path
           = Some (CsvFile error_field_names (error_lines body error_field_names done))
           /\ ((e = ZeroDivisionError /\ concat batches = [])
               \/ exists row rest',
                    rest = row :: rest'
                    /\ row_passes body field_names error_field_names row = false)
       end.
Proof.
  intros Hparquet. unfold run_pass. rewrite Hparquet.
  set (st0 := {| files := _; counters := _ |}).
  assert (Hout0 : files st0 !! output_csv_path = Some (CsvFile field_names [])).
  { cbn. rewrite lookup_insert_ne by done. by rewrite lookup_insert_eq. }
  assert (Herr0 : files st0 !! errors_csv_path = Some (CsvFile error_field_names [])).
  { cbn. by rewrite lookup_insert_eq. }
  assert (Hframe0 : forall path, path <> output_csv_path -> path <> errors_csv_path ->
                      files st0 !! path = dir !! path).
  { intros path Hpo Hpe. cbn. by rewrite !lookup_insert_ne. }
  destruct (decide (length (concat batches) = 0%nat)) as [Hzero|Hrows].
  - apply length_zero_iff_nil in Hzero. rewrite Hzero. cbn [length].
    exists [], []. split; [done|]. split; [constructor|].
    destruct batches as [|batch batches]; cbn.
    + split; [by rewrite lookup_delete_ne|]. split.
      { intros path Hpo Hpe. rewrite lookup_delete_ne by done. by apply Hframe0. }
      split; [done|]. split; [done|]. by rewrite lookup_delete_eq.
    + cbn in Hzero. apply app_eq_nil in Hzero as [-> _]. cbn.
      split; [exact Hout0|]. split; [exact Hframe0|]. split; [exact Herr0|]. by left.
  - rewrite stream_batches_concat by done.
    destruct (stream_rows _ _ _ _ _ (concat batches) st0) as [st r] eqn:Hstream.
    destruct (stream_rows_content _ _ _ _ _ _ Hout0 Herr0 Hstream)
      as (done & rest & Hsplit & Hdone & Ho & He & Hframe & Ht & Hc & Hr).
    cbn [app] in Ho, He. cbn in Ht, Hc.
    exists done, rest. split; [done|]. split; [done|].
    destruct r as [[]|e].
    + assert (Hstats : counters st
                       = {| total_rows := length done;
                            error_rows := length (error_lines body error_field_names done) |}).
      { destruct (counters st). cbn in *. congruence. }
      rewrite Hstats. cbn [error_rows].
      destruct (error_lines body error_field_names done) as [|line lines] eqn:Hlines; cbn.
      * split; [by rewrite lookup_delete_ne|]. split.
        { intros path Hpo Hpe. rewrite lookup_delete_ne by done.
          rewrite Hframe by done. by apply Hframe0. }
        split; [done|]. split; [done|]. by rewrite lookup_delete_eq.
      * split; [done|]. split.
        { intros path Hpo Hpe. rewrite Hframe by done. by apply Hframe0. }
        split; [done|]. split; [done|]. done.
    + cbn. split; [done|]. split.
      { intros path Hpo Hpe. rewrite Hframe by done. by apply Hframe0. }
      split; [done|]. by right.
Qed.

End PassContent.

Section PassRows.
Import FieldMapping CompaniesDb Translator JoinSpec PassSpec Shapes.

Lemma normalize_no_null (row : gmap pystr pyval) (key : pystr) :
  _normalize_csv_empty_values row !! key <> Some VNone.
Proof.
  unfold _normalize_csv_empty_values. rewrite lookup_fmap.
  destruct (row !! key) as [[]|]; done.
Qed.

Lemma normalize_dom (row : gmap pystr pyval) (key : pystr) :
  is_Some (_normalize_csv_empty_values row !! key) <-> is_Some (row !! key).
Proof. unfold _normalize_csv_empty_values. rewrite lookup_fmap. apply fmap_is_Some. Qed.

Lemma contact_row_normalized (engine : DatabaseEngine) (row : parquet_row)
    (error_str : option pystr) (out : gmap pystr pyval) :
  contact_row engine row = Ok (error_str, out) ->
  exists raw, out = _normalize_csv_empty_values raw.
Proof.
  unfold contact_row. destruct (row !! COMPANY_ID_COLUMN) as [company_id|]; [|done].
  destruct (text_truthy company_id).
  - destruct (get_company engine company_id) as [company|]; [|done]. cbn.
    intros [= _ <-]. eauto.
  - intros [= _ <-]. eauto.
Qed.

Lemma deal_row_normalized (engine : DatabaseEngine) (row : parquet_row)
    (error_str : option pystr) (out : gmap pystr pyval) :
  deal_row engine row = Ok (error_str, out) ->
  exists raw, out = _normalize_csv_empty_values raw.
Proof.
  unfold deal_row. destruct (row !! COMPANY_ID_COLUMN) as [company_id|]; [|done].
  destruct (text_truthy company_id).
  - destruct (get_company engine company_id) as [company|]; [|done]. cbn.
    destruct (dict_getitem _ _) as [company_name|]; [|done]. cbn.
    intros [= _ <-]. eauto.
  - intros [= _ <-]. eauto.
Qed.

Lemma cells_of_clean (header : list pystr) (row : gmap pystr pyval) :
  (forall key, row !! key <> Some VNone) -> clean_line header (cells_of header row).
Proof.
  intros Hrow. unfold clean_line, cells_of. split; [by rewrite length_fmap|].
  intros Hnull. apply list_elem_of_fmap in Hnull as (key & Hkey & _).
  specialize (Hrow key). destruct (row !! key) as [v|]; [|done]. cbn in Hkey. by subst v.
Qed.

Lemma lines_clean (body : parquet_row -> result classified)
    (field_names error_field_names : list pystr) (rows : list parquet_row) :
  (forall row error_str out,
      body row = Ok (error_str, out) -> exists raw, out = _normalize_csv_empty_values raw) ->
  Forall (clean_line field_names) (valid_lines body field_names rows)
  /\ Forall (clean_line error_field_names) (error_lines body error_field_names rows).
Proof.
  intros Hbody. unfold valid_lines, error_lines.
  split; apply list.Forall_forall; intros line Hline;
    apply list_elem_of_omap in Hline as (row & _ & Hline).
  - unfold valid_line in Hline. destruct (body row) as [[error_str out]|] eqn:Hrow; [|done].
    destruct (text_truthy error_str); [done|]. injection Hline as <-.
    destruct (Hbody _ _ _ Hrow) as [raw ->]. apply cells_of_clean, normalize_no_null.
  - unfold error_line in Hline. destruct (body row) as [[error_str out]|] eqn:Hrow; [|done].
    destruct (text_truthy error_str) eqn:Htruthy; [|done]. injection Hline as <-.
    destruct (Hbody _ _ _ Hrow) as [raw ->]. apply cells_of_clean. intros key.
    destruct (decide (key = ERROR_COLUMN)) as [->|Hne].
    + rewrite lookup_insert_eq. by destruct error_str.
    + rewrite lookup_insert_ne by done. apply normalize_no_null.
Qed.

Lemma lines_partition (body : parquet_row -> result classified)
    (field_names error_field_names : list pystr) (rows : list parquet_row) :
  Forall (fun row => row_passes body field_names error_field_names row = true) rows ->
  (length (valid_lines body field_names rows)
   + length (error_lines body error_field_names rows))%nat = length rows.
Proof.
  unfold valid_lines, error_lines, valid_line, error_line.
  induction 1 as [|row rows Hrow _ IH]; [done|]. cbn [omap list_omap].
  unfold row_passes in Hrow. destruct (body row) as [[error_str out]|]; [|done].
  destruct (text_truthy error_str); cbn [length]; lia.
Qed.

Lemma writerow_is_ok_iff (path : pystr) (fieldnames : list pystr) (row : gmap pystr pyval)
    (dir : directory) :
  is_ok (writerow path fieldnames row dir) = true
  <-> forall key, is_Some (row !! key) -> key ∈ fieldnames.
Proof.
  unfold writerow.
  destruct (List.filter _ _) as [|extra extras] eqn:Hextras.
  - split; [|done]. intros _ key [v Hkey].
    destruct (decide (key ∈ fieldnames)) as [|Hout]; [done|]. exfalso.
    assert (Hin : In key (List.filter (fun k => negb (bool_decide (k ∈ fieldnames)))
                            (map_to_list row).*1)).
    { apply filter_In. split.
      - apply list_elem_of_In, list_elem_of_fmap. exists (key, v).
        split; [done|]. by apply elem_of_map_to_list.
      - by rewrite bool_decide_eq_false_2. }
    by rewrite Hextras in Hin.
  - split; [done|]. intros Hkeys. exfalso.
    assert (Hin : In extra (List.filter (fun k => negb (bool_decide (k ∈ fieldnames)))
                              (map_to_list row).*1)) by (rewrite Hextras; by left).
    apply filter_In in Hin as [Hin Hout].
    apply list_elem_of_In, list_elem_of_fmap in Hin as ([key v] & -> & Hin).
    apply elem_of_map_to_list in Hin. cbn in Hout.
    rewrite bool_decide_eq_true_2 in Hout; [done|]. apply Hkeys. by exists v.
Qed.

Lemma elem_of_list_remove_first (x key : pystr) (l : list pystr) :
  key ∈ l -> key <> x -> key ∈ list_remove_first x l.
Proof.
  induction l as [|y l IH]; [done|]. cbn.
  intros [->|Hin]%elem_of_cons Hne.
  - destruct (decide (y = x)); [done|left].
  - destruct (decide (y = x)); [done|]. right. by apply IH.
Qed.

Lemma get_company_ok (engine : DatabaseEngine) (id : option pystr) (found : found_company) :
  get_company engine id = Ok found ->
  exists c, c ∈ engine /\ Some (co_id c) = id
            /\ attrs found = co_attrs c /\ duplicate found = co_duplicate c.
Proof.
  unfold get_company. destruct (text_truthy id); [|done].
  destruct (List.find _ engine) as [c|] eqn:Hfind; [|done]. intros [= <-].
  apply find_some in Hfind as [Hin Hid]. apply bool_decide_eq_true in Hid.
  exists c. split; [by apply list_elem_of_In|done].
Qed.

Lemma row_passes_of_keys (body : parquet_row -> result classified)
    (field_names : list pystr) (row : parquet_row)
    (error_str : option pystr) (out : gmap pystr pyval) :
  body row = Ok (error_str, out) ->
  (forall key, is_Some (out !! key) -> key ∈ field_names) ->
  row_passes body field_names ([ERROR_COLUMN] ++ field_names) row = true.
Proof.
  intros Hbody Hkeys. unfold row_passes. rewrite Hbody.
  destruct (text_truthy error_str).
  - apply writerow_is_ok_iff. intros key Hkey.
    destruct (decide (key = ERROR_COLUMN)) as [->|Hne]; [left|].
    rewrite lookup_insert_ne in Hkey by done. right. by apply Hkeys.
  - by apply writerow_is_ok_iff.
Qed.

Lemma child_keys (child_map : list (pystr * FieldMap)) (row : parquet_row) (key : pystr) :
  (forall key, is_Some (row !! key) -> key ∈ child_map.*1) ->
  is_Some ((of_text <$> delete COMPANY_ID_COLUMN row : gmap pystr pyval) !! key) ->
  key ∈ list_remove_first COMPANY_ID_COLUMN child_map.*1.
Proof.
  intros Hkeys. rewrite lookup_fmap, fmap_is_Some. intros Hkey.
  destruct (decide (key = COMPANY_ID_COLUMN)) as [->|Hne].
  - rewrite lookup_delete_eq in Hkey. by destruct Hkey.
  - rewrite lookup_delete_ne in Hkey by done.
    apply elem_of_list_remove_first; [by apply Hkeys|done].
Qed.

Lemma contact_row_joinable (engine : DatabaseEngine) (row : parquet_row) :
  account_columns engine -> joinable CONTACT_FIELDS_MAP engine row ->
  row_passes (contact_row engine) accounts_contacts_field_names
    ([ERROR_COLUMN] ++ accounts_contacts_field_names) row = true.
Proof.
  intros Hstore [(company_id & Hid & Hparent) Hkeys].
  destruct (contact_row engine row) as [[error_str out]|e] eqn:Hrow.
  - eapply row_passes_of_keys; [exact Hrow|].
    unfold contact_row in Hrow. rewrite Hid in Hrow.
    unfold accounts_contacts_field_names.
    destruct (text_truthy company_id).
    + destruct (get_company engine company_id) as [company|] eqn:Hget; [|done].
      apply get_company_ok in Hget as (c & Hc & _ & Hattrs & _).
      cbn [mbind result_bind] in Hrow. injection Hrow as _ <-.
      intros key. rewrite normalize_dom, lookup_union_is_Some, elem_of_app.
      intros [Hkey|Hkey]; [right; by eapply child_keys|left].
      rewrite Hattrs in Hkey. by apply (Hstore c key Hc).
    + injection Hrow as _ <-. intros key. rewrite normalize_dom, elem_of_app.
      intros Hkey. right. by eapply child_keys.
  - exfalso. unfold contact_row in Hrow. rewrite Hid in Hrow.
    destruct (text_truthy company_id); [|done]. specialize (Hparent eq_refl).
    by destruct (get_company engine company_id).
Qed.

Lemma deal_row_joinable (engine : DatabaseEngine) (row : parquet_row) :
  account_columns engine -> joinable DEAL_FIELDS_MAP engine row ->
  row_passes (deal_row engine) opportunities_field_names
    ([ERROR_COLUMN] ++ opportunities_field_names) row = true.
Proof.
  intros Hstore [(company_id & Hid & Hparent) Hkeys].
  destruct (deal_row engine row) as [[error_str out]|e] eqn:Hrow.
  - eapply row_passes_of_keys; [exact Hrow|].
    unfold deal_row in Hrow. rewrite Hid in Hrow.
    unfold opportunities_field_names.
    destruct (text_truthy company_id).
    + destruct (get_company engine company_id) as [company|] eqn:Hget; [|done].
      cbn [mbind result_bind] in Hrow.
      destruct (dict_getitem _ _) as [company_name|]; [|done].
      cbn [mbind result_bind] in Hrow. injection Hrow as _ <-.
      intros key. rewrite normalize_dom, elem_of_app.
      destruct (decide (key = OPPORTUNITIES_ACCOUNT_NAME_COLUMN)) as [->|Hne];
        [intros _; right; left|].
      rewrite lookup_insert_ne by done. intros Hkey. left. by eapply child_keys.
    + injection Hrow as _ <-. intros key. rewrite normalize_dom, elem_of_app.
      intros Hkey. left. by eapply child_keys.
  - exfalso. unfold deal_row in Hrow. rewrite Hid in Hrow.
    destruct (text_truthy company_id); [|done]. specialize (Hparent eq_refl).
    destruct (get_company engine company_id) as [company|] eqn:Hget; [|done].
    apply get_company_ok in Hget as (c & Hc & _ & Hattrs & _).
    cbn [mbind result_bind] in Hrow. unfold dict_getitem in Hrow. rewrite Hattrs in Hrow.
    assert (Hname : is_Some (co_attrs c !! ACCOUNTS_NAME_COLUMN)).
    { apply (Hstore c _ Hc). apply (bool_decide_unpack _). vm_compute. exact I. }
    destruct Hname as [v Hname]. by rewrite Hname in Hrow.
Qed.

Lemma persist_company_account_columns (rt : runtime) (engine : DatabaseEngine)
    (results : list hs_object) (engine' : DatabaseEngine) :
  account_columns engine ->
  _persist_company rt engine results = Ok engine' ->
  account_columns engine'.
Proof.
  intros Hstore Hpersist.
  destruct (persist_company_rows _ _ _ _ Hpersist) as (rows & Hrows & _ & Hinsert).
  remember (list_to_map _ : gmap (option pystr) bool) as db eqn:Hdb in Hinsert.
  destruct (insert_records_ok _ _ _ Hinsert) as (new & -> & Hnew).
  intros c key [Hold|Hc]%elem_of_app; [by apply Hstore|].
  apply list_elem_of_lookup in Hc as [i Hi].
  destruct (Forall2_lookup_r _ _ _ _ _ Hnew Hi) as (r & Hr & ->).
  assert (Hlt : (i < length rows)%nat).
  { rewrite <- (flag_rows_length db ∅ rows). by eapply lookup_lt_Some. }
  destruct (lookup_lt_is_Some_2 _ _ Hlt) as [[[cid attrs] name] Hrow].
  destruct (flag_rows_lookup db ∅ _ _ _ _ _ Hrow) as (dup & Hflag & _).
  pose proof (eq_trans (eq_sym Hflag) Hr) as Heq. injection Heq as _ Hattrs _ _.
  destruct (Forall2_lookup_r _ _ _ _ _ Hrows Hrow) as (res & _ & Hres).
  unfold company_row in Hres.
  destruct (build_attrs rt ACCOUNT_FIELDS_MAP _) as [attrs'|] eqn:Hbuild; [|done].
  cbn [mbind result_bind] in Hres.
  destruct (dict_getitem attrs' ACCOUNTS_NAME_COLUMN) as [name'|]; [|done].
  cbn [mbind result_bind] in Hres. injection Hres as _ -> _.
  rewrite <- Hattrs. unfold build_attrs in Hbuild.
  rewrite (build_attrs_from_dom _ _ _ _ _ _ key Hbuild), lookup_empty.
  split; [intros [[? ?]|?]; done|by right].
Qed.

End PassRows.

Section PassOutcome.
Import FieldMapping CompaniesDb Translator JoinSpec PassSpec Shapes.
Variable body : parquet_row -> result classified.
Variables parquet_path output_csv_path errors_csv_path : pystr.
Variables field_names error_field_names : list pystr.
Variable dir : directory.
Variable batches : list (list parquet_row).
Hypothesis paths_differ : output_csv_path <> errors_csv_path.
Hypothesis parquet_there : dir !! parquet_path = Some (ParquetFile batches).

Lemma run_pass_success (dir' : directory) (st : stats) :
  run_pass body parquet_path output_csv_path errors_csv_path field_names error_field_names dir
  = (dir', Ok st) ->
  dir' !! output_csv_path
  = Some (CsvFile field_names (valid_lines body field_names (concat batches)))
  /\ csv_rows (dir' !! errors_csv_path)
     = error_lines body error_field_names (concat batches)
  /\ (is_Some (dir' !! errors_csv_path)
      <-> error_lines body error_field_names (concat batches) <> [])
  /\ error_rows st = length (error_lines body error_field_names (concat batches))
  /\ (length (valid_lines body field_names (concat batches)) + error_rows st)%nat
     = total_rows st
  /\ total_rows st = length (concat batches)
  /\ forall path, path <> output_csv_path -> path <> errors_csv_path ->
       dir' !! path = dir !! path.
Proof.
  intros Hrun.
  destruct (run_pass_content body output_csv_path errors_csv_path field_names
              error_field_names paths_differ parquet_path dir batches parquet_there)
    as (done & rest & Hsplit & Hdone & Ho & Hframe & Hr).
  rewrite Hrun in Ho, Hframe, Hr. cbn [fst snd] in Ho, Hframe, Hr.
  destruct Hr as (-> & -> & He). rewrite app_nil_r in Hsplit. subst done.
  cbn [total_rows error_rows].
  split; [exact Ho|]. split.
  { rewrite He. by destruct (error_lines _ _ _). }
  split.
  { rewrite He. destruct (error_lines _ _ _); [|done].
    split; [by intros [? ?]|done]. }
  split; [done|]. split; [by apply lines_partition|]. split; [done|exact Hframe].
Qed.

Lemma run_pass_failure (dir' : directory) (e : exn) :
  run_pass body parquet_path output_csv_path errors_csv_path field_names error_field_names dir
  = (dir', Raise e) ->
  exists done rest,
    concat batches = done ++ rest
    /\ Forall (fun row => row_passes body field_names error_field_names row = true) done
    /\ dir' !! output_csv_path
       = Some (CsvFile field_names (valid_lines body field_names done))
    /\ dir' !! errors_csv_path
       = Some (CsvFile error_field_names (error_lines body error_field_names done))
    /\ (forall path, path <> output_csv_path -> path <> errors_csv_path ->
          dir' !! path = dir !! path)
    /\ ((e = ZeroDivisionError /\ concat batches = [])
        \/ exists row rest',
             rest = row :: rest'
             /\ row_passes body field_names error_field_names row = false).
Proof.
  intros Hrun.
  destruct (run_pass_content body output_csv_path errors_csv_path field_names
              error_field_names paths_differ parquet_path dir batches parquet_there)
    as (done & rest & Hsplit & Hdone & Ho & Hframe & Hr).
  rewrite Hrun in Ho, Hframe, Hr. cbn [fst snd] in Ho, Hframe, Hr.
  destruct Hr as [He Hwhy]. exists done, rest. by repeat split.
Qed.

Lemma run_pass_clean :
  (forall row error_str out,
      body row = Ok (error_str, out) -> exists raw, out = _normalize_csv_empty_values raw) ->
  Forall (clean_line field_names)
    (csv_rows ((run_pass body parquet_path output_csv_path errors_csv_path
                  field_names error_field_names dir).1 !! output_csv_path))
  /\ Forall (clean_line error_field_names)
       (csv_rows ((run_pass body parquet_path output_csv_path errors_csv_path
                     field_names error_field_names dir).1 !! errors_csv_path)).
Proof.
  intros Hbody.
  destruct (run_pass_content body output_csv_path errors_csv_path field_names
              error_field_names paths_differ parquet_path dir batches parquet_there)
    as (done & rest & Hsplit & Hdone & Ho & Hframe & Hr).
  destruct (lines_clean body field_names error_field_names done Hbody) as [Hvalid Herrors].
  rewrite Ho. split; [exact Hvalid|].
  destruct (run_pass _ _ _ _ _ _ _).2 as [st|e].
  - destruct Hr as (_ & _ & ->). by destruct (error_lines _ _ _).
  - destruct Hr as [-> _]. exact Herrors.
Qed.

Lemma run_pass_completes :
  concat batches <> [] ->
  Forall (fun row => row_passes body field_names error_field_names row = true)
    (concat batches) ->
  is_ok (run_pass body parquet_path output_csv_path errors_csv_path
           field_names error_field_names dir).2 = true.
Proof.
  intros Hrows Hpass.
  destruct (run_pass_content body output_csv_path errors_csv_path field_names
              error_field_names paths_differ parquet_path dir batches parquet_there)
    as (done & rest & Hsplit & Hdone & Ho & Hframe & Hr).
  destruct (run_pass _ _ _ _ _ _ _).2 as [st|e]; [done|]. exfalso.
  destruct Hr as [_ [[_ Hnil]|(row & rest' & -> & Hfails)]]; [done|].
  rewrite Hsplit in Hpass. apply Forall_app in Hpass as [_ Hpass].
  apply list.Forall_cons in Hpass as [Hrow _]. by rewrite Hrow in Hfails.
Qed.

End PassOutcome.

(** X9. A pass that reaches its end has written the rows in the order of
    the input: the valid file holds, under its header, the line of every
    row without a diagnostic, the error file the line of every row with
    one (and is absent exactly when there is none); valid and error rows
    add up to the rows read, and no other file of the directory is
    touched. *)
Theorem pass_writes_rows_in_input_order :
  (forall engine contacts_path output_csv_path errors_csv_path
          (dir : Translator.directory) batches dir' st,
      output_csv_path <> errors_csv_path ->
      dir !! contacts_path = Some (Translator.ParquetFile batches) ->
      Translator._build_accounts_contacts engine contacts_path output_csv_path
        errors_csv_path dir = (dir', Ok st) ->
      dir' !! output_csv_path
      = Some (Translator.CsvFile Translator.accounts_contacts_field_names
                (PassSpec.valid_lines (Translator.contact_row engine)
                   Translator.accounts_contacts_field_names (concat batches)))
      /\ Shapes.csv_rows (dir' !! errors_csv_path)
         = PassSpec.error_lines (Translator.contact_row engine)
             ([Translator.ERROR_COLUMN] ++ Translator.accounts_contacts_field_names)
             (concat batches)
      /\ (is_Some (dir' !! errors_csv_path)
          <-> PassSpec.error_lines (Translator.contact_row engine)
                ([Translator.ERROR_COLUMN] ++ Translator.accounts_contacts_field_names)
                (concat batches) <> [])
      /\ Translator.error_rows st
         = length (PassSpec.error_lines (Translator.contact_row engine)
                     ([Translator.ERROR_COLUMN] ++ Translator.accounts_contacts_field_names)
                     (concat batches))
      /\ (length (PassSpec.valid_lines (Translator.contact_row engine)
                    Translator.accounts_contacts_field_names (concat batches))
          + Translator.error_rows st)%nat = Translator.total_rows st
      /\ Translator.total_rows st = length (concat batches)
      /\ forall path, path <> output_csv_path -> path <> errors_csv_path ->
           dir' !! path = dir !! path)
  /\ (forall engine deals_path output_csv_path errors_csv_path
             (dir : Translator.directory) batches dir' st,
         output_csv_path <> errors_csv_path ->
         dir !! deals_path = Some (Translator.ParquetFile batches) ->
         Translator._build_opportunities engine deals_path output_csv_path
           errors_csv_path dir = (dir', Ok st) ->
         dir' !! output_csv_path
         = Some (Translator.CsvFile Translator.opportunities_field_names
                   (PassSpec.valid_lines (Translator.deal_row engine)
                      Translator.opportunities_field_names (concat batches)))
         /\ Shapes.csv_rows (dir' !! errors_csv_path)
            = PassSpec.error_lines (Translator.deal_row engine)
                ([Translator.ERROR_COLUMN] ++ Translator.opportunities_field_names)
                (concat batches)
         /\ (is_Some (dir' !! errors_csv_path)
             <-> PassSpec.error_lines (Translator.deal_row engine)
                   ([Translator.ERROR_COLUMN] ++ Translator.opportunities_field_names)
                   (concat batches) <> [])
         /\ Translator.error_rows st
            = length (PassSpec.error_lines (Translator.deal_row engine)
                        ([Translator.ERROR_COLUMN] ++ Translator.opportunities_field_names)
                        (concat batches))
         /\ (length (PassSpec.valid_lines (Translator.deal_row engine)
                       Translator.opportunities_field_names (concat batches))
             + Translator.error_rows st)%nat = Translator.total_rows st
         /\ Translator.total_rows st = length (concat batches)
         /\ forall path, path <> output_csv_path -> path <> errors_csv_path ->
              dir' !! path = dir !! path)
  /\ (let run :=
        Translator._build_opportunities [Samples.acme] Settings.deals_filename
          Settings.csv_opportunities_filename Settings.csv_errors_opportunities_filename
          Samples.workdir in
      run.2 = Ok {| Translator.total_rows := 2; Translator.error_rows := 1 |}
      /\ Shapes.csv_rows (run.1 !! Settings.csv_opportunities_filename)
         = [[VStr (ustr "Renewal"); VStr (ustr "New Business"); VStr (ustr "Qualify");
             VStr (ustr "100"); VStr (ustr "2025-12-20 00:00:00"); VStr (ustr "Acme")]]).
Proof.
  split; [|split].
  - intros engine contacts_path output_csv_path errors_csv_path dir batches dir' st
      Hpaths Hparquet Hrun.
    exact (run_pass_success _ _ _ _ _ _ _ _ Hpaths Hparquet _ _ Hrun).
  - intros engine deals_path output_csv_path errors_csv_path dir batches dir' st
      Hpaths Hparquet Hrun.
    exact (run_pass_success _ _ _ _ _ _ _ _ Hpaths Hparquet _ _ Hrun).
  - vm_compute. split; reflexivity.
Qed.

(** X10. A pass that stops at an exception leaves both CSV files behind,
    the error file too, even when it is empty: they hold the lines of the
    rows before the one that failed, and that row is the first of the
    input that does not go through. The only other way to stop is the
    progress division, on an input whose batches are all empty. *)
Theorem aborted_pass_leaves_partial_files :
  (forall engine contacts_path output_csv_path errors_csv_path
          (dir : Translator.directory) batches dir' e,
      output_csv_path <> errors_csv_path ->
      dir !! contacts_path = Some (Translator.ParquetFile batches) ->
      Translator._build_accounts_contacts engine contacts_path output_csv_path
        errors_csv_path dir = (dir', Raise e) ->
      exists done rest,
        concat batches = done ++ rest
        /\ Forall (fun row =>
                     JoinSpec.row_passes (Translator.contact_row engine)
                       Translator.accounts_contacts_field_names
                       ([Translator.ERROR_COLUMN] ++ Translator.accounts_contacts_field_names)
                       row = true) done
        /\ dir' !! output_csv_path
           = Some (Translator.CsvFile Translator.accounts_contacts_field_names
                     (PassSpec.valid_lines (Translator.contact_row engine)
                        Translator.accounts_contacts_field_names done))
        /\ dir' !! errors_csv_path
           = Some (Translator.CsvFile
                     ([Translator.ERROR_COLUMN] ++ Translator.accounts_contacts_field_names)
                     (PassSpec.error_lines (Translator.contact_row engine)
                        ([Translator.ERROR_COLUMN]
                         ++ Translator.accounts_contacts_field_names) done))
        /\ (forall path, path <> output_csv_path -> path <> errors_csv_path ->
              dir' !! path = dir !! path)
        /\ ((e = ZeroDivisionError /\ concat batches = [])
            \/ exists row rest',
                 rest = row :: rest'
                 /\ JoinSpec.row_passes (Translator.contact_row engine)
                      Translator.accounts_contacts_field_names
                      ([Translator.ERROR_COLUMN] ++ Translator.accounts_contacts_field_names)
                      row = false))
  /\ (forall engine deals_path output_csv_path errors_csv_path
             (dir : Translator.directory) batches dir' e,
         output_csv_path <> errors_csv_path ->
         dir !! deals_path = Some (Translator.ParquetFile batches) ->
         Translator._build_opportunities engine deals_path output_csv_path
           errors_csv_path dir = (dir', Raise e) ->
         exists done rest,
           concat batches = done ++ rest
           /\ Forall (fun row =>
                        JoinSpec.row_passes (Translator.deal_row engine)
                          Translator.opportunities_field_names
                          ([Translator.ERROR_COLUMN] ++ Translator.opportunities_field_names)
                          row = true) done
           /\ dir' !! output_csv_path
              = Some (Translator.CsvFile Translator.opportunities_field_names
                        (PassSpec.valid_lines (Translator.deal_row engine)
                           Translator.opportunities_field_names done))
           /\ dir' !! errors_csv_path
              = Some (Translator.CsvFile
                        ([Translator.ERROR_COLUMN] ++ Translator.opportunities_field_names)
                        (PassSpec.error_lines (Translator.deal_row engine)
                           ([Translator.ERROR_COLUMN]
                            ++ Translator.opportunities_field_names) done))
           /\ (forall path, path <> output_csv_path -> path <> errors_csv_path ->
                 dir' !! path = dir !! path)
           /\ ((e = ZeroDivisionError /\ concat batches = [])
               \/ exists row rest',
                    rest = row :: rest'
                    /\ JoinSpec.row_passes (Translator.deal_row engine)
                         Translator.opportunities_field_names
                         ([Translator.ERROR_COLUMN] ++ Translator.opportunities_field_names)
                         row = false))
  /\ (let run :=
        Translator._build_opportunities [Samples.acme] Settings.deals_filename
          Settings.csv_opportunities_filename Settings.csv_errors_opportunities_filename
          (<[Settings.deals_filename :=
               Translator.ParquetFile
                 [[Samples.deal (Some (ustr "c1")) (Some (ustr "Renewal"));
                   Samples.deal (Some (ustr "c9")) (Some (ustr "Upsell"))]]]> ∅) in
      run.2 = Raise (ValueError (ustr "Company not found"))
      /\ length (Shapes.csv_rows (run.1 !! Settings.csv_opportunities_filename)) = 1%nat
      /\ run.1 !! Settings.csv_errors_opportunities_filename
         = Some (Translator.CsvFile
                   ([Translator.ERROR_COLUMN] ++ Translator.opportunities_field_names) [])).
Proof.
  split; [|split].
  - intros engine contacts_path output_csv_path errors_csv_path dir batches dir' e
      Hpaths Hparquet Hrun.
    exact (run_pass_failure _ _ _ _ _ _ _ _ Hpaths Hparquet _ _ Hrun).
  - intros engine deals_path output_csv_path errors_csv_path dir batches dir' e
      Hpaths Hparquet Hrun.
    exact (run_pass_failure _ _ _ _ _ _ _ _ Hpaths Hparquet _ _ Hrun).
  - vm_compute. repeat split; reflexivity.
Qed.

(** X11. No CSV line is ragged and none holds a null: however a pass
    ends, every line of the valid file and of the error file has one cell
    per column of its header, and no cell is None (nulls are written as
    empty strings). *)
Theorem csv_lines_are_clean :
  (forall engine contacts_path output_csv_path errors_csv_path
          (dir : Translator.directory) batches,
      output_csv_path <> errors_csv_path ->
      dir !! contacts_path = Some (Translator.ParquetFile batches) ->
      Forall (PassSpec.clean_line Translator.accounts_contacts_field_names)
        (Shapes.csv_rows
           ((Translator._build_accounts_contacts engine contacts_path output_csv_path
               errors_csv_path dir).1 !! output_csv_path))
      /\ Forall (PassSpec.clean_line
                   ([Translator.ERROR_COLUMN] ++ Translator.accounts_contacts_field_names))
           (Shapes.csv_rows
              ((Translator._build_accounts_contacts engine contacts_path output_csv_path
                  errors_csv_path dir).1 !! errors_csv_path)))
  /\ (forall engine deals_path output_csv_path errors_csv_path
             (dir : Translator.directory) batches,
         output_csv_path <> errors_csv_path ->
         dir !! deals_path = Some (Translator.ParquetFile batches) ->
         Forall (PassSpec.clean_line Translator.opportunities_field_names)
           (Shapes.csv_rows
              ((Translator._build_opportunities engine deals_path output_csv_path
                  errors_csv_path dir).1 !! output_csv_path))
         /\ Forall (PassSpec.clean_line
                      ([Translator.ERROR_COLUMN] ++ Translator.opportunities_field_names))
              (Shapes.csv_rows
                 ((Translator._build_opportunities engine deals_path output_csv_path
                     errors_csv_path dir).1 !! errors_csv_path)))
  /\ Translator.cells_of [ustr "Name"; ustr "Amount"; ustr "Stage"]
       (Translator._normalize_csv_empty_values
          (<[ustr "Name" := VStr (ustr "Renewal")]> (<[ustr "Amount" := VNone]> ∅)))
     = [VStr (ustr "Renewal"); VStr []; VStr []].
Proof.
  split; [|split].
  - intros engine contacts_path output_csv_path errors_csv_path dir batches Hpaths Hparquet.
    apply (run_pass_clean _ _ _ _ _ _ _ _ Hpaths Hparquet).
    apply contact_row_normalized.
  - intros engine deals_path output_csv_path errors_csv_path dir batches Hpaths Hparquet.
    apply (run_pass_clean _ _ _ _ _ _ _ _ Hpaths Hparquet).
    apply deal_row_normalized.
  - vm_compute. reflexivity.
Qed.

(** X12. The join does not fail on what the download stored. When every
    company of the store has exactly the columns of the account table (a
    shape [_persist_company] keeps), and every row of a non-empty contacts
    or deals file has the parent-id column, names no parent or one that is
    in the store, and has no column outside its table, the pass reaches
    its end. *)
Theorem pass_completes_on_downloaded_rows :
  (forall engine contacts_path output_csv_path errors_csv_path
          (dir : Translator.directory) batches,
      output_csv_path <> errors_csv_path ->
      dir !! contacts_path = Some (Translator.ParquetFile batches) ->
      concat batches <> [] ->
      PassSpec.account_columns engine ->
      Forall (PassSpec.joinable FieldMapping.CONTACT_FIELDS_MAP engine) (concat batches) ->
      is_ok (Translator._build_accounts_contacts engine contacts_path output_csv_path
               errors_csv_path dir).2 = true)
  /\ (forall engine deals_path output_csv_path errors_csv_path
             (dir : Translator.directory) batches,
         output_csv_path <> errors_csv_path ->
         dir !! deals_path = Some (Translator.ParquetFile batches) ->
         concat batches <> [] ->
         PassSpec.account_columns engine ->
         Forall (PassSpec.joinable FieldMapping.DEAL_FIELDS_MAP engine) (concat batches) ->
         is_ok (Translator._build_opportunities engine deals_path output_csv_path
                  errors_csv_path dir).2 = true)
  /\ (forall rt engine results engine',
         PassSpec.account_columns engine ->
         Translator._persist_company rt engine results = Ok engine' ->
         PassSpec.account_columns engine')
  /\ PassSpec.account_columns []
  /\ is_ok (Translator._build_accounts_contacts [Samples.acme] Settings.contacts_filename
              Settings.csv_accounts_contacts_filename
              Settings.csv_errors_accounts_contacts_filename Samples.workdir).2 = true.
Proof.
  split; [|split; [|split; [|split]]].
  - intros engine contacts_path output_csv_path errors_csv_path dir batches
      Hpaths Hparquet Hrows Hstore Hjoin.
    apply (run_pass_completes _ _ _ _ _ _ _ _ Hpaths Hparquet Hrows).
    eapply Forall_impl; [|exact Hjoin]. intros row. by apply contact_row_joinable.
  - intros engine deals_path output_csv_path errors_csv_path dir batches
      Hpaths Hparquet Hrows Hstore Hjoin.
    apply (run_pass_completes _ _ _ _ _ _ _ _ Hpaths Hparquet Hrows).
    eapply Forall_impl; [|exact Hjoin]. intros row. by apply deal_row_joinable.
  - exact persist_company_account_columns.
  - intros c key Hc. destruct (proj1 (elem_of_nil c) Hc).
  - vm_compute. reflexivity.
Qed.

Section BuildFacts.
Import FieldMapping CompaniesDb Translator JoinSpec PassSpec Shapes.

Local Ltac names_differ := apply (bool_decide_unpack _); vm_compute; exact I.

Lemma build_sf_csvs_ok (dir dir' : directory) (agg : aggregated_stats) :
  build_sf_csvs dir = (dir', Ok agg) ->
  exists dir1 engine dir2 st1 st2,
    initialize_db Settings.companies_filename dir = (dir1, Ok engine)
    /\ _build_accounts_contacts engine Settings.contacts_filename
         Settings.csv_accounts_contacts_filename
         Settings.csv_errors_accounts_contacts_filename dir1 = (dir2, Ok st1)
    /\ _build_opportunities engine Settings.deals_filename
         Settings.csv_opportunities_filename
         Settings.csv_errors_opportunities_filename dir2 = (dir', Ok st2)
    /\ agg = {| accounts_contacts_total_rows := total_rows st1;
                accounts_contacts_valid_rows := total_rows st1 - error_rows st1;
                accounts_contacts_error_rows := error_rows st1;
                opportunities_total_rows := total_rows st2;
                opportunities_valid_rows := total_rows st2 - error_rows st2;
                opportunities_error_rows := error_rows st2 |}.
Proof.
  unfold build_sf_csvs.
  destruct (check_files _ dir) as [[]|]; [|intros Hno; discriminate Hno].
  destruct (initialize_db Settings.companies_filename dir) as [dir1 [engine|]] eqn:Hinit;
    [|intros Hno; discriminate Hno].
  destruct (_build_accounts_contacts engine _ _ _ dir1) as [dir2 [st1|]] eqn:Hpass1;
    [|intros Hno; discriminate Hno].
  destruct (_build_opportunities engine _ _ _ dir2) as [dir3 [st2|]] eqn:Hpass2;
    [|intros Hno; discriminate Hno].
  intros [= <- <-]. exists dir1, engine, dir2, st1, st2.
  split; [reflexivity|]. split; [exact Hpass1|]. split; [exact Hpass2|reflexivity].
Qed.

Lemma initialize_db_frame (path other : pystr) (dir dir1 : directory)
    (r : result DatabaseEngine) :
  initialize_db path dir = (dir1, r) -> other <> path -> dir1 !! other = dir !! other.
Proof.
  unfold initialize_db. intros Hinit Hother.
  destruct (dir !! path) as [[]|]; injection Hinit as <- _; try done.
  all: by rewrite lookup_insert_ne.
Qed.

Lemma run_pass_ok_parquet (body : parquet_row -> result classified)
    (parquet_path output_csv_path errors_csv_path : pystr)
    (field_names error_field_names : list pystr) (dir dir' : directory) (st : stats) :
  run_pass body parquet_path output_csv_path errors_csv_path field_names error_field_names dir
  = (dir', Ok st) ->
  exists batches, dir !! parquet_path = Some (ParquetFile batches).
Proof.
  unfold run_pass. destruct (dir !! parquet_path) as [[| batches | |]|]; try done.
  intros _. by exists batches.
Qed.

Lemma build_sf_csvs_counts (dir dir' : directory) (agg : aggregated_stats) :
  build_sf_csvs dir = (dir', Ok agg) ->
  exists contacts deals,
    dir !! Settings.contacts_filename = Some (ParquetFile contacts)
    /\ dir !! Settings.deals_filename = Some (ParquetFile deals)
    /\ accounts_contacts_total_rows agg = length (concat contacts)
    /\ opportunities_total_rows agg = length (concat deals)
    /\ (accounts_contacts_valid_rows agg + accounts_contacts_error_rows agg)%nat
       = accounts_contacts_total_rows agg
    /\ (opportunities_valid_rows agg + opportunities_error_rows agg)%nat
       = opportunities_total_rows agg
    /\ length (csv_rows (dir' !! Settings.csv_accounts_contacts_filename))
       = accounts_contacts_valid_rows agg
    /\ length (csv_rows (dir' !! Settings.csv_errors_accounts_contacts_filename))
       = accounts_contacts_error_rows agg
    /\ length (csv_rows (dir' !! Settings.csv_opportunities_filename))
       = opportunities_valid_rows agg
    /\ length (csv_rows (dir' !! Settings.csv_errors_opportunities_filename))
       = opportunities_error_rows agg
    /\ dir' !! Settings.contacts_filename = dir !! Settings.contacts_filename
    /\ dir' !! Settings.deals_filename = dir !! Settings.deals_filename.
Proof.
  intros Hbuild.
  destruct (build_sf_csvs_ok _ _ _ Hbuild)
    as (dir1 & engine & dir2 & st1 & st2 & Hinit & Hpass1 & Hpass2 & ->).
  destruct (run_pass_ok_parquet _ _ _ _ _ _ _ _ _ Hpass1) as [contacts Hcontacts].
  destruct (run_pass_ok_parquet _ _ _ _ _ _ _ _ _ Hpass2) as [deals Hdeals].
  assert (Hne1 : Settings.csv_accounts_contacts_filename
                 <> Settings.csv_errors_accounts_contacts_filename) by names_differ.
  assert (Hne2 : Settings.csv_opportunities_filename
                 <> Settings.csv_errors_opportunities_filename) by names_differ.
  destruct (run_pass_success _ _ _ _ _ _ _ _ Hne1 Hcontacts _ _ Hpass1)
    as (Ho1 & He1 & _ & Hn1 & Hsum1 & Htot1 & Hframe1).
  destruct (run_pass_success _ _ _ _ _ _ _ _ Hne2 Hdeals _ _ Hpass2)
    as (Ho2 & He2 & _ & Hn2 & Hsum2 & Htot2 & Hframe2).
  assert (Hc0 : dir1 !! Settings.contacts_filename = dir !! Settings.contacts_filename).
  { apply (initialize_db_frame _ _ _ _ _ Hinit). names_differ. }
  assert (Hd0 : dir1 !! Settings.deals_filename = dir !! Settings.deals_filename).
  { apply (initialize_db_frame _ _ _ _ _ Hinit). names_differ. }
  assert (Hd1 : dir2 !! Settings.deals_filename = dir1 !! Settings.deals_filename).
  { apply Hframe1; names_differ. }
  assert (Hc1 : dir2 !! Settings.contacts_filename = dir1 !! Settings.contacts_filename).
  { apply Hframe1; names_differ. }
  assert (Hc2 : dir' !! Settings.contacts_filename = dir2 !! Settings.contacts_filename).
  { apply Hframe2; names_differ. }
  assert (Hd2 : dir' !! Settings.deals_filename = dir2 !! Settings.deals_filename).
  { apply Hframe2; names_differ. }
  assert (Ho12 : dir' !! Settings.csv_accounts_contacts_filename
                 = dir2 !! Settings.csv_accounts_contacts_filename).
  { apply Hframe2; names_differ. }
  assert (He12 : dir' !! Settings.csv_errors_accounts_contacts_filename
                 = dir2 !! Settings.csv_errors_accounts_contacts_filename).
  { apply Hframe2; names_differ. }
  exists contacts, deals.
  cbn [accounts_contacts_total_rows accounts_contacts_valid_rows accounts_contacts_error_rows
       opportunities_total_rows opportunities_valid_rows opportunities_error_rows].
  split; [by rewrite <- Hc0|]. split; [by rewrite <- Hd0, <- Hd1|].
  split; [exact Htot1|]. split; [exact Htot2|].
  split; [lia|]. split; [lia|].
  rewrite Ho12, He12, Ho1, He1, Ho2, He2. cbn [csv_rows].
  split; [lia|]. split; [lia|]. split; [lia|]. split; [lia|].
  split; [by rewrite Hc2, Hc1|by rewrite Hd2, Hd1].
Qed.

End BuildFacts.

(** X13. The numbers [build_sf_csvs] reports are the numbers of lines it
    wrote: for contacts and for deals, the total is the number of rows of
    the parquet file, valid and error rows add up to it, the valid file
    holds as many lines as valid rows are reported and the error file as
    many as error rows (none when it has been unlinked). The two parquet
    files are left as they were. *)
Theorem build_sf_csvs_reports_what_it_wrote :
  (forall dir dir' agg,
      Translator.build_sf_csvs dir = (dir', Ok agg) ->
      exists contacts deals,
        dir !! Settings.contacts_filename = Some (Translator.ParquetFile contacts)
        /\ dir !! Settings.deals_filename = Some (Translator.ParquetFile deals)
        /\ Translator.accounts_contacts_total_rows agg = length (concat contacts)
        /\ Translator.opportunities_total_rows agg = length (concat deals)
        /\ (Translator.accounts_contacts_valid_rows agg
            + Translator.accounts_contacts_error_rows agg)%nat
           = Translator.accounts_contacts_total_rows agg
        /\ (Translator.opportunities_valid_rows agg
            + Translator.opportunities_error_rows agg)%nat
           = Translator.opportunities_total_rows agg
        /\ length (Shapes.csv_rows (dir' !! Settings.csv_accounts_contacts_filename))
           = Translator.accounts_contacts_valid_rows agg
        /\ length (Shapes.csv_rows (dir' !! Settings.csv_errors_accounts_contacts_filename))
           = Translator.accounts_contacts_error_rows agg
        /\ length (Shapes.csv_rows (dir' !! Settings.csv_opportunities_filename))
           = Translator.opportunities_valid_rows agg
        /\ length (Shapes.csv_rows (dir' !! Settings.csv_errors_opportunities_filename))
           = Translator.opportunities_error_rows agg
        /\ dir' !! Settings.contacts_filename = dir !! Settings.contacts_filename
        /\ dir' !! Settings.deals_filename = dir !! Settings.deals_filename)
  /\ (Translator.build_sf_csvs Samples.workdir).2
     = Ok {| Translator.accounts_contacts_total_rows := 2;
             Translator.accounts_contacts_valid_rows := 1;
             Translator.accounts_contacts_error_rows := 1;
             Translator.opportunities_total_rows := 2;
             Translator.opportunities_valid_rows := 1;
             Translator.opportunities_error_rows := 1 |}.
Proof.
  split; [exact build_sf_csvs_counts|]. vm_compute. reflexivity.
Qed.

Section CleanupFacts.
Import Translator Cleanup.

Lemma unlink_ok (path : pystr) (dir dir' : directory) :
  unlink path dir = Ok dir' -> is_Some (dir !! path) /\ dir' = delete path dir.
Proof. unfold unlink. destruct (dir !! path); [|done]. intros [= <-]. eauto. Qed.

Lemma unlink_raise (path : pystr) (dir : directory) (e : exn) :
  unlink path dir = Raise e -> dir !! path = None /\ e = FileNotFoundError path.
Proof. unfold unlink. destruct (dir !! path); [done|]. by intros [= <-]. Qed.

Lemma cleanup_outcome (dir : directory) :
  (forall path,
      path ∉ [Settings.companies_filename; Settings.contacts_filename;
              Settings.deals_filename] ->
      (cleanup dir).1 !! path = dir !! path)
  /\ match (cleanup dir).2 with
     | Ok _ =>
         forall path,
           path ∈ [Settings.companies_filename; Settings.contacts_filename;
                   Settings.deals_filename] ->
           is_Some (dir !! path) /\ (cleanup dir).1 !! path = None
     | Raise e =>
         exists before missing after,
           [Settings.companies_filename; Settings.contacts_filename;
            Settings.deals_filename] = before ++ missing :: after
           /\ e = FileNotFoundError missing
           /\ dir !! missing = None
           /\ (forall path, path ∈ before ->
                 is_Some (dir !! path) /\ (cleanup dir).1 !! path = None)
           /\ (forall path, path ∈ after -> (cleanup dir).1 !! path = dir !! path)
     end.
Proof.
  assert (Hcc : Settings.companies_filename <> Settings.contacts_filename)
    by (apply (bool_decide_unpack _); vm_compute; exact I).
  assert (Hcd : Settings.companies_filename <> Settings.deals_filename)
    by (apply (bool_decide_unpack _); vm_compute; exact I).
  assert (Htd : Settings.contacts_filename <> Settings.deals_filename)
    by (apply (bool_decide_unpack _); vm_compute; exact I).
  unfold cleanup.
  destruct (unlink Settings.companies_filename dir) as [dir1|e1] eqn:H1.
  - apply unlink_ok in H1 as [Hs1 ->].
    destruct (unlink Settings.contacts_filename _) as [dir2|e2] eqn:H2.
    + apply unlink_ok in H2 as [Hs2 ->]. rewrite lookup_delete_ne in Hs2 by done.
      destruct (unlink Settings.deals_filename _) as [dir3|e3] eqn:H3.
      * apply unlink_ok in H3 as [Hs3 ->]. rewrite !lookup_delete_ne in Hs3 by done.
        cbn [fst snd]. split.
        -- intros path Hpath. rewrite !elem_of_cons in Hpath.
           rewrite !lookup_delete_ne; [done|intros <-; tauto..].
        -- intros path Hpath. rewrite !elem_of_cons in Hpath.
           destruct Hpath as [->|[->|[->|Hnil]]]; [| | |by apply elem_of_nil in Hnil].
           ++ split; [done|]. rewrite !lookup_delete_ne by done. apply lookup_delete_eq.
           ++ split; [done|]. rewrite lookup_delete_ne by done. apply lookup_delete_eq.
           ++ split; [done|]. apply lookup_delete_eq.
      * apply unlink_raise in H3 as [Hn3 ->]. rewrite !lookup_delete_ne in Hn3 by done.
        cbn [fst snd]. split.
        -- intros path Hpath. rewrite !elem_of_cons in Hpath.
           rewrite !lookup_delete_ne; [done|intros <-; tauto..].
        -- exists [Settings.companies_filename; Settings.contacts_filename],
             Settings.deals_filename, [].
           split; [done|]. split; [done|]. split; [done|]. split.
           ++ intros path Hpath. rewrite !elem_of_cons in Hpath.
              destruct Hpath as [->|[->|Hnil]]; [| |by apply elem_of_nil in Hnil].
              ** split; [done|]. rewrite lookup_delete_ne by done. apply lookup_delete_eq.
              ** split; [done|]. apply lookup_delete_eq.
           ++ by intros path Hnil%elem_of_nil.
    + apply unlink_raise in H2 as [Hn2 ->]. rewrite lookup_delete_ne in Hn2 by done.
      cbn [fst snd]. split.
      * intros path Hpath. rewrite !elem_of_cons in Hpath.
        rewrite lookup_delete_ne; [done|intros <-; tauto].
      * exists [Settings.companies_filename], Settings.contacts_filename,
          [Settings.deals_filename].
        split; [done|]. split; [done|]. split; [done|]. split.
        -- intros path Hpath. rewrite !elem_of_cons in Hpath.
           destruct Hpath as [->|Hnil]; [|by apply elem_of_nil in Hnil].
           split; [done|]. apply lookup_delete_eq.
        -- intros path Hpath. rewrite !elem_of_cons in Hpath.
           destruct Hpath as [->|Hnil]; [|by apply elem_of_nil in Hnil].
           by rewrite lookup_delete_ne.
  - apply unlink_raise in H1 as [Hn1 ->]. cbn [fst snd]. split; [done|].
    exists [], Settings.companies_filename,
      [Settings.contacts_filename; Settings.deals_filename].
    split; [done|]. split; [done|]. split; [done|]. split.
    + by intros path Hnil%elem_of_nil.
    + done.
Qed.

End CleanupFacts.

(** X14. [cleanup] removes the companies, contacts and deals files and
    nothing else. It succeeds exactly when all three are there; when one
    is absent it raises FileNotFoundError for the first such file in the
    order companies, contacts, deals, and the files before it are already
    gone while those after it stay. *)
Theorem cleanup_removes_intermediate_files :
  (forall dir,
      (forall path,
          path ∉ [Settings.companies_filename; Settings.contacts_filename;
                  Settings.deals_filename] ->
          (Cleanup.cleanup dir).1 !! path = dir !! path)
      /\ match (Cleanup.cleanup dir).2 with
         | Ok _ =>
             forall path,
               path ∈ [Settings.companies_filename; Settings.contacts_filename;
                       Settings.deals_filename] ->
               is_Some (dir !! path) /\ (Cleanup.cleanup dir).1 !! path = None
         | Raise e =>
             exists before missing after,
               [Settings.companies_filename; Settings.contacts_filename;
                Settings.deals_filename] = before ++ missing :: after
               /\ e = FileNotFoundError missing
               /\ dir !! missing = None
               /\ (forall path, path ∈ before ->
                     is_Some (dir !! path) /\ (Cleanup.cleanup dir).1 !! path = None)
               /\ (forall path, path ∈ after ->
                     (Cleanup.cleanup dir).1 !! path = dir !! path)
         end)
  /\ (let left := Cleanup.cleanup (delete Settings.contacts_filename Samples.workdir) in
      left.2 = Raise (FileNotFoundError (ustr "contacts.parquet"))
      /\ left.1 !! Settings.companies_filename = None
      /\ is_Some (left.1 !! Settings.deals_filename)).
Proof.
  split; [exact cleanup_outcome|]. vm_compute. repeat split. eauto.
Qed.

Section FirstOfName.
Import CompaniesDb StoreSpec Shapes.

Lemma unflagged_is_first (engine : DatabaseEngine) (c : company) :
  first_wins engine -> c ∈ engine -> is_Some (co_name c) -> co_duplicate c = false ->
  first_of_name engine (co_name c) = Some c.
Proof.
  intros Hfirst Hc Hname Hflag.
  apply list_elem_of_lookup in Hc as [k Hk].
  pose proof (first_of_name_first engine (co_name c)) as Hfound.
  destruct (first_of_name engine (co_name c)) as [c1|].
  - destruct Hfound as (i & Hi & Hsame & Hbefore).
    destruct (lt_eq_lt_dec i k) as [[Hlt|Heq]|Hgt].
    + assert (Hdup : co_duplicate c = true).
      { apply (Hfirst k c Hk Hname). by exists i, c1. }
      by rewrite Hdup in Hflag.
    + subst k. by rewrite Hi in Hk.
    + by destruct (Hbefore k c Hgt Hk).
  - destruct (Hfound c); [by eapply list_elem_of_lookup_2|done].
Qed.

Lemma first_is_unflagged (engine : DatabaseEngine) (name : option pystr) (c : company) :
  first_wins engine -> is_Some name -> first_of_name engine name = Some c ->
  c ∈ engine /\ co_name c = name /\ co_duplicate c = false.
Proof.
  intros Hfirst Hname Hfound.
  pose proof (first_of_name_first engine name) as Hspec. rewrite Hfound in Hspec.
  destruct Hspec as (i & Hi & Hsame & Hbefore).
  split; [by eapply list_elem_of_lookup_2|]. split; [done|].
  destruct (co_duplicate c) eqn:Hdup; [|done]. exfalso.
  apply (Hfirst i c Hi) in Hdup as (j & c' & Hlt & Hj & Hsame'); [|by rewrite Hsame].
  apply (Hbefore j c' Hlt Hj). by rewrite Hsame', Hsame.
Qed.

Lemma find_returns_first (engine : DatabaseEngine) (names : list (option pystr)) :
  first_wins engine -> names <> [] -> NoDup names ->
  find_companies_by_name engine (Some names)
  = Ok ((fun name => match name with
                     | Some _ => co_id <$> first_of_name engine name
                     | None => None
                     end) <$> names).
Proof.
  intros Hfirst Hne Hnodup. rewrite find_companies_by_name_ok by done. f_equal.
  apply list_fmap_ext. intros _ name Hname%list_elem_of_lookup_2.
  pose proof (find_companies_by_name_position engine names name Hname) as Hpos.
  destruct (name_to_id_from _ _ !! name) as [id|].
  - destruct Hpos as (c & Hc & Hsame & Hsome & Hflag & Hid).
    destruct Hsome as [s ->].
    assert (Hfound : first_of_name engine (co_name c) = Some c).
    { apply unflagged_is_first; try done; by rewrite Hsame. }
    rewrite Hsame in Hfound. rewrite Hfound. cbn. by rewrite Hid.
  - destruct name as [s|]; [|done].
    destruct (first_of_name engine (Some s)) as [c|] eqn:Hfound; [|done]. exfalso.
    destruct (first_is_unflagged engine (Some s) c Hfirst) as (Hc & Hsame & Hflag);
      [by eexists|done|].
    rewrite (Hpos c Hc Hsame) in Hflag; [done|by eexists].
Qed.

End FirstOfName.

(** X15. On a store kept by first arrival, a name resolves to the company
    that arrived first under it: [find_companies_by_name] returns, for
    each name of a duplicate-free list, the id of the first company of
    that name in the store, and null for a name no company has and for a
    null entry. Later companies of the name, flagged as duplicates, are
    never returned. *)
Theorem find_companies_by_name_returns_first_arrival :
  (forall engine names,
      Shapes.first_wins engine -> names <> [] -> NoDup names ->
      CompaniesDb.find_companies_by_name engine (Some names)
      = Ok ((fun name => match name with
                         | Some _ =>
                             CompaniesDb.co_id <$> StoreSpec.first_of_name engine name
                         | None => None
                         end) <$> names))
  /\ CompaniesDb.find_companies_by_name Samples.store
       (Some [Some (ustr "Acme"); None; Some (ustr "Zeta")])
     = Ok [Some (ustr "c1"); None; None].
Proof.
  split; [exact find_returns_first|]. vm_compute. reflexivity.
Qed.

Section StringFacts.

Lemma join_cons (sep p : pystr) (ps : list pystr) :
  ps <> [] -> join sep (p :: ps) = p ++ sep ++ join sep ps.
Proof. by destruct ps. Qed.

Lemma split_on_nonempty (sep : N) (s : pystr) : split_on sep s <> [].
Proof.
  induction s as [|c s IH]; simpl; [done|].
  destruct (c =? sep); [done|]. by destruct (split_on sep s).
Qed.

Lemma join_split_on (sep : N) (s : pystr) : join [sep] (split_on sep s) = s.
Proof.
  induction s as [|c s IH]; simpl; [done|].
  destruct (N.eqb_spec c sep) as [->|Hne].
  - rewrite join_cons by apply split_on_nonempty. by rewrite IH.
  - destruct (split_on sep s) as [|seg segs] eqn:Hsplit.
    + by destruct (split_on_nonempty sep s).
    + rewrite <- IH. by destruct segs.
Qed.

Lemma split_on_no_sep (sep : N) (s : pystr) :
  Forall (fun seg => sep ∉ seg) (split_on sep s).
Proof.
  induction s as [|c s IH]; simpl.
  - constructor; [apply not_elem_of_nil|constructor].
  - destruct (N.eqb_spec c sep) as [->|Hne].
    + constructor; [apply not_elem_of_nil|done].
    + destruct (split_on sep s) as [|seg segs].
      * constructor; [|constructor].
        intros [Heq|Hnil]%elem_of_cons; [done|by apply elem_of_nil in Hnil].
      * apply list.Forall_cons in IH as [Hseg Hsegs]. constructor; [|done].
        intros [Heq|Hin]%elem_of_cons; done.
Qed.

Lemma split_on_absent (sep : N) (s : pystr) : sep ∉ s -> split_on sep s = [s].
Proof.
  induction s as [|c s IH]; simpl; [done|]. intros Habsent.
  destruct (N.eqb_spec c sep) as [->|Hne]; [destruct Habsent; left|].
  rewrite IH; [done|]. intros Hin. apply Habsent. by right.
Qed.

Lemma join_app (sep : pystr) (l1 l2 : list pystr) :
  l1 <> [] -> l2 <> [] -> join sep (l1 ++ l2) = join sep l1 ++ sep ++ join sep l2.
Proof.
  intros Hl1 Hl2. induction l1 as [|p l1 IH]; [done|].
  destruct l1 as [|q l1].
  - cbn [app]. by rewrite join_cons.
  - change ((p :: q :: l1) ++ l2) with (p :: ((q :: l1) ++ l2)).
    rewrite join_cons by done. rewrite IH by done.
    rewrite (join_cons sep p (q :: l1)) by done. by rewrite <- !app_assoc.
Qed.

Lemma sub_runs_same (cls : N -> bool) (repl : pystr) (in_run : bool) (s : pystr) :
  Forall (fun c => cls c = false) s -> sub_runs cls repl in_run s = s.
Proof.
  intros Hs. revert in_run. induction Hs as [|c s Hc _ IH]; intros in_run; simpl; [done|].
  rewrite Hc. by rewrite IH.
Qed.

Lemma sub_runs_absent (cls : N -> bool) (repl : pystr) (in_run : bool) (s : pystr) (c : N) :
  c ∉ s -> c ∉ repl -> c ∉ sub_runs cls repl in_run s.
Proof.
  intros Hs Hrepl. revert in_run. induction s as [|d s IH]; intros in_run; simpl.
  - apply not_elem_of_nil.
  - assert (Htail : c ∉ s) by (intros Hin; apply Hs; by right).
    destruct (cls d).
    + rewrite elem_of_app. intros [Hin|Hin]; [|by apply (IH Htail true)].
      destruct in_run; [by apply elem_of_nil in Hin|done].
    + intros [->|Hin]%elem_of_cons; [apply Hs; left|by apply (IH Htail false)].
Qed.

Lemma lstrip_absent (s : pystr) (c : N) : c ∉ s -> c ∉ lstrip s.
Proof.
  induction s as [|d s IH]; simpl; [done|]. intros Hs.
  destruct (isspace d); [|done]. apply IH. intros Hin. apply Hs. by right.
Qed.

Lemma strip_absent (s : pystr) (c : N) : c ∉ s -> c ∉ strip s.
Proof.
  intros Hs. unfold strip. rewrite list_elem_of_In, <- in_rev, <- list_elem_of_In.
  apply lstrip_absent. rewrite list_elem_of_In, <- in_rev, <- list_elem_of_In.
  by apply lstrip_absent.
Qed.


End StringFacts.

Section AddressRoundTrip.
Import AddressParser.

Lemma parse_spec_shape (rt : runtime) (address : pystr) :
  parse_spec rt address = failed
  \/ exists street zip_city first second rest city zip_code,
       split_on 44 (normalize address) = [street; zip_city]
       /\ split_on 32 (strip zip_city) = first :: second :: rest
       /\ parse_spec rt address = (Some city, Some street, Some zip_code)
       /\ city = join [32] (from_first_alpha rt (removelast (second :: rest))
                            ++ [List.last (second :: rest) []])
       /\ zip_code = join [32] (first :: before_first_alpha rt (removelast (second :: rest))).
Proof.
  unfold parse_spec.
  destruct (split_on 44 (normalize address)) as [|street [|zip_city [|? ?]]]; try by left.
  destruct (split_on 32 (strip zip_city)) as [|first [|second rest]] eqn:Htokens;
    try by left.
  right. exists street, zip_city, first, second, rest.
  exists (join [32] (from_first_alpha rt (removelast (second :: rest))
                     ++ [List.last (second :: rest) []])).
  exists (join [32] (first :: before_first_alpha rt (removelast (second :: rest)))).
  split; [reflexivity|]. split; [exact Htokens|]. split; [reflexivity|].
  split; reflexivity.
Qed.

Lemma parse_address_reassembles (rt : runtime) (address city street zip_code : pystr) :
  parse_address rt address = (Some city, Some street, Some zip_code) ->
  exists zip_city,
    normalize address = street ++ ustr "," ++ zip_city
    /\ strip zip_city = zip_code ++ ustr " " ++ city
    /\ (44 ∉ street) /\ (44 ∉ zip_city).
Proof.
  rewrite parse_address_refines.
  destruct (parse_spec_shape rt address)
    as [->|(street' & zip_city & first & second & rest & city' & zip_code'
            & Hcomma & Hspace & -> & Hcity & Hzip)]; [done|].
  intros Heq. injection Heq as <- <- <-. exists zip_city.
  pose proof (join_split_on 44 (normalize address)) as Hjoin. rewrite Hcomma in Hjoin.
  pose proof (split_on_no_sep 44 (normalize address)) as Hsep. rewrite Hcomma in Hsep.
  apply list.Forall_cons in Hsep as [Hstreet Hsep].
  apply list.Forall_cons in Hsep as [Hzip_city _].
  split; [by rewrite <- Hjoin|]. split; [|done].
  pose proof (join_split_on 32 (strip zip_city)) as Hjoin'. rewrite Hspace in Hjoin'.
  rewrite <- Hjoin', Hcity, Hzip.
  destruct (first_alpha_partition rt (removelast (second :: rest))) as [Hparts _].
  change (ustr " ") with [32].
  rewrite <- (join_app [32] (first :: before_first_alpha rt (removelast (second :: rest)))
                (from_first_alpha rt (removelast (second :: rest))
                 ++ [List.last (second :: rest) []])); [|done|by destruct (from_first_alpha _ _)].
  rewrite <- app_comm_cons, app_assoc, Hparts.
  by rewrite <- app_removelast_last.
Qed.

Lemma parse_address_all_or_nothing (rt : runtime) (address : pystr) :
  parse_address rt address = failed
  \/ exists city street zip_code,
       parse_address rt address = (Some city, Some street, Some zip_code).
Proof.
  rewrite parse_address_refines.
  destruct (parse_spec_shape rt address)
    as [->|(street & zip_city & first & second & rest & city & zip_code
            & _ & _ & -> & _)]; [by left|].
  right. eauto.
Qed.

Lemma parse_address_no_separator (rt : runtime) (address : pystr) :
  44 ∉ address -> 10 ∉ address -> 13 ∉ address ->
  parse_address rt address = failed.
Proof.
  intros Hcomma Hlf Hcr. rewrite parse_address_refines. unfold parse_spec, normalize.
  rewrite split_on_absent; [done|].
  apply strip_absent, sub_runs_absent; [|by intros [?|?%elem_of_nil]%elem_of_cons].
  unfold re_sub_plus. rewrite sub_runs_same; [done|].
  apply list.Forall_forall. intros c Hc. unfold is_cr_lf.
  destruct (N.eqb_spec c 13) as [->|_]; [done|].
  destruct (N.eqb_spec c 10) as [->|_]; done.
Qed.

End AddressRoundTrip.

(** X16. [parse_address] loses nothing and returns all or nothing. When
    it returns a street, a postal code and a city, the normalized address
    is the street, a comma and a rest that, stripped, is the postal code,
    a space and the city; neither side of that comma holds another one.
    Otherwise all three components are null. A line break counts as the
    comma and runs of blanks as one space. (44 is the code point of the
    comma.) *)
Theorem parse_address_reassembles_input :
  (forall rt address city street zip_code,
      AddressParser.parse_address rt address = (Some city, Some street, Some zip_code) ->
      exists zip_city,
        AddressParser.normalize address = street ++ ustr "," ++ zip_city
        /\ strip zip_city = zip_code ++ ustr " " ++ city
        /\ (44 ∉ street) /\ (44 ∉ zip_city))
  /\ (forall rt address,
         AddressParser.parse_address rt address = AddressParser.failed
         \/ exists city street zip_code,
              AddressParser.parse_address rt address
              = (Some city, Some street, Some zip_code))
  /\ (forall rt,
         AddressParser.parse_address rt
           (ustr "Musterweg 1" ++ [13; 10] ++ ustr "  80331   Bad  Aibling ")
         = (Some (ustr "Bad Aibling"), Some (ustr "Musterweg 1"), Some (ustr "80331"))).
Proof.
  split; [exact parse_address_reassembles|].
  split; [exact parse_address_all_or_nothing|].
  intros rt. vm_compute. reflexivity.
Qed.

(** X17. An address that holds no comma and no line break is never
    parsed: street, city and postal code all come back null, whatever
    else the address contains. (44, 10 and 13 are the comma, the line
    feed and the carriage return.) *)
Theorem parse_address_needs_separator (rt : runtime) (address : pystr) :
  44 ∉ address -> 10 ∉ address -> 13 ∉ address ->
  AddressParser.parse_address rt address = AddressParser.failed.
Proof. apply parse_address_no_separator. Qed.

(** A street, a postal code and a city with blanks only. *)
Lemma parse_address_needs_separator_witness :
  AddressParser.parse_address (runtime_on 2025 12 20) (ustr "Main Street 42 10115 Berlin")
  = AddressParser.failed.
Proof.
  apply (parse_address_needs_separator (runtime_on 2025 12 20)
           (ustr "Main Street 42 10115 Berlin"));
    apply (bool_decide_unpack _); vm_compute; exact I.
Defined.

Section CloseDateFacts.
Import FieldMapping.





End CloseDateFacts.


Section StageFacts.
Import FieldMapping Translator.




End StageFacts.



Section MainFacts.
Import CompaniesDb Translator Cleanup Main Shapes.

Local Ltac names_apart := apply (bool_decide_unpack _); vm_compute; exact I.

Lemma initialize_db_there (path : pystr) (dir dir1 : directory) (engine : DatabaseEngine) :
  initialize_db path dir = (dir1, Ok engine) -> dir1 !! path = Some (SqliteFile engine).
Proof.
  unfold initialize_db. destruct (dir !! path) as [[| |companies|]|] eqn:Hfile.
  - intros [= <- <-]. apply lookup_insert_eq.
  - intros Hno. discriminate Hno.
  - intros [= <- <-]. exact Hfile.
  - intros Hno. discriminate Hno.
  - intros [= <- <-]. apply lookup_insert_eq.
Qed.

Lemma build_sf_csvs_keeps_inputs (dir dir' : directory) (agg : aggregated_stats) :
  build_sf_csvs dir = (dir', Ok agg) ->
  forall path,
    path ∈ [Settings.companies_filename; Settings.contacts_filename;
            Settings.deals_filename] ->
    is_Some (dir' !! path).
Proof.
  intros Hbuild.
  destruct (build_sf_csvs_counts _ _ _ Hbuild)
    as (contacts & deals & Hc & Hd & _ & _ & _ & _ & _ & _ & _ & _ & Hc' & Hd').
  destruct (build_sf_csvs_ok _ _ _ Hbuild)
    as (dir1 & engine & dir2 & st1 & st2 & Hinit & Hpass1 & Hpass2 & _).
  destruct (run_pass_ok_parquet _ _ _ _ _ _ _ _ _ Hpass1) as [contacts1 Hcontacts].
  destruct (run_pass_ok_parquet _ _ _ _ _ _ _ _ _ Hpass2) as [deals2 Hdeals].
  assert (Hne1 : Settings.csv_accounts_contacts_filename
                 <> Settings.csv_errors_accounts_contacts_filename) by names_apart.
  assert (Hne2 : Settings.csv_opportunities_filename
                 <> Settings.csv_errors_opportunities_filename) by names_apart.
  destruct (run_pass_success _ _ _ _ _ _ _ _ Hne1 Hcontacts _ _ Hpass1)
    as (_ & _ & _ & _ & _ & _ & Hframe1).
  destruct (run_pass_success _ _ _ _ _ _ _ _ Hne2 Hdeals _ _ Hpass2)
    as (_ & _ & _ & _ & _ & _ & Hframe2).
  intros path Hpath. rewrite !elem_of_cons in Hpath.
  destruct Hpath as [->|[->|[->|Hnil]]]; [| | |by apply elem_of_nil in Hnil].
  - rewrite Hframe2 by names_apart. rewrite Hframe1 by names_apart.
    rewrite (initialize_db_there _ _ _ _ Hinit). by eexists.
  - rewrite Hc', Hc. by eexists.
  - rewrite Hd', Hd. by eexists.
Qed.

Lemma cleanup_after_build (dir dir' : directory) (agg : aggregated_stats) :
  build_sf_csvs dir = (dir', Ok agg) ->
  (cleanup dir').2 = Ok tt
  /\ (forall path,
        path ∈ [Settings.companies_filename; Settings.contacts_filename;
                Settings.deals_filename] ->
        (cleanup dir').1 !! path = None)
  /\ (forall path,
        path ∉ [Settings.companies_filename; Settings.contacts_filename;
                Settings.deals_filename] ->
        (cleanup dir').1 !! path = dir' !! path).
Proof.
  intros Hbuild. pose proof (build_sf_csvs_keeps_inputs _ _ _ Hbuild) as Hthere.
  destruct (cleanup_outcome dir') as [Hframe Hresult].
  destruct (cleanup dir').2 as [[]|e].
  - split; [done|]. split; [|exact Hframe]. intros path Hpath. by apply Hresult.
  - exfalso. destruct Hresult as (before & missing & after & Hsplit & _ & Hmissing & _).
    destruct (Hthere missing) as [f Hf]; [|by rewrite Hmissing in Hf].
    rewrite Hsplit. apply elem_of_app. right. left.
Qed.

End MainFacts.

(** X20. After a build that succeeded, the cleanup cannot fail: the
    three intermediate files are still there, [cleanup] removes them, and
    every CSV file the build wrote is left as it is. So the build and
    cleanup steps of [main] end with the statistics of the build exactly
    when the build succeeds. *)
Theorem cleanup_succeeds_after_build :
  (forall dir dir' agg,
      Translator.build_sf_csvs dir = (dir', Ok agg) ->
      (Cleanup.cleanup dir').2 = Ok tt
      /\ (forall path,
            path ∈ [Settings.companies_filename; Settings.contacts_filename;
                    Settings.deals_filename] ->
            (Cleanup.cleanup dir').1 !! path = None)
      /\ (forall path,
            path ∉ [Settings.companies_filename; Settings.contacts_filename;
                    Settings.deals_filename] ->
            (Cleanup.cleanup dir').1 !! path = dir' !! path))
  /\ (forall dir,
         (Main.build_then_cleanup dir).2 = (Translator.build_sf_csvs dir).2)
  /\ (let left := (Main.build_then_cleanup Samples.workdir).1 in
      left !! Settings.contacts_filename = None
      /\ left !! Settings.deals_filename = None
      /\ left !! Settings.companies_filename = None
      /\ length (Shapes.csv_rows (left !! Settings.csv_accounts_contacts_filename)) = 1%nat
      /\ length (Shapes.csv_rows (left !! Settings.csv_errors_opportunities_filename))
         = 1%nat).
Proof.
  split; [exact cleanup_after_build|]. split.
  - intros dir. unfold Main.build_then_cleanup.
    destruct (Translator.build_sf_csvs dir) as [dir' [agg|e]] eqn:Hbuild; [|reflexivity].
    destruct (cleanup_after_build _ _ _ Hbuild) as [Hok _].
    destruct (Cleanup.cleanup dir') as [dir'' r]. cbn [snd] in Hok. by rewrite Hok.
  - vm_compute. repeat split; reflexivity.
Qed.
